(** * Marathon Tetris core: board, bag randomizer and game controller

    A shallow embedding of [src/core/piece.ts], [src/core/board.ts],
    [src/core/bag.ts] and [src/core/game.ts], and the properties of the
    specification stated over it.

    Conventions of the embedding.
    - A JavaScript [number] that only ever holds an integer (coordinates,
      scores, line counts) is a [Z].
    - Times in milliseconds ([deltaTime], the timers, the drop interval) are
      doubles: the primitive [float] of Rocq, with the IEEE 754 operations
      of the processor.
    - The state of the random generator is an integer, or NaN once a product
      has left the range of the doubles ([Num]); its arithmetic is done on
      integers, and every result is rounded to the nearest double
      ([BagRandomizer.toDouble]).
    - A [while] loop is a function with a count of turns to spare.  For the
      loops over the grid a lemma shows that the loop ends by its own test
      before the count runs out.  The two loops of [update] run on doubles
      and end for some timers only: the count of turns is an argument of
      [update], [Game.updateEnds] tells whether both loops ended within it,
      and the properties hold for every count.
    - [null] is [None]; a grid cell is an [option TetrominoType].
    - Objects mutated in place (the grid, the bags, the controller) are
      threaded through the functions as values.
    - Calling the subscribers of an event is recorded by appending the event
      to the controller's [events] log. *)

From Stdlib Require Import ZArith List Bool Lia QArith Qround Permutation Floats.
Import ListNotations.
Open Scope Z_scope.

(** ** Types ([src/types/tetris.ts]) *)

(** The members I, O, T, S, Z, J, L of the enum. *)
Inductive TetrominoType := tI | tO | tT | tS | tZ | tJ | tL.

Inductive RotationState := SPAWN | RIGHT | DOUBLE | LEFT.

Inductive GameState := IDLE | PLAYING | PAUSED | GAME_OVER | COMPLETED.

(** [px] and [py] are the fields [x] and [y]. *)
Record Position := mkPosition { px : Z; py : Z }.

(** [pieceLockTimer] is the field [lockTimer] of a piece, which the
    controller never reads; its own timer is [Game.lockTimer]. *)
Record Piece := mkPiece {
  type : TetrominoType;
  position : Position;
  rotation : RotationState;
  locked : bool;
  pieceLockTimer : float
}.

Record GameStats := mkStats {
  score : Z;
  level : Z;
  lines : Z;
  combo : Z;
  backToBack : bool
}.

Definition BOARD_WIDTH : Z := 10.
Definition BOARD_HEIGHT : Z := 20.
Definition HIDDEN_ROWS : Z := 2.
Definition TOTAL_HEIGHT : Z := BOARD_HEIGHT + HIDDEN_ROWS.

Definition LOCK_DELAY : float := 500%float.
Definition DAS_DELAY : float := 170%float.
Definition DAS_PERIOD : float := 50%float.

Definition SCORE_SINGLE : Z := 100.
Definition SCORE_DOUBLE : Z := 300.
Definition SCORE_TRIPLE : Z := 500.
Definition SCORE_TETRIS : Z := 800.
Definition SCORE_SOFT_DROP : Z := 1.
Definition SCORE_HARD_DROP : Z := 2.

Definition TetrominoType_eqb (a b : TetrominoType) : bool :=
  match a, b with
  | tI, tI | tO, tO | tT, tT | tS, tS | tZ, tZ | tJ, tJ | tL, tL => true
  | _, _ => false
  end.

(** [Object.values(TetrominoType)] *)
Definition TetrominoType_values : list TetrominoType :=
  [tI; tO; tT; tS; tZ; tJ; tL].

Definition rotationIndex (r : RotationState) : Z :=
  match r with SPAWN => 0 | RIGHT => 1 | DOUBLE => 2 | LEFT => 3 end.

Definition rotationOfIndex (n : Z) : RotationState :=
  if n =? 0 then SPAWN else if n =? 1 then RIGHT
  else if n =? 2 then DOUBLE else LEFT.

(** A [for (let i = lo; ...; i++)] loop that runs [n] times over a state. *)
Fixpoint for_range {St : Type} (n : nat) (i : Z) (body : Z -> St -> St) (s : St) : St :=
  match n with
  | O => s
  | S n' => for_range n' (i + 1) body (body i s)
  end.

(** [l[i]] with a default for reads that miss, and [l[i] = v] inside the
    array. *)
Definition nthZ {A : Type} (l : list A) (i : Z) (d : A) : A :=
  if i <? 0 then d else nth (Z.to_nat i) l d.

Fixpoint set_nth {A : Type} (l : list A) (n : nat) (v : A) : list A :=
  match l, n with
  | [], _ => []
  | _ :: t, O => v :: t
  | h :: t, S n' => h :: set_nth t n' v
  end.

Definition setZ {A : Type} (l : list A) (i : Z) (v : A) : list A :=
  if i <? 0 then l else set_nth l (Z.to_nat i) v.

(** ** JavaScript numbers *)

(** The double of value [m * 2^e], rounded to the nearest (ties to the even
    significand) when it is not one. *)
Definition encode (m e : Z) : float :=
  SF2Prim (binary_normalize prec emax m e false).

(** The double an integer is held in. *)
Definition ofZ (z : Z) : float := encode z 0.

(** [a >= b] *)
Definition geb (a b : float) : bool := PrimFloat.leb b a.

(** [Math.floor(x)]: NaN, the infinities, the zeros and the doubles without
    a fraction are returned as they are. *)
Definition Math_floor (x : float) : float :=
  match Prim2SF x with
  | S754_finite s m e =>
      if 0 <=? e then x
      else encode ((if s then Z.neg m else Z.pos m) / 2 ^ (- e)) 0
  | _ => x
  end.

(** [a % b]: the remainder of the truncated division, exact, with the sign
    of the dividend. *)
Definition jsRem (a b : float) : float :=
  match Prim2SF a, Prim2SF b with
  | S754_nan, _ | _, S754_nan => PrimFloat.nan
  | S754_infinity _, _ => PrimFloat.nan
  | _, S754_zero _ => PrimFloat.nan
  | _, S754_infinity _ => a
  | S754_zero _, _ => a
  | S754_finite sa ma ea, S754_finite _ mb eb =>
      let e0 := Z.min ea eb in
      let r := Z.rem ((if sa then Z.neg ma else Z.pos ma) * 2 ^ (ea - e0))
                     (Z.pos mb * 2 ^ (eb - e0)) in
      if r =? 0 then (if sa then PrimFloat.neg_zero else PrimFloat.zero)
      else encode r e0
  end.

(** A number that holds an integer, or NaN. *)
Inductive Num := Fin (z : Z) | NaN.

Coercion Fin : Z >-> Num.

(** ** Shape and rotation tables ([src/core/piece.ts]) *)

Module PieceData.

Definition Shape := list (list Z).

Definition TETROMINO_SHAPES (t : TetrominoType) (r : RotationState) : Shape :=
  match t, r with
  | tI, SPAWN  => [[0; 0; 0; 0]; [1; 1; 1; 1]; [0; 0; 0; 0]; [0; 0; 0; 0]]
  | tI, RIGHT  => [[0; 0; 1; 0]; [0; 0; 1; 0]; [0; 0; 1; 0]; [0; 0; 1; 0]]
  | tI, DOUBLE => [[0; 0; 0; 0]; [0; 0; 0; 0]; [1; 1; 1; 1]; [0; 0; 0; 0]]
  | tI, LEFT   => [[0; 1; 0; 0]; [0; 1; 0; 0]; [0; 1; 0; 0]; [0; 1; 0; 0]]
  | tO, _      => [[0; 1; 1; 0]; [0; 1; 1; 0]; [0; 0; 0; 0]; [0; 0; 0; 0]]
  | tT, SPAWN  => [[0; 1; 0]; [1; 1; 1]; [0; 0; 0]]
  | tT, RIGHT  => [[0; 1; 0]; [0; 1; 1]; [0; 1; 0]]
  | tT, DOUBLE => [[0; 0; 0]; [1; 1; 1]; [0; 1; 0]]
  | tT, LEFT   => [[0; 1; 0]; [1; 1; 0]; [0; 1; 0]]
  | tS, SPAWN  => [[0; 1; 1]; [1; 1; 0]; [0; 0; 0]]
  | tS, RIGHT  => [[0; 1; 0]; [0; 1; 1]; [0; 0; 1]]
  | tS, DOUBLE => [[0; 0; 0]; [0; 1; 1]; [1; 1; 0]]
  | tS, LEFT   => [[1; 0; 0]; [1; 1; 0]; [0; 1; 0]]
  | tZ, SPAWN  => [[1; 1; 0]; [0; 1; 1]; [0; 0; 0]]
  | tZ, RIGHT  => [[0; 0; 1]; [0; 1; 1]; [0; 1; 0]]
  | tZ, DOUBLE => [[0; 0; 0]; [1; 1; 0]; [0; 1; 1]]
  | tZ, LEFT   => [[0; 1; 0]; [1; 1; 0]; [1; 0; 0]]
  | tJ, SPAWN  => [[1; 0; 0]; [1; 1; 1]; [0; 0; 0]]
  | tJ, RIGHT  => [[0; 1; 1]; [0; 1; 0]; [0; 1; 0]]
  | tJ, DOUBLE => [[0; 0; 0]; [1; 1; 1]; [0; 0; 1]]
  | tJ, LEFT   => [[0; 1; 0]; [0; 1; 0]; [1; 1; 0]]
  | tL, SPAWN  => [[0; 0; 1]; [1; 1; 1]; [0; 0; 0]]
  | tL, RIGHT  => [[0; 1; 0]; [0; 1; 0]; [0; 1; 1]]
  | tL, DOUBLE => [[0; 0; 0]; [1; 1; 1]; [1; 0; 0]]
  | tL, LEFT   => [[1; 1; 0]; [0; 1; 0]; [0; 1; 0]]
  end.

Definition kick (dx dy : Z) : Position := mkPosition dx dy.

(** [WALL_KICK_DATA], keyed by the string [from->to]; a key that is not in
    the table reads [undefined], which [|| []] turns into the empty list. *)
Definition WALL_KICK_DATA (from to : RotationState) : option (list Position) :=
  match from, to with
  | SPAWN, RIGHT  => Some [kick (-1) 0; kick (-1) 1; kick 0 (-2); kick (-1) (-2)]
  | RIGHT, SPAWN  => Some [kick 1 0; kick 1 (-1); kick 0 2; kick 1 2]
  | RIGHT, DOUBLE => Some [kick 1 0; kick 1 (-1); kick 0 2; kick 1 2]
  | DOUBLE, RIGHT => Some [kick (-1) 0; kick (-1) 1; kick 0 (-2); kick (-1) (-2)]
  | DOUBLE, LEFT  => Some [kick 1 0; kick 1 1; kick 0 (-2); kick 1 (-2)]
  | LEFT, DOUBLE  => Some [kick (-1) 0; kick (-1) (-1); kick 0 2; kick (-1) 2]
  | LEFT, SPAWN   => Some [kick (-1) 0; kick (-1) (-1); kick 0 2; kick (-1) 2]
  | SPAWN, LEFT   => Some [kick 1 0; kick 1 1; kick 0 (-2); kick 1 (-2)]
  | _, _ => None
  end.

Definition I_WALL_KICK_DATA (from to : RotationState) : option (list Position) :=
  match from, to with
  | SPAWN, RIGHT  => Some [kick (-2) 0; kick 1 0; kick (-2) (-1); kick 1 2]
  | RIGHT, SPAWN  => Some [kick 2 0; kick (-1) 0; kick 2 1; kick (-1) (-2)]
  | RIGHT, DOUBLE => Some [kick (-1) 0; kick 2 0; kick (-1) 2; kick 2 (-1)]
  | DOUBLE, RIGHT => Some [kick 1 0; kick (-2) 0; kick 1 (-2); kick (-2) 1]
  | DOUBLE, LEFT  => Some [kick 2 0; kick (-1) 0; kick 2 1; kick (-1) (-2)]
  | LEFT, DOUBLE  => Some [kick (-2) 0; kick 1 0; kick (-2) (-1); kick 1 2]
  | LEFT, SPAWN   => Some [kick 1 0; kick (-2) 0; kick 1 (-2); kick (-2) 1]
  | SPAWN, LEFT   => Some [kick (-1) 0; kick 2 0; kick (-1) 2; kick 2 (-1)]
  | _, _ => None
  end.

Definition orEmpty {A : Type} (o : option (list A)) : list A :=
  match o with Some l => l | None => [] end.

Definition getShape (t : TetrominoType) (r : RotationState) : Shape :=
  TETROMINO_SHAPES t r.

Definition getWallKickOffsets (t : TetrominoType) (fromRotation toRotation : RotationState)
  : list Position :=
  match t with
  | tI => orEmpty (I_WALL_KICK_DATA fromRotation toRotation)
  | tO => []
  | _ => orEmpty (WALL_KICK_DATA fromRotation toRotation)
  end.

Definition getNextRotationCW (r : RotationState) : RotationState :=
  rotationOfIndex (Z.rem (rotationIndex r + 1) 4).

Definition getNextRotationCCW (r : RotationState) : RotationState :=
  rotationOfIndex (Z.rem (rotationIndex r + 3) 4).

Definition getSpawnPosition (t : TetrominoType) : Position :=
  let shape := TETROMINO_SHAPES t SPAWN in
  let width := Z.of_nat (length (nth 0 shape [])) in
  mkPosition ((10 - width) / 2)
             (if TetrominoType_eqb t tI then 0 else 1).

(** [isTSpin]: the board is read only at corners inside the 10 x 22 field. *)
Definition cornerOccupied (board : list (list (option TetrominoType))) (c : Position) : bool :=
  (px c <? 0) || (px c >=? 10) || (py c <? 0) || (py c >=? 22) ||
  match nthZ (nthZ board (py c) []) (px c) None with
  | None => false
  | Some _ => true
  end.

Definition isTSpin (board : list (list (option TetrominoType))) (p : Position)
    (_rotation : RotationState) (lastWasRotation : bool) : bool :=
  if negb lastWasRotation then false
  else
    let corners := [ mkPosition (px p) (py p);
                     mkPosition (px p + 2) (py p);
                     mkPosition (px p) (py p + 2);
                     mkPosition (px p + 2) (py p + 2) ] in
    let occupiedCorners :=
      fold_left (fun n c => if cornerOccupied board c then n + 1 else n) corners 0 in
    occupiedCorners >=? 3.

End PieceData.

(** ** The board ([src/core/board.ts]) *)

Module Board.

Definition Cell := option TetrominoType.
Definition Grid := list (list Cell).

Definition emptyRow : list Cell := repeat None (Z.to_nat BOARD_WIDTH).

Definition createEmptyGrid : Grid := repeat emptyRow (Z.to_nat TOTAL_HEIGHT).

(** The grid keeps [TOTAL_HEIGHT] rows of [BOARD_WIDTH] cells. *)
Definition wf_grid (g : Grid) : Prop :=
  length g = Z.to_nat TOTAL_HEIGHT /\
  Forall (fun r => length r = Z.to_nat BOARD_WIDTH) g.

Definition wf_gridb (g : Grid) : bool :=
  (length g =? Z.to_nat TOTAL_HEIGHT)%nat &&
  forallb (fun r => (length r =? Z.to_nat BOARD_WIDTH)%nat) g.

(** [this.grid[y][x]] *)
Definition cellAt (g : Grid) (y x : Z) : Cell := nthZ (nthZ g y []) x None.

(** [this.grid[y][x] !== null] *)
Definition occupied (g : Grid) (y x : Z) : bool :=
  match cellAt g y x with None => false | Some _ => true end.

(** One filled or unfilled cell of the inner loop of [isValidPosition];
    [false] is the early [return false]. *)
Definition cellValid (g : Grid) (p : Position) (row col : Z) (v : Z) : bool :=
  if v =? 0 then true
  else
    let boardX := px p + col in
    let boardY := py p + row in
    if (boardX <? 0) || (boardX >=? BOARD_WIDTH) then false
    else if (boardY >=? 0) && (boardY <? TOTAL_HEIGHT) && occupied g boardY boardX then false
    else if boardY >=? TOTAL_HEIGHT then false
    else true.

Fixpoint rowValid (g : Grid) (p : Position) (row col : Z) (cells : list Z) : bool :=
  match cells with
  | [] => true
  | v :: rest =>
      if cellValid g p row col v then rowValid g p row (col + 1) rest else false
  end.

Fixpoint rowsValid (g : Grid) (p : Position) (row : Z) (shape : list (list Z)) : bool :=
  match shape with
  | [] => true
  | cells :: rest =>
      if rowValid g p row 0 cells then rowsValid g p (row + 1) rest else false
  end.

Definition isValidPosition (g : Grid) (t : TetrominoType) (p : Position)
    (r : RotationState) : bool :=
  rowsValid g p 0 (PieceData.getShape t r).

(** [lockPiece]: the same two loops, writing the type into the grid. *)
Definition lockCell (t : TetrominoType) (p : Position) (row col : Z) (v : Z) (g : Grid) : Grid :=
  if v =? 0 then g
  else
    let boardX := px p + col in
    let boardY := py p + row in
    if (boardY >=? 0) && (boardY <? TOTAL_HEIGHT) && (boardX >=? 0) && (boardX <? BOARD_WIDTH)
    then setZ g boardY (setZ (nthZ g boardY []) boardX (Some t))
    else g.

Fixpoint lockRow (t : TetrominoType) (p : Position) (row col : Z) (cells : list Z) (g : Grid) : Grid :=
  match cells with
  | [] => g
  | v :: rest => lockRow t p row (col + 1) rest (lockCell t p row col v g)
  end.

Fixpoint lockRows (t : TetrominoType) (p : Position) (row : Z) (shape : list (list Z)) (g : Grid) : Grid :=
  match shape with
  | [] => g
  | cells :: rest => lockRows t p (row + 1) rest (lockRow t p row 0 cells g)
  end.

Definition lockPiece (g : Grid) (t : TetrominoType) (p : Position) (r : RotationState) : Grid :=
  lockRows t p 0 (PieceData.getShape t r) g.

(** [isLineFull] *)
Definition isTetrominoType (t : TetrominoType) : bool :=
  existsb (TetrominoType_eqb t) TetrominoType_values.

Definition cellFull (c : Cell) : bool :=
  match c with
  | None => false
  | Some t => isTetrominoType t
  end.

Definition isLineFull (g : Grid) (row : Z) : bool :=
  if (row <? 0) || (row >=? TOTAL_HEIGHT) then false
  else
    match nth_error g (Z.to_nat row) with
    | None => false
    | Some cells =>
        if negb (Z.of_nat (length cells) =? BOARD_WIDTH) then false
        else forallb cellFull cells
    end.

(** [grid.splice(row, 1)] *)
Fixpoint removeAt {A : Type} (l : list A) (n : nat) : list A :=
  match l, n with
  | [], _ => []
  | _ :: t, O => t
  | h :: t, S n' => h :: removeAt t n'
  end.

(** The state of the [while (row >= 0)] loop of [clearLines]. *)
Record ClearState := mkClear {
  cgrid : Grid;
  crow : Z;
  clearedLines : list Z
}.

Definition clearStep (s : ClearState) : ClearState :=
  if isLineFull (cgrid s) (crow s) then
    mkClear (emptyRow :: removeAt (cgrid s) (Z.to_nat (crow s)))
            (crow s)
            (clearedLines s ++ [crow s])
  else
    mkClear (cgrid s) (crow s - 1) (clearedLines s).

Fixpoint clearLoop (fuel : nat) (s : ClearState) : ClearState :=
  match fuel with
  | O => s
  | S fuel' => if crow s >=? 0 then clearLoop fuel' (clearStep s) else s
  end.

(** Every turn of the loop either moves one row up or removes one of the
    full rows, so twice the height bounds the number of turns
    ([clearLines_effect] below). *)
Definition clearFuel : nat := Z.to_nat (2 * TOTAL_HEIGHT).

Definition clearLinesState (g : Grid) : ClearState :=
  clearLoop clearFuel (mkClear g (TOTAL_HEIGHT - 1) []).

(** [clearLines()]: the new grid and the returned array. *)
Definition clearLines (g : Grid) : Grid * list Z :=
  let s := clearLinesState g in
  (cgrid s, rev (clearedLines s)).

(** [getGhostPosition]: [while (isValidPosition(.., ghostY + 1)) ghostY++] *)
Fixpoint ghostLoop (fuel : nat) (g : Grid) (t : TetrominoType) (x ghostY : Z)
    (r : RotationState) : Z :=
  match fuel with
  | O => ghostY
  | S fuel' =>
      if isValidPosition g t (mkPosition x (ghostY + 1)) r
      then ghostLoop fuel' g t x (ghostY + 1) r
      else ghostY
  end.

Definition getGhostPosition (g : Grid) (t : TetrominoType) (p : Position)
    (r : RotationState) : Position :=
  mkPosition (px p) (ghostLoop (Z.to_nat (TOTAL_HEIGHT - py p)) g t (px p) (py p) r).

Definition reset : Grid := createEmptyGrid.

(** [isGameOver()]: game over is decided by the spawn position instead. *)
Definition isGameOver (g : Grid) : bool := false.

(** [getBoardStats] *)
Record BoardStats := mkBoardStats {
  height : Z;
  holes : Z;
  bumpiness : Z
}.

(** The variables of the first pair of loops. *)
Record ScanState := mkScan {
  columnHeights : list Z;
  holesCount : Z;
  foundBlock : bool
}.

Definition scanCell (g : Grid) (col row : Z) (s : ScanState) : ScanState :=
  if occupied g row col then
    if negb (foundBlock s)
    then mkScan (setZ (columnHeights s) col (TOTAL_HEIGHT - row)) (holesCount s) true
    else s
  else if foundBlock s
    then mkScan (columnHeights s) (holesCount s + 1) (foundBlock s)
    else s.

Definition scanColumn (g : Grid) (col : Z) (s : ScanState) : ScanState :=
  for_range (Z.to_nat TOTAL_HEIGHT) 0 (scanCell g col)
            (mkScan (columnHeights s) (holesCount s) false).

Definition scanGrid (g : Grid) : ScanState :=
  for_range (Z.to_nat BOARD_WIDTH) 0 (scanColumn g)
            (mkScan (repeat 0 (Z.to_nat BOARD_WIDTH)) 0 false).

Definition bumpStep (hs : list Z) (i : Z) (b : Z) : Z :=
  b + Z.abs (nthZ hs i 0 - nthZ hs (i + 1) 0).

(** [Math.max(...xs)] for a non-empty argument list (it has [BOARD_WIDTH]
    elements here). *)
Definition Math_max (xs : list Z) : Z :=
  match xs with
  | [] => 0
  | v :: rest => fold_left Z.max rest v
  end.

Definition getBoardStats (g : Grid) : BoardStats :=
  let s := scanGrid g in
  let bump := for_range (Z.to_nat (BOARD_WIDTH - 1)) 0 (bumpStep (columnHeights s)) 0 in
  mkBoardStats (Math_max (columnHeights s)) (holesCount s) bump.

End Board.

(** ** The 7-bag randomizer ([src/core/bag.ts]) *)

Module BagRandomizer.

(** An array slot; [None] is [undefined]. *)
Definition Slot := option TetrominoType.

(** The key of [bag[j]]: an integer, or NaN. *)
Inductive Key := KInt (k : Z) | KNaN.

Definition Key_eqb (a b : Key) : bool :=
  match a, b with
  | KInt x, KInt y => x =? y
  | KNaN, KNaN => true
  | _, _ => false
  end.

(** A JavaScript array while it is shuffled: its elements, and the
    properties written under keys that are not indices of the array (a
    negative [j] or a NaN in [bag[j] = ...] creates one). *)
Record JsArray := mkArray {
  elems : list Slot;
  props : list (Key * Slot)
}.

Definition arrayLength (a : JsArray) : Z := Z.of_nat (length (elems a)).

Definition isIndex (a : JsArray) (k : Key) : bool :=
  match k with
  | KInt z => (0 <=? z) && (z <? arrayLength a)
  | KNaN => false
  end.

Definition keyZ (k : Key) : Z := match k with KInt z => z | KNaN => 0 end.

Definition readAt (a : JsArray) (k : Key) : Slot :=
  if isIndex a k then nth (Z.to_nat (keyZ k)) (elems a) None
  else
    match find (fun kv => Key_eqb (fst kv) k) (props a) with
    | Some kv => snd kv
    | None => None
    end.

Definition writeAt (a : JsArray) (k : Key) (v : Slot) : JsArray :=
  if isIndex a k
  then mkArray (set_nth (elems a) (Z.to_nat (keyZ k)) v) (props a)
  else
    match k with
    | KInt z =>
        if z <? 0 then mkArray (elems a) ((k, v) :: props a)
        else mkArray (elems a ++ repeat None (Z.to_nat (z - arrayLength a)) ++ [v])
                     (props a)
    | KNaN => mkArray (elems a) ((k, v) :: props a)
    end.

(** The double nearest to an integer, ties to the even significand; [None]
    when that is an infinity.  An integer below 2^53 in absolute value is a
    double. *)
Definition toDouble (z : Z) : option Z :=
  let a := Z.abs z in
  if a <? 2 ^ 53 then Some z
  else
    let shift := Z.log2 a - 52 in
    let q := a / 2 ^ shift in
    let rest := a mod 2 ^ shift in
    let half := 2 ^ (shift - 1) in
    let q' := if (half <? rest) || ((rest =? half) && Z.odd q) then q + 1 else q in
    if q' * 2 ^ shift <? 2 ^ 1024 then Some (Z.sgn z * (q' * 2 ^ shift)) else None.

(** [random()]: the returned quotient and the new seed.  The product and
    the sum are rounded to doubles; [%] is the remainder of the truncated
    division ([Z.rem]), exact, with the sign of the dividend, and NaN for an
    infinity; the quotient by 2^31 is exact.  The quotient is [None] for
    NaN. *)
Definition random (seed : Num) : option Q * Num :=
  match seed with
  | NaN => (None, NaN)
  | Fin s =>
      match toDouble (s * 1664525) with
      | None => (None, NaN)
      | Some product =>
          match toDouble (product + 1013904223) with
          | None => (None, NaN)
          | Some sum =>
              let seed' := Z.rem sum 2147483648 in
              (Some (seed' # 2147483648), Fin seed')
          end
      end
  end.

(** One turn of the Fisher-Yates loop:
    [j = Math.floor(this.random() * (i + 1)); [bag[i], bag[j]] = [bag[j], bag[i]]].
    The product by [i + 1] is exact for an array of fewer than 2^22
    elements. *)
Definition swapStep (i : Z) (st : JsArray * Num) : JsArray * Num :=
  let (bag, seed) := st in
  let (r, seed') := random seed in
  let j :=
    match r with
    | Some q => KInt (Qfloor (q * inject_Z (i + 1)))
    | None => KNaN
    end in
  let vi := readAt bag (KInt i) in
  let vj := readAt bag j in
  (writeAt (writeAt bag (KInt i) vj) j vi, seed').

(** [for (let i = bag.length - 1; i > 0; i--)], [n] turns from [i] down. *)
Fixpoint shuffleLoop (n : nat) (i : Z) (st : JsArray * Num) : JsArray * Num :=
  match n with
  | O => st
  | S n' => shuffleLoop n' (i - 1) (swapStep i st)
  end.

Definition fillBag (bag : JsArray) (seed : Num) : JsArray * Num :=
  let pushed :=
    mkArray (elems bag ++ map Some [tI; tO; tT; tS; tZ; tJ; tL]) (props bag) in
  shuffleLoop (Z.to_nat (arrayLength pushed - 1)) (arrayLength pushed - 1) (pushed, seed).

Definition emptyArray : JsArray := mkArray [] [].

(** The randomizer.  Only the elements of the two bags are kept: after
    [fillBag] returns, [shift], [length] and the spread in [preview] are all
    that touch a bag, and none of them reads a non-index property. *)
Record State := mkState {
  currentBag : list Slot;
  nextBag : list Slot;
  seed : Num
}.

(** [new BagRandomizer(seed)] and [reset(seed)] with the seed given, an
    integer that is a double. *)
Definition create (s : Z) : State :=
  let (b1, s1) := fillBag emptyArray s in
  let (b2, s2) := fillBag emptyArray s1 in
  mkState (elems b1) (elems b2) s2.

Definition reset (s : Z) : State := create s.

(** [currentBag.shift()] *)
Definition shift (l : list Slot) : Slot * list Slot :=
  match l with
  | [] => (None, [])
  | v :: rest => (v, rest)
  end.

Definition next (st : State) : Slot * State :=
  let st1 :=
    if (length (currentBag st) =? 0)%nat then
      let (b, s') := fillBag emptyArray (seed st) in
      mkState (nextBag st) (elems b) s'
    else st in
  let (v, rest) := shift (currentBag st1) in
  (v, mkState rest (nextBag st1) (seed st1)).

(** [while (allPieces.length < count)]; every turn appends a bag. *)
Fixpoint previewLoop (fuel : nat) (count : Z) (allPieces : list Slot) (s : Num)
  : list Slot * Num :=
  match fuel with
  | O => (allPieces, s)
  | S fuel' =>
      if Z.of_nat (length allPieces) <? count then
        let (tempBag, s') := fillBag emptyArray s in
        previewLoop fuel' count (allPieces ++ elems tempBag) s'
      else (allPieces, s)
  end.

(** [xs.slice(0, count)] *)
Definition slice0 {A : Type} (xs : list A) (count : Z) : list A :=
  if count <? 0 then firstn (Z.to_nat (Z.of_nat (length xs) + count)) xs
  else firstn (Z.to_nat count) xs.

Definition preview (count : Z) (st : State) : list Slot * State :=
  let (allPieces, s') :=
    previewLoop (Z.to_nat count) count (currentBag st ++ nextBag st) (seed st) in
  (slice0 allPieces count, mkState (currentBag st) (nextBag st) s').

(** [n] successive calls of [next()]. *)
Fixpoint draws (n : nat) (st : State) : list Slot * State :=
  match n with
  | O => ([], st)
  | S n' =>
      let (v, st1) := next st in
      let (vs, st2) := draws n' st1 in
      (v :: vs, st2)
  end.

End BagRandomizer.

(** ** The game controller ([src/core/game.ts]) *)

Module Game.

Inductive InputAction :=
  MOVE_LEFT | MOVE_RIGHT | SOFT_DROP | HARD_DROP | ROTATE_CW | ROTATE_CCW | HOLD | PAUSE.

(** [GameEvent]: the six event tags of the union ('line_clear',
    'piece_lock', 'game_over', 'level_up', 'tspin', 'combo'), with their
    payloads. *)
Inductive GameEvent :=
| ev_line_clear (cleared : list Z)
| ev_piece_lock (piece : Piece)
| ev_game_over
| ev_level_up (newLevel : Z)
| ev_tspin
| ev_combo (count : Z).

Inductive DasDirection := left | right.

(** The fields of the controller; [events] is the sequence of events handed
    to [emit] so far, in order. *)
Record Game := mkGame {
  board : Board.Grid;
  bag : BagRandomizer.State;
  state : GameState;
  stats : GameStats;
  currentPiece : option Piece;
  holdPiece : option TetrominoType;
  canHold : bool;
  dropTimer : float;
  lockTimer : float;
  dasTimer : float;
  dasDirection : option DasDirection;
  lastWasRotation : bool;
  events : list GameEvent
}.

Definition set_board (v : Board.Grid) (g : Game) : Game :=
  mkGame v (bag g) (state g) (stats g) (currentPiece g) (holdPiece g) (canHold g) (dropTimer g) (lockTimer g) (dasTimer g) (dasDirection g) (lastWasRotation g) (events g).
Definition set_bag (v : BagRandomizer.State) (g : Game) : Game :=
  mkGame (board g) v (state g) (stats g) (currentPiece g) (holdPiece g) (canHold g) (dropTimer g) (lockTimer g) (dasTimer g) (dasDirection g) (lastWasRotation g) (events g).
Definition set_state (v : GameState) (g : Game) : Game :=
  mkGame (board g) (bag g) v (stats g) (currentPiece g) (holdPiece g) (canHold g) (dropTimer g) (lockTimer g) (dasTimer g) (dasDirection g) (lastWasRotation g) (events g).
Definition set_stats (v : GameStats) (g : Game) : Game :=
  mkGame (board g) (bag g) (state g) v (currentPiece g) (holdPiece g) (canHold g) (dropTimer g) (lockTimer g) (dasTimer g) (dasDirection g) (lastWasRotation g) (events g).
Definition set_currentPiece (v : option Piece) (g : Game) : Game :=
  mkGame (board g) (bag g) (state g) (stats g) v (holdPiece g) (canHold g) (dropTimer g) (lockTimer g) (dasTimer g) (dasDirection g) (lastWasRotation g) (events g).
Definition set_holdPiece (v : option TetrominoType) (g : Game) : Game :=
  mkGame (board g) (bag g) (state g) (stats g) (currentPiece g) v (canHold g) (dropTimer g) (lockTimer g) (dasTimer g) (dasDirection g) (lastWasRotation g) (events g).
Definition set_canHold (v : bool) (g : Game) : Game :=
  mkGame (board g) (bag g) (state g) (stats g) (currentPiece g) (holdPiece g) v (dropTimer g) (lockTimer g) (dasTimer g) (dasDirection g) (lastWasRotation g) (events g).
Definition set_dropTimer (v : float) (g : Game) : Game :=
  mkGame (board g) (bag g) (state g) (stats g) (currentPiece g) (holdPiece g) (canHold g) v (lockTimer g) (dasTimer g) (dasDirection g) (lastWasRotation g) (events g).
Definition set_lockTimer (v : float) (g : Game) : Game :=
  mkGame (board g) (bag g) (state g) (stats g) (currentPiece g) (holdPiece g) (canHold g) (dropTimer g) v (dasTimer g) (dasDirection g) (lastWasRotation g) (events g).
Definition set_dasTimer (v : float) (g : Game) : Game :=
  mkGame (board g) (bag g) (state g) (stats g) (currentPiece g) (holdPiece g) (canHold g) (dropTimer g) (lockTimer g) v (dasDirection g) (lastWasRotation g) (events g).
Definition set_dasDirection (v : option DasDirection) (g : Game) : Game :=
  mkGame (board g) (bag g) (state g) (stats g) (currentPiece g) (holdPiece g) (canHold g) (dropTimer g) (lockTimer g) (dasTimer g) v (lastWasRotation g) (events g).
Definition set_lastWasRotation (v : bool) (g : Game) : Game :=
  mkGame (board g) (bag g) (state g) (stats g) (currentPiece g) (holdPiece g) (canHold g) (dropTimer g) (lockTimer g) (dasTimer g) (dasDirection g) v (events g).
Definition set_events (v : list GameEvent) (g : Game) : Game :=
  mkGame (board g) (bag g) (state g) (stats g) (currentPiece g) (holdPiece g) (canHold g) (dropTimer g) (lockTimer g) (dasTimer g) (dasDirection g) (lastWasRotation g) v.

Definition set_combo (c : Z) (s : GameStats) : GameStats :=
  mkStats (score s) (level s) (lines s) c (backToBack s).

Definition add_score (d : Z) (g : Game) : Game :=
  let s := stats g in
  set_stats (mkStats (score s + d) (level s) (lines s) (combo s) (backToBack s)) g.

Definition set_position (v : Position) (p : Piece) : Piece :=
  mkPiece (type p) v (rotation p) (locked p) (pieceLockTimer p).

Definition set_rotation (v : RotationState) (p : Piece) : Piece :=
  mkPiece (type p) (position p) v (locked p) (pieceLockTimer p).

Definition set_locked (v : bool) (p : Piece) : Piece :=
  mkPiece (type p) (position p) (rotation p) v (pieceLockTimer p).

(** [new Game()]; [now] is the value of [Date.now()] that seeds the bag. *)
Definition create (now : Z) : Game :=
  mkGame Board.createEmptyGrid (BagRandomizer.create now) IDLE
         (mkStats 0 0 0 0 false) None None true 0%float 0%float 0%float None false [].

(** [emit(event)]: every subscriber of the event's tag is called with it. *)
Definition emit (e : GameEvent) (g : Game) : Game :=
  set_events (events g ++ [e]) g.

Definition reset (now : Z) (g : Game) : Game :=
  mkGame Board.reset (BagRandomizer.reset now) IDLE
         (mkStats 0 0 0 0 false) None None true 0%float 0%float 0%float None
         (lastWasRotation g) (events g).

Definition spawnNextPiece (g : Game) : Game :=
  let (drawn, bag') := BagRandomizer.next (bag g) in
  match drawn with
  | None => set_bag bag' g
      (* [next()] gave [undefined] and [getSpawnPosition] throws; the bags
         hold seven types each for the clocks of [validClock], see
         [bag_next_some]. *)
  | Some t =>
      let pos := PieceData.getSpawnPosition t in
      let g1 := set_currentPiece (Some (mkPiece t pos SPAWN false 0%float)) (set_bag bag' g) in
      let g2 := set_lastWasRotation false (set_lockTimer 0%float (set_dropTimer 0%float g1)) in
      if negb (Board.isValidPosition (board g2) t pos SPAWN)
      then emit ev_game_over (set_state GAME_OVER g2)
      else g2
  end.

Definition start (now : Z) (g : Game) : Game :=
  spawnNextPiece (set_state PLAYING (reset now g)).

Definition movePiece (dx dy : Z) (g : Game) : bool * Game :=
  match currentPiece g with
  | None => (false, g)
  | Some p =>
      let newPosition := mkPosition (px (position p) + dx) (py (position p) + dy) in
      if Board.isValidPosition (board g) (type p) newPosition (rotation p) then
        let g1 := set_lastWasRotation false
                    (set_currentPiece (Some (set_position newPosition p)) g) in
        (true, if negb (dx =? 0) && locked p then set_lockTimer 0%float g1 else g1)
      else (false, g)
  end.

(** The placement a successful rotation writes into the controller. *)
Definition applyRotation (p : Piece) (pos : Position) (newRotation : RotationState)
    (g : Game) : Game :=
  let g1 := set_lastWasRotation true
              (set_currentPiece (Some (set_rotation newRotation (set_position pos p))) g) in
  if locked p then set_lockTimer 0%float g1 else g1.

(** [for (const kick of kicks)] with its [return true] on the first valid
    position. *)
Fixpoint tryKicks (g : Game) (p : Piece) (newRotation : RotationState)
    (kicks : list Position) : bool * Game :=
  match kicks with
  | [] => (false, g)
  | k :: rest =>
      let kickPosition := mkPosition (px (position p) + px k) (py (position p) + py k) in
      if Board.isValidPosition (board g) (type p) kickPosition newRotation
      then (true, applyRotation p kickPosition newRotation g)
      else tryKicks g p newRotation rest
  end.

Definition rotatePiece (clockwise : bool) (g : Game) : bool * Game :=
  match currentPiece g with
  | None => (false, g)
  | Some p =>
      let oldRotation := rotation p in
      let newRotation :=
        if clockwise then PieceData.getNextRotationCW oldRotation
        else PieceData.getNextRotationCCW oldRotation in
      if Board.isValidPosition (board g) (type p) (position p) newRotation
      then (true, applyRotation p (position p) newRotation g)
      else tryKicks g p newRotation
             (PieceData.getWallKickOffsets (type p) oldRotation newRotation)
  end.

Definition handleLineClears (numLines : Z) (g : Game) : Game :=
  let s := stats g in
  let lines1 := lines s + numLines in
  let combo1 := combo s + 1 in
  let g1 := set_stats (mkStats (score s) (level s) lines1 combo1 (backToBack s)) g in
  let g2 := if combo1 >? 1 then emit (ev_combo combo1) g1 else g1 in
  let '(baseScore, b2b) :=
    if numLines =? 1 then (SCORE_SINGLE, false)
    else if numLines =? 2 then (SCORE_DOUBLE, false)
    else if numLines =? 3 then (SCORE_TRIPLE, false)
    else if numLines =? 4 then
      ((if backToBack s then SCORE_TETRIS * 3 / 2 (* [baseScore *= 1.5] *)
        else SCORE_TETRIS), true)
    else (0, backToBack s) in
  let score1 := score s + (baseScore * (level s + 1) + 50 * combo1 * (level s + 1)) in
  let newLevel := Z.min (lines1 / 10) 29 in
  if newLevel >? level s
  then emit (ev_level_up newLevel) (set_stats (mkStats score1 newLevel lines1 combo1 b2b) g2)
  else set_stats (mkStats score1 (level s) lines1 combo1 b2b) g2.

(** [lockCurrentPiece], in its three parts.  First the piece is written
    into the board, the T-Spin test is made and [piece_lock] is emitted. *)
Definition lockAndAnnounce (p : Piece) (g : Game) : Game :=
  let g1 := set_board (Board.lockPiece (board g) (type p) (position p) (rotation p)) g in
  let g2 :=
    if TetrominoType_eqb (type p) tT then
      if PieceData.isTSpin (board g1) (position p) (rotation p) (lastWasRotation g1)
      then emit ev_tspin g1 else g1
    else g1 in
  emit (ev_piece_lock p) g2.

(** Then the lines are cleared and scored, or the combo is reset. *)
Definition clearAndScore (g : Game) : Game :=
  let (grid', clearedLines) := Board.clearLines (board g) in
  let g1 := set_board grid' g in
  if Z.of_nat (length clearedLines) >? 0
  then emit (ev_line_clear clearedLines)
            (handleLineClears (Z.of_nat (length clearedLines)) g1)
  else set_stats (set_combo 0 (stats g1)) g1.

(** Last come the two terminal checks and the next piece. *)
Definition lockCurrentPiece (g : Game) : Game :=
  match currentPiece g with
  | None => g
  | Some p =>
      let g1 := clearAndScore (lockAndAnnounce p g) in
      if Board.isGameOver (board g1) then emit ev_game_over (set_state GAME_OVER g1)
      else if lines (stats g1) >=? 999 then set_state COMPLETED g1
      else set_canHold true (spawnNextPiece g1)
  end.

(** [while (this.movePiece(0, 1)) dropDistance++] *)
Fixpoint hardDropLoop (fuel : nat) (dropDistance : Z) (g : Game) : Z * Game :=
  match fuel with
  | O => (dropDistance, g)
  | S fuel' =>
      let (moved, g1) := movePiece 0 1 g in
      if moved then hardDropLoop fuel' (dropDistance + 1) g1 else (dropDistance, g1)
  end.

(** No piece stays valid below the floor, so the loop makes fewer than
    [TOTAL_HEIGHT - y] + 1 turns. *)
Definition hardDropFuel (g : Game) : nat :=
  match currentPiece g with
  | None => 1%nat
  | Some p => S (Z.to_nat (TOTAL_HEIGHT - py (position p)))
  end.

Definition performHardDrop (g : Game) : Game :=
  match currentPiece g with
  | None => g
  | Some _ =>
      let (dropDistance, g1) := hardDropLoop (hardDropFuel g) 0 g in
      lockCurrentPiece (add_score (dropDistance * SCORE_HARD_DROP) g1)
  end.

Definition performHold (g : Game) : Game :=
  match currentPiece g with
  | None => g
  | Some p =>
      if negb (canHold g) then g
      else
        let heldType := type p in
        let g1 :=
          match holdPiece g with
          | Some h =>
              set_currentPiece
                (Some (mkPiece h (PieceData.getSpawnPosition h) SPAWN false 0%float)) g
          | None => spawnNextPiece g
          end in
        set_lockTimer 0%float (set_dropTimer 0%float (set_canHold false (set_holdPiece (Some heldType) g1)))
  end.

Definition getDropInterval (g : Game) : float :=
  let framesPerDrop := Z.max 1 (48 - level (stats g) * 2) in
  ((ofZ framesPerDrop / 60) * 1000)%float.

(** One turn of the [for] loop of the delayed auto shift. *)
Definition dasStep (g : Game) : Game :=
  match dasDirection g with
  | Some left => snd (movePiece (-1) 0 g)
  | _ => snd (movePiece 1 0 g)
  end.

(** [for (let i = 0; i < dasSteps; i++)], from the value [i] of the
    counter on, with [fuel] turns to spare. *)
Fixpoint dasLoop (fuel : nat) (i dasSteps : float) (g : Game) : Game :=
  match fuel with
  | O => g
  | S fuel' =>
      if PrimFloat.ltb i dasSteps
      then dasLoop fuel' (i + 1)%float dasSteps (dasStep g)
      else g
  end.

Definition handleDas (fuel : nat) (deltaTime : float) (g : Game) : Game :=
  match dasDirection g with
  | None => g
  | Some _ =>
      let g1 := set_dasTimer (dasTimer g + deltaTime)%float g in
      if geb (dasTimer g1) DAS_DELAY then
        let dasSteps := Math_floor ((dasTimer g1 - DAS_DELAY) / DAS_PERIOD)%float in
        let g2 := dasLoop fuel 0%float dasSteps g1 in
        set_dasTimer (DAS_DELAY + jsRem (dasTimer g2 - DAS_DELAY) DAS_PERIOD)%float g2
      else g1
  end.

(** One turn of [while (this.dropTimer >= dropInterval)]. *)
Definition gravityStep (dropInterval : float) (g : Game) : Game :=
  let g1 := set_dropTimer (dropTimer g - dropInterval)%float g in
  let (moved, g2) := movePiece 0 1 g1 in
  if moved then g2
  else
    match currentPiece g2 with
    | Some p => if negb (locked p) then set_currentPiece (Some (set_locked true p)) g2 else g2
    | None => g2
    end.

Fixpoint gravityLoop (fuel : nat) (dropInterval : float) (g : Game) : Game :=
  match fuel with
  | O => g
  | S fuel' =>
      if geb (dropTimer g) dropInterval
      then gravityLoop fuel' dropInterval (gravityStep dropInterval g)
      else g
  end.

Definition handleLockDelay (deltaTime : float) (g : Game) : Game :=
  match currentPiece g with
  | None => g
  | Some p =>
      if locked p then
        let g1 := set_lockTimer (lockTimer g + deltaTime)%float g in
        if geb (lockTimer g1) LOCK_DELAY then lockCurrentPiece g1 else g1
      else set_lockTimer 0%float g
  end.

Definition GameState_eqb (a b : GameState) : bool :=
  match a, b with
  | IDLE, IDLE | PLAYING, PLAYING | PAUSED, PAUSED
  | GAME_OVER, GAME_OVER | COMPLETED, COMPLETED => true
  | _, _ => false
  end.

(** [update(deltaTime)], each of its two loops with [fuel] turns to
    spare. *)
Definition update (fuel : nat) (deltaTime : float) (g : Game) : Game :=
  if negb (GameState_eqb (state g) PLAYING) then g
  else
    match currentPiece g with
    | None => g
    | Some _ =>
        let g1 := handleDas fuel deltaTime g in
        let g2 := set_dropTimer (dropTimer g1 + deltaTime)%float g1 in
        let dropInterval := getDropInterval g2 in
        let g3 := gravityLoop fuel dropInterval g2 in
        handleLockDelay deltaTime g3
    end.

(** Whether a loop came to the end by its own test within [fuel] turns;
    the result of the loop is then the one of the code. *)
Fixpoint dasLoopEnds (fuel : nat) (i dasSteps : float) : bool :=
  negb (PrimFloat.ltb i dasSteps) ||
  match fuel with
  | O => false
  | S fuel' => dasLoopEnds fuel' (i + 1)%float dasSteps
  end.

Fixpoint gravityLoopEnds (fuel : nat) (dropInterval : float) (g : Game) : bool :=
  negb (geb (dropTimer g) dropInterval) ||
  match fuel with
  | O => false
  | S fuel' => gravityLoopEnds fuel' dropInterval (gravityStep dropInterval g)
  end.

Definition handleDasEnds (fuel : nat) (deltaTime : float) (g : Game) : bool :=
  match dasDirection g with
  | None => true
  | Some _ =>
      let timer := (dasTimer g + deltaTime)%float in
      negb (geb timer DAS_DELAY) ||
      dasLoopEnds fuel 0%float (Math_floor ((timer - DAS_DELAY) / DAS_PERIOD)%float)
  end.

Definition updateEnds (fuel : nat) (deltaTime : float) (g : Game) : bool :=
  if negb (GameState_eqb (state g) PLAYING) then true
  else
    match currentPiece g with
    | None => true
    | Some _ =>
        let g1 := handleDas fuel deltaTime g in
        let g2 := set_dropTimer (dropTimer g1 + deltaTime)%float g1 in
        handleDasEnds fuel deltaTime g && gravityLoopEnds fuel (getDropInterval g2) g2
    end.

Definition pressMove (dx : Z) (d : DasDirection) (pressed : bool) (g : Game) : Game :=
  if pressed then
    set_dasTimer 0%float (set_dasDirection (Some d) (snd (movePiece dx 0 g)))
  else
    match dasDirection g, d with
    | Some left, left | Some right, right =>
        set_dasTimer 0%float (set_dasDirection None g)
    | _, _ => g
    end.

Definition handleInput (action : InputAction) (pressed : bool) (g : Game) : Game :=
  if negb (GameState_eqb (state g) PLAYING) then
    match action with
    | PAUSE => if pressed && GameState_eqb (state g) PAUSED then set_state PLAYING g else g
    | _ => g
    end
  else
    match action, pressed with
    | PAUSE, true => set_state PAUSED g
    | _, _ =>
        match currentPiece g with
        | None => g
        | Some _ =>
            match action with
            | MOVE_LEFT => pressMove (-1) left pressed g
            | MOVE_RIGHT => pressMove 1 right pressed g
            | SOFT_DROP =>
                if pressed then
                  let (moved, g1) := movePiece 0 1 g in
                  if moved then add_score SCORE_SOFT_DROP g1 else g1
                else g
            | HARD_DROP => if pressed then performHardDrop g else g
            | ROTATE_CW => if pressed then snd (rotatePiece true g) else g
            | ROTATE_CCW => if pressed then snd (rotatePiece false g) else g
            | HOLD => if pressed && canHold g then performHold g else g
            | PAUSE => g
            end
        end
    end.

Definition getNextPieces (count : Z) (g : Game) : list BagRandomizer.Slot * Game :=
  let (ps, bag') := BagRandomizer.preview count (bag g) in
  (ps, set_bag bag' g).

(** [getGhostPosition()] of the controller: [null] without an active
    piece. *)
Definition getGhostPosition (g : Game) : option Position :=
  match currentPiece g with
  | None => None
  | Some p =>
      Some (Board.getGhostPosition (board g) (type p) (position p) (rotation p))
  end.

(** The calls the collaborators make on a controller.  [Date.now()], read
    by [start] and [reset], is an argument. *)
Inductive Call :=
| CallStart (now : Z)
| CallReset (now : Z)
| CallUpdate (fuel : nat) (deltaTime : float)
| CallHandleInput (action : InputAction) (pressed : bool)
| CallGetNextPieces (count : Z).

Definition call (c : Call) (g : Game) : Game :=
  match c with
  | CallStart now => start now g
  | CallReset now => reset now g
  | CallUpdate fuel deltaTime => update fuel deltaTime g
  | CallHandleInput action pressed => handleInput action pressed g
  | CallGetNextPieces count => snd (getNextPieces count g)
  end.

(** The clock is a number of milliseconds, an integer that is never
    negative and stays below 2^1000: the first product of the generator
    is then a double, not an infinity. *)
Definition validClock (now : Z) : Prop := 0 <= now < 2 ^ 1000.

Definition validCall (c : Call) : Prop :=
  match c with
  | CallStart now | CallReset now => validClock now
  | _ => True
  end.

Definition resets (c : Call) : bool :=
  match c with
  | CallStart _ | CallReset _ => true
  | _ => false
  end.

(** The controllers a program can get to. *)
Inductive reachable : Game -> Prop :=
| reachable_create (now : Z) : validClock now -> reachable (create now)
| reachable_call (g : Game) (c : Call) :
    reachable g -> validCall c -> reachable (call c g).

End Game.

(** ** Vocabulary of the specification *)

Module Spec.

(** The cell [(row, col)] of a shape matrix is filled. *)
Definition filledAt (shape : PieceData.Shape) (row col : Z) : Prop :=
  0 <= row /\ 0 <= col /\
  exists cells v,
    nth_error shape (Z.to_nat row) = Some cells /\
    nth_error cells (Z.to_nat col) = Some v /\ v <> 0.

(** The three grounds on which [isValidPosition] rejects a filled cell
    placed at board column [boardX] and board row [boardY]. *)
Definition columnOutside (boardX : Z) : Prop := boardX < 0 \/ BOARD_WIDTH <= boardX.
Definition belowBottom (boardY : Z) : Prop := TOTAL_HEIGHT <= boardY.
Definition hitsOccupied (g : Board.Grid) (boardX boardY : Z) : Prop :=
  0 <= boardX < BOARD_WIDTH /\ 0 <= boardY < TOTAL_HEIGHT /\
  Board.occupied g boardY boardX = true.

Definition rejects (g : Board.Grid) (p : Position) (row col : Z) : Prop :=
  columnOutside (px p + col) \/ belowBottom (py p + row) \/
  hitsOccupied g (px p + col) (py p + row).

(** The rotation state a rotate input aims at. *)
Definition targetRotation (clockwise : bool) (r : RotationState) : RotationState :=
  if clockwise then PieceData.getNextRotationCW r else PieceData.getNextRotationCCW r.

(** The position a kick offset leads the piece [p] to, and whether the
    board accepts it in the rotation state [newRotation]. *)
Definition kicked (p : Piece) (k : Position) : Position :=
  mkPosition (px (position p) + px k) (py (position p) + py k).

Definition kickValid (g : Game.Game) (p : Piece) (newRotation : RotationState)
    (k : Position) : bool :=
  Board.isValidPosition (Game.board g) (type p) (kicked p k) newRotation.

(** [q] is the piece [p] after moves and rotations that left its
    soft-locked flag set. *)
Definition stillLocked (p q : Piece) : Prop :=
  type q = type p /\ locked q = true.

(** Column [x'] is column [x], or lies from it on the side the auto shift
    pushes to. *)
Definition shifted (d : option Game.DasDirection) (x x' : Z) : Prop :=
  match d with
  | None => x' = x
  | Some Game.left => x' <= x
  | Some Game.right => x <= x'
  end.

(** From [g] to [g'] a soft-locked piece [p] was pushed sideways, to the
    side [d] only, and moved straight down.  The flag stays set; the lock
    timer is as before, or 0 when the piece was pushed to another column;
    the board, the statistics and the events are as before. *)
Definition carried (d : option Game.DasDirection) (g : Game.Game) (p : Piece)
    (g' : Game.Game) : Prop :=
  exists q, Game.currentPiece g' = Some q /\ stillLocked p q /\
            rotation q = rotation p /\
            shifted d (px (position p)) (px (position q)) /\
            py (position p) <= py (position q) /\
            Game.lockTimer g'
            = (if px (position q) =? px (position p) then Game.lockTimer g
               else 0%float) /\
            Game.state g' = Game.state g /\
            Game.stats g' = Game.stats g /\
            Game.board g' = Game.board g /\
            Game.events g' = Game.events g.

(** What the auto shift and the gravity loop of [update] may do to a
    soft-locked piece [p] of [g]: push it to the side that is held, and
    move it down. *)
Definition afterGravity (g : Game.Game) (p : Piece) (g' : Game.Game) : Prop :=
  carried (Game.dasDirection g) g p g'.

(** On the way from [g] to [g'] the piece [q] was locked: it was written
    into the board where it stood, the full rows were cleared, and
    [piece_lock] was emitted for it, after [tspin] at most. *)
Definition lockedIn (g : Game.Game) (q : Piece) (g' : Game.Game) : Prop :=
  Game.board g'
  = fst (Board.clearLines
           (Board.lockPiece (Game.board g) (type q) (position q) (rotation q))) /\
  exists before later,
    Game.events g' = Game.events g ++ before ++ Game.ev_piece_lock q :: later /\
    (before = [] \/ before = [Game.ev_tspin]).

(** The level the line count calls for. *)
Definition levelOf (lineCount : Z) : Z := Z.min (lineCount / 10) 29.

Definition levelRule (s : GameStats) : Prop :=
  level s = levelOf (lines s) /\ 0 <= lines s.

(** From [s] to [s'] neither the lines nor the level went down, and the level
    rule was kept. *)
Definition progress (s s' : GameStats) : Prop :=
  lines s <= lines s' /\ level s <= level s' /\ (levelRule s -> levelRule s').

(** The events that report the end of a game.  [game_over] is the only
    such tag of [GameEvent]; the union has no tag for completion. *)
Definition terminalEvent (e : Game.GameEvent) : bool :=
  match e with
  | Game.ev_game_over => true
  | _ => false
  end.

(** From [g] to [g'] only events that do not report an end were emitted. *)
Definition quietly (g g' : Game.Game) : Prop :=
  exists evs, Game.events g' = Game.events g ++ evs /\
              Forall (fun e => terminalEvent e = false) evs.

(** How many lines the lock of the active piece of [g] clears: the length
    of the list [clearLines] returns once the piece is written into the
    board. *)
Definition linesClearedByLock (g : Game.Game) : Z :=
  match Game.currentPiece g with
  | None => 0
  | Some p =>
      Z.of_nat (length (snd (Board.clearLines
        (Board.lockPiece (Game.board g) (type p) (position p) (rotation p)))))
  end.

(** The indices [i, i + 1, ..., i + n - 1]. *)
Fixpoint zrange (i : Z) (n : nat) : list Z :=
  match n with
  | O => []
  | S n' => i :: zrange (i + 1) n'
  end.

Definition rows : list Z := zrange 0 (Z.to_nat TOTAL_HEIGHT).
Definition columns : list Z := zrange 0 (Z.to_nat BOARD_WIDTH).

(** The row of the first occupied cell of a column, from the top. *)
Definition firstOccupied (g : Board.Grid) (col : Z) : option Z :=
  find (fun row => Board.occupied g row col) rows.

(** The height of a column as the code measures it: from the first occupied
    cell down to the floor; 0 for an empty column. *)
Definition columnHeight (g : Board.Grid) (col : Z) : Z :=
  match firstOccupied g col with
  | Some row => TOTAL_HEIGHT - row
  | None => 0
  end.

(** The height of a column as the specification words it: the distance from
    the grid top to the first occupied cell; 0 for an empty column. *)
Definition distanceFromTop (g : Board.Grid) (col : Z) : Z :=
  match firstOccupied g col with
  | Some row => row
  | None => 0
  end.

(** The empty cells of a column strictly below its first occupied cell. *)
Definition holesInColumn (g : Board.Grid) (col : Z) : Z :=
  match firstOccupied g col with
  | Some top =>
      Z.of_nat (length (filter (fun row => (top <? row) && negb (Board.occupied g row col)) rows))
  | None => 0
  end.

Definition sumZ (xs : list Z) : Z := fold_right Z.add 0 xs.

(** The sum of the absolute differences of neighbours. *)
Fixpoint bumpinessOf (hs : list Z) : Z :=
  match hs with
  | a :: (b :: _) as rest => Z.abs (a - b) + bumpinessOf rest
  | _ => 0
  end.

Definition isMaximum (m : Z) (xs : list Z) : Prop :=
  In m xs /\ Forall (fun v => v <= m) xs.

(** A block of draws holds each of the seven types exactly once. *)
Definition oneOfEach (block : list BagRandomizer.Slot) : Prop :=
  Permutation block (map Some TetrominoType_values).

(** The [k]-th block of seven draws from a randomizer ([k] = 0 for draws 1
    to 7, [k] = 1 for draws 8 to 14, ...). *)
Definition drawBlock (k : nat) (st : BagRandomizer.State) : list BagRandomizer.Slot :=
  fst (BagRandomizer.draws 7 (snd (BagRandomizer.draws (7 * k) st))).

(** The generator's next state is an integer that is not negative: the
    state is not NaN, no infinity comes up on the way, and the remainder is
    not negative.  Every seed [s] below 2^1000 with
    [0 <= s * 1664525 + 1013904223] qualifies ([seedOk_range]), and so does
    every state the generator reaches from one. *)
Definition seedOk (n : Num) : Prop :=
  exists r : Z, 0 <= r /\ BagRandomizer.random n = (Some (r # 2147483648), Fin r).

(** The line of [random()] that computes the new seed, on doubles, and the
    double a generator state is; [BagRandomizer.random] is checked against
    them on [sampleSeeds], which are doubles. *)
Definition randomDouble (seed : float) : float :=
  jsRem (seed * 1664525 + 1013904223)%float 2147483648%float.

Definition numDouble (n : Num) : float :=
  match n with
  | Fin z => ofZ z
  | NaN => PrimFloat.nan
  end.

Definition sampleSeeds : list Z :=
  [0; 1; 12345; 54321; -609; -610; -1000; 1700000000000; 8640000000000000;
   2 ^ 53; 2 ^ 53 + 2; 2 ^ 60 + 2 ^ 20; - (2 ^ 60 + 2 ^ 20); 2 ^ 200 + 2 ^ 150;
   2 ^ 1003; 2 ^ 1004; 2 ^ 1010].

(** A randomizer between two bags: both bags are whole, or the current one
    is used up. *)
Definition aligned (st : BagRandomizer.State) : Prop :=
  seedOk (BagRandomizer.seed st) /\
  oneOfEach (BagRandomizer.nextBag st) /\
  (BagRandomizer.currentBag st = [] \/ oneOfEach (BagRandomizer.currentBag st)).

(** A row of the grid is full: it has [BOARD_WIDTH] cells and each holds a
    piece type. *)
Definition rowFull (cells : list Board.Cell) : bool :=
  (Z.of_nat (length cells) =? BOARD_WIDTH) && forallb Board.cellFull cells.

(** What the bottom-up scan of [clearLines] pushes, over the rows from the
    bottom one (original index [idx]) upwards, when [c] full rows were
    removed below them: a full row is pushed under its original index plus
    [c]. *)
Fixpoint pushedUp (bottomUp : list (list Board.Cell)) (idx c : Z) : list Z :=
  match bottomUp with
  | [] => []
  | cells :: above =>
      if rowFull cells then (idx + c) :: pushedUp above (idx - 1) (c + 1)
      else pushedUp above (idx - 1) c
  end.

(** A randomizer whose next draw is a piece type: the generator state is
    in range, the next bag is whole and the current one has no hole. *)
Definition bagReady (st : BagRandomizer.State) : Prop :=
  seedOk (BagRandomizer.seed st) /\
  oneOfEach (BagRandomizer.nextBag st) /\
  Forall (fun v => v <> None) (BagRandomizer.currentBag st).

(** A controller whose board has [TOTAL_HEIGHT] rows of [BOARD_WIDTH] cells
    and whose bag is ready. *)
Definition sound (g : Game.Game) : Prop :=
  Board.wf_grid (Game.board g) /\ bagReady (Game.bag g).

(** *** Vocabulary of the further properties *)

(** The cell [(row, col)] of a shape matrix is filled, as a test. *)
Definition filledb (shape : PieceData.Shape) (row col : Z) : bool :=
  (0 <=? row) && (0 <=? col) && negb (nthZ (nthZ shape row []) col 0 =? 0).

(** The number of filled cells of a shape matrix. *)
Definition filledCount (shape : PieceData.Shape) : nat :=
  length (filter (fun v => negb (v =? 0)) (concat shape)).

(** The side of the matrix of a piece type, and the test that a matrix is a
    square of that side. *)
Definition boxSide (t : TetrominoType) : nat :=
  match t with tI | tO => 4%nat | _ => 3%nat end.

Definition squareOf (n : nat) (shape : PieceData.Shape) : bool :=
  (length shape =? n)%nat && forallb (fun cells => (length cells =? n)%nat) shape.

(** A square matrix turned a quarter clockwise: row [i] of the result is
    column [i] of the matrix read from the bottom up. *)
Definition turnCW (shape : PieceData.Shape) : PieceData.Shape :=
  map (fun i => rev (map (fun cells => nth i cells 0) shape))
      (seq 0 (length shape)).

(** The cell [(y, x)] lies inside the grid. *)
Definition inField (y x : Z) : Prop :=
  0 <= y < TOTAL_HEIGHT /\ 0 <= x < BOARD_WIDTH.

(** The offset that undoes a kick. *)
Definition opposite (k : Position) : Position := mkPosition (- px k) (- py k).

(** The active piece, if there is one, lies on free cells inside the walls
    and above the floor. *)
Definition pieceFits (g : Game.Game) : Prop :=
  match Game.currentPiece g with
  | Some p =>
      Board.isValidPosition (Game.board g) (type p) (position p) (rotation p) = true
  | None => True
  end.

(** The controller is in play or paused: the states in which a piece is
    being steered. *)
Definition inPlay (g : Game.Game) : Prop :=
  Game.state g = PLAYING \/ Game.state g = PAUSED.

(** From [g] to [g'] only the active piece, the timers, the shift direction
    and the rotation mark may differ. *)
Definition calm (g g' : Game.Game) : Prop :=
  Game.board g' = Game.board g /\ Game.bag g' = Game.bag g /\
  Game.state g' = Game.state g /\ Game.stats g' = Game.stats g /\
  Game.holdPiece g' = Game.holdPiece g /\ Game.canHold g' = Game.canHold g /\
  Game.events g' = Game.events g.

(** How a call may end a game: either the state becomes game over and the
    last event emitted is [game_over], after events that do not report an
    end; or the state is not game over and no event reports an end. *)
Definition signalled (g g' : Game.Game) : Prop :=
  (Game.state g' = GAME_OVER /\
   exists pre, Game.events g' = Game.events g ++ pre ++ [Game.ev_game_over] /\
               Forall (fun e => terminalEvent e = false) pre) \/
  (Game.state g' <> GAME_OVER /\ quietly g g').

(** Statistics with no negative score, level or combo count; and a step
    that keeps them so without lowering the score. *)
Definition fair (s : GameStats) : Prop :=
  0 <= score s /\ 0 <= level s /\ 0 <= combo s.

Definition gain (s s' : GameStats) : Prop :=
  fair s -> fair s' /\ score s <= score s'.

(** The levels 0 to 24; from level 24 on a drop takes one frame. *)
Definition levelsToOneFrame : list Z := map Z.of_nat (seq 0 25).

(** The turns the loop of the auto shift makes within [fuel]: the counter
    goes up by one from [i] while it is below [dasSteps]. *)
Fixpoint dasTurns (fuel : nat) (i dasSteps : float) : nat :=
  match fuel with
  | O => O
  | S fuel' =>
      if PrimFloat.ltb i dasSteps then S (dasTurns fuel' (i + 1)%float dasSteps)
      else O
  end.

(** The column [k] places from column [x] on the side [d]. *)
Definition towards (d : Game.DasDirection) (x k : Z) : Z :=
  match d with
  | Game.left => x - k
  | Game.right => x + k
  end.

(** The piece [p] can stand [k] columns to the side [d] of where it is. *)
Definition freeAt (g : Game.Game) (p : Piece) (d : Game.DasDirection) (k : Z) : bool :=
  Board.isValidPosition (Game.board g) (type p)
    (mkPosition (towards d (px (position p)) k) (py (position p))) (rotation p).

End Spec.

(** ** Concrete boards and controllers used as test inputs *)

Module Examples.

(** A controller in play with the given board, statistics and active piece,
    and a bag seeded with 54321. *)
Definition playing (b : Board.Grid) (s : GameStats) (p : Piece) : Game.Game :=
  Game.mkGame b (BagRandomizer.create 54321) PLAYING s (Some p) None true
              0%float 0%float 0%float None false [].

Definition zeroStats : GameStats := mkStats 0 0 0 0 false.

(** A T piece pointing right, against the left wall of an empty board. *)
Definition wallPiece : Piece := mkPiece tT (mkPosition (-1) 5) RIGHT false 0%float.
Definition wallGame : Game.Game := playing Board.createEmptyGrid zeroStats wallPiece.

(** An O piece resting with its left half on a single block (row 7, column
    4), 790 ms after its last descent. *)
Definition ledgeBoard : Board.Grid :=
  repeat Board.emptyRow 7 ++ [repeat None 4 ++ [Some tZ] ++ repeat None 5]
  ++ repeat Board.emptyRow 14.

Definition ledgeStart : Game.Game :=
  Game.set_dropTimer 790%float
    (playing ledgeBoard zeroStats (mkPiece tO (mkPosition 3 5) SPAWN false 0%float)).

(** One frame in which gravity fails and sets the flag, two steps to the
    right off the block, and thirty more frames of 16 ms; the loops of
    each frame have 8 turns to spare. *)
Definition offLedge : Game.Game :=
  fold_left (fun g c => Game.call c g)
    ([Game.CallUpdate 8 16%float;
      Game.CallHandleInput Game.MOVE_RIGHT true; Game.CallHandleInput Game.MOVE_RIGHT false;
      Game.CallHandleInput Game.MOVE_RIGHT true; Game.CallHandleInput Game.MOVE_RIGHT false]
     ++ repeat (Game.CallUpdate 8 16%float) 30)
    ledgeStart.

Definition offLedgePiece : Piece := mkPiece tO (mkPosition 5 5) SPAWN true 0%float.

(** A game that was started and saw one hard drop. *)
Definition firstDrop : Game.Game :=
  Game.call (Game.CallHandleInput Game.HARD_DROP true)
            (Game.call (Game.CallStart 54321) (Game.create 54321)).

(** Row 21 filled in columns 4 to 9. *)
Definition sixCells : Board.Grid :=
  repeat Board.emptyRow 21 ++ [repeat None 4 ++ repeat (Some tL) 6].

(** 998 lines at level 29, and a flat I piece resting in the gap of the
    bottom row. *)
Definition lastLinePiece : Piece := mkPiece tI (mkPosition 0 20) SPAWN true 0%float.
Definition lastLine : Game.Game :=
  playing sixCells (mkStats 123456 29 998 0 false) lastLinePiece.

(** Rows 14 to 21 filled except for column 0. *)
Definition eightRows : Board.Grid :=
  repeat Board.emptyRow 14 ++ repeat (None :: repeat (Some tJ) 9) 8.

(** 6 lines at level 0, no combo, no back-to-back; an upright I piece rests
    in column 0 on rows 18 to 21, and the bag (seed 5) deals an I next. *)
Definition firstTetrisPiece : Piece := mkPiece tI (mkPosition (-1) 18) LEFT true 0%float.
Definition firstTetris : Game.Game :=
  Game.set_bag (BagRandomizer.create 5)
    (playing eightRows (mkStats 0 0 6 0 false) firstTetrisPiece).

(** The lock of that piece, and then the inputs that bring the next piece
    down the same column: one rotation, four steps left, eighteen soft
    drops. *)
Definition afterFirstTetris : Game.Game := Game.lockCurrentPiece firstTetris.

Definition secondTetris : Game.Game :=
  fold_left (fun g a => Game.handleInput a true g)
            ([Game.ROTATE_CCW] ++ repeat Game.MOVE_LEFT 4 ++ repeat Game.SOFT_DROP 18)
            afterFirstTetris.

(** A single block in the bottom-left corner. *)
Definition cornerBlock : Board.Grid :=
  repeat Board.emptyRow 21 ++ [Some tO :: repeat None 9].

(** Rows 19 and 21 full, as in the board test "should clear
    non-consecutive lines". *)
Definition rows19and21 : Board.Grid :=
  repeat Board.emptyRow 19
  ++ [repeat (Some tT) 10; Board.emptyRow; repeat (Some tL) 10].

(** Rows 20 and 21 full. *)
Definition rows20and21 : Board.Grid :=
  repeat Board.emptyRow 20 ++ [repeat (Some tI) 10; repeat (Some tO) 10].

(** Column 4 filled from row 1 down to the floor: no piece can spawn.  An O
    piece rests in the bottom-left corner. *)
Definition fullColumn : Board.Grid :=
  Board.emptyRow :: repeat (repeat None 4 ++ [Some tI] ++ repeat None 5) 21.

Definition toppedOutPiece : Piece := mkPiece tO (mkPosition (-1) 20) SPAWN true 0%float.
Definition toppedOut : Game.Game := playing fullColumn zeroStats toppedOutPiece.

End Examples.

(** * Properties *)

(** ** Collision test *)

Section IsValidPosition.

Variable g : Board.Grid.
Variable p : Position.

Lemma cellValid_false (row col v : Z) :
  Board.cellValid g p row col v = false <-> v <> 0 /\ Spec.rejects g p row col.
Proof.
  unfold Board.cellValid, Spec.rejects, Spec.columnOutside, Spec.belowBottom,
    Spec.hitsOccupied.
  destruct (Z.eqb_spec v 0) as [-> | Hv].
  - split; [discriminate | intros [H _]; contradiction].
  - destruct (Board.occupied g (py p + row) (px p + col)) eqn:Hocc;
    destruct (Z.ltb_spec (px p + col) 0);
    destruct (Z.geb_spec (px p + col) BOARD_WIDTH);
    destruct (Z.geb_spec (py p + row) 0);
    destruct (Z.ltb_spec (py p + row) TOTAL_HEIGHT);
    destruct (Z.geb_spec (py p + row) TOTAL_HEIGHT); simpl;
    (split;
     [ intros Heq; try discriminate Heq; (split; [exact Hv | intuition lia])
     | intros [_ Hrej]; try reflexivity; exfalso; intuition (try lia; try congruence) ]).
Qed.

Lemma rowValid_false (row : Z) (cells : list Z) : forall col0,
  Board.rowValid g p row col0 cells = false <->
  exists j v, nth_error cells j = Some v /\
              Board.cellValid g p row (col0 + Z.of_nat j) v = false.
Proof.
  induction cells as [| v rest IH]; intros col0; simpl.
  - split; [discriminate | intros (j & v & H & _); destruct j; discriminate].
  - destruct (Board.cellValid g p row col0 v) eqn:Hc.
    + rewrite IH. split.
      * intros (j & w & Hj & Hw). exists (S j), w. split; auto.
        replace (col0 + Z.of_nat (S j)) with (col0 + 1 + Z.of_nat j) by lia. exact Hw.
      * intros (j & w & Hj & Hw). destruct j as [| j].
        -- simpl in Hj. injection Hj as <-.
           replace (col0 + Z.of_nat 0) with col0 in Hw by lia. congruence.
        -- exists j, w. split; auto.
           replace (col0 + 1 + Z.of_nat j) with (col0 + Z.of_nat (S j)) by lia. exact Hw.
    + split; auto. intros _. exists 0%nat, v. split; auto.
      replace (col0 + Z.of_nat 0) with col0 by lia. exact Hc.
Qed.

Lemma rowsValid_false (shape : list (list Z)) : forall row0,
  Board.rowsValid g p row0 shape = false <->
  exists i cells, nth_error shape i = Some cells /\
                  Board.rowValid g p (row0 + Z.of_nat i) 0 cells = false.
Proof.
  induction shape as [| cells rest IH]; intros row0; simpl.
  - split; [discriminate | intros (i & c & H & _); destruct i; discriminate].
  - destruct (Board.rowValid g p row0 0 cells) eqn:Hr.
    + rewrite IH. split.
      * intros (i & c & Hi & Hc). exists (S i), c. split; auto.
        replace (row0 + Z.of_nat (S i)) with (row0 + 1 + Z.of_nat i) by lia. exact Hc.
      * intros (i & c & Hi & Hc). destruct i as [| i].
        -- simpl in Hi. injection Hi as <-.
           replace (row0 + Z.of_nat 0) with row0 in Hc by lia. congruence.
        -- exists i, c. split; auto.
           replace (row0 + 1 + Z.of_nat i) with (row0 + Z.of_nat (S i)) by lia. exact Hc.
    + split; auto. intros _. exists 0%nat, cells. split; auto.
      replace (row0 + Z.of_nat 0) with row0 by lia. exact Hr.
Qed.

Lemma rowsValid_false_filled (shape : PieceData.Shape) :
  Board.rowsValid g p 0 shape = false <->
  exists row col, Spec.filledAt shape row col /\ Spec.rejects g p row col.
Proof.
  rewrite rowsValid_false. split.
  - intros (i & cells & Hi & Hrow).
    apply rowValid_false in Hrow. destruct Hrow as (j & v & Hj & Hc).
    apply cellValid_false in Hc. destruct Hc as [Hv Hrej].
    exists (Z.of_nat i), (Z.of_nat j). split.
    + unfold Spec.filledAt. repeat split; try lia.
      exists cells, v. rewrite !Nat2Z.id. auto.
    + exact Hrej.
  - intros (row & col & (Hr & Hc & cells & v & Hcells & Hv & Hne) & Hrej).
    exists (Z.to_nat row), cells. split; auto.
    apply rowValid_false. exists (Z.to_nat col), v. split; auto.
    apply cellValid_false. rewrite !Z2Nat.id by lia. auto.
Qed.

End IsValidPosition.

(** C7.  [isValidPosition] answers [false] exactly when some filled cell of
    the shape falls in a column outside [0, BOARD_WIDTH), or in a row at or
    below the bottom bound, or on an occupied cell of the grid; a filled cell
    in a row above the top, in a column of the board, is accepted. *)
Theorem isValidPosition_false_iff :
  forall (g : Board.Grid) (t : TetrominoType) (p : Position) (r : RotationState),
    (Board.isValidPosition g t p r = false <->
     exists row col,
       Spec.filledAt (PieceData.getShape t r) row col /\
       (Spec.columnOutside (px p + col) \/
        Spec.belowBottom (py p + row) \/
        Spec.hitsOccupied g (px p + col) (py p + row))) /\
    (forall row col v,
       py p + row < 0 -> ~ Spec.columnOutside (px p + col) ->
       Board.cellValid g p row col v = true).
Proof.
  intros g t p r. split.
  - unfold Board.isValidPosition. apply rowsValid_false_filled.
  - intros row col v Hy Hx.
    destruct (Board.cellValid g p row col v) eqn:Hc; [reflexivity |].
    apply cellValid_false in Hc. destruct Hc as [_ [H | [H | (_ & H & _)]]].
    + contradiction.
    + unfold Spec.belowBottom, TOTAL_HEIGHT, BOARD_HEIGHT, HIDDEN_ROWS in H. lia.
    + lia.
Qed.

(** ** Rotation and wall kicks *)

Section RotatePiece.

Import Game.

Variable g : Game.
Variable p : Piece.
Variable newRotation : RotationState.

Local Abbreviation kicked := (Spec.kicked p).
Local Abbreviation kickValid := (Spec.kickValid g p newRotation).

Lemma tryKicks_first (pre post : list Position) (k : Position) :
  Forall (fun k' => kickValid k' = false) pre ->
  kickValid k = true ->
  tryKicks g p newRotation (pre ++ k :: post)
  = (true, applyRotation p (kicked k) newRotation g).
Proof.
  unfold Spec.kickValid, Spec.kicked. induction 1 as [| k' pre' Hk' _ IH]; intros Hk; simpl.
  - now rewrite Hk.
  - rewrite Hk'. auto.
Qed.

Lemma tryKicks_none (kicks : list Position) :
  Forall (fun k' => kickValid k' = false) kicks ->
  tryKicks g p newRotation kicks = (false, g).
Proof.
  unfold Spec.kickValid, Spec.kicked. induction 1 as [| k' rest Hk' _ IH]; simpl; auto.
  now rewrite Hk'.
Qed.

Lemma applyRotation_piece (pos : Position) :
  currentPiece (applyRotation p pos newRotation g)
  = Some (mkPiece (type p) pos newRotation (locked p) (pieceLockTimer p)).
Proof.
  unfold applyRotation, set_rotation, set_position.
  destruct (locked p); reflexivity.
Qed.

End RotatePiece.

(** C8.  With an active piece [p], a rotation first tries the target rotation
    in place.  When that is blocked, the offsets of the kick table for the
    pair (old rotation, target) are tried in list order and the first one
    that gives a valid position is applied, whatever offsets follow it in the
    list; when none does, the controller is left as it was. *)
Theorem rotatePiece_first_match :
  forall (g : Game.Game) (p : Piece) (clockwise : bool),
    Game.currentPiece g = Some p ->
    let target := Spec.targetRotation clockwise (rotation p) in
    let kicks := PieceData.getWallKickOffsets (type p) (rotation p) target in
    (Board.isValidPosition (Game.board g) (type p) (position p) target = true ->
       fst (Game.rotatePiece clockwise g) = true /\
       Game.currentPiece (snd (Game.rotatePiece clockwise g))
       = Some (mkPiece (type p) (position p) target (locked p) (pieceLockTimer p))) /\
    (Board.isValidPosition (Game.board g) (type p) (position p) target = false ->
       (forall pre k post,
          kicks = pre ++ k :: post ->
          Forall (fun k' => Spec.kickValid g p target k' = false) pre ->
          Spec.kickValid g p target k = true ->
          fst (Game.rotatePiece clockwise g) = true /\
          Game.currentPiece (snd (Game.rotatePiece clockwise g))
          = Some (mkPiece (type p) (Spec.kicked p k) target (locked p) (pieceLockTimer p)) /\
          Game.tryKicks g p target (pre ++ k :: post)
          = Game.tryKicks g p target (pre ++ [k])) /\
       (Forall (fun k' => Spec.kickValid g p target k' = false) kicks ->
          Game.rotatePiece clockwise g = (false, g))).
Proof.
  intros g p clockwise Hp target kicks. split.
  - intros Hbase. unfold Game.rotatePiece. rewrite Hp.
    change (if clockwise then PieceData.getNextRotationCW (rotation p)
            else PieceData.getNextRotationCCW (rotation p)) with target.
    rewrite Hbase. simpl. split; [reflexivity | apply applyRotation_piece].
  - intros Hbase. split.
    + intros pre k post Hsplit Hpre Hk.
      assert (Hrot : Game.rotatePiece clockwise g
                     = (true, Game.applyRotation p (Spec.kicked p k) target g)).
      { unfold Game.rotatePiece. rewrite Hp.
        change (if clockwise then PieceData.getNextRotationCW (rotation p)
                else PieceData.getNextRotationCCW (rotation p)) with target.
        rewrite Hbase. fold kicks. rewrite Hsplit.
        now apply tryKicks_first. }
      rewrite Hrot. simpl. split; [reflexivity |]. split.
      * apply applyRotation_piece.
      * rewrite (tryKicks_first g p target pre post k Hpre Hk).
        now rewrite (tryKicks_first g p target pre [] k Hpre Hk).
    + intros Hnone. unfold Game.rotatePiece. rewrite Hp.
      change (if clockwise then PieceData.getNextRotationCW (rotation p)
              else PieceData.getNextRotationCCW (rotation p)) with target.
      rewrite Hbase. fold kicks. now apply tryKicks_none.
Qed.

(** A T piece pointing right at the left wall: the rotation in place would
    leave the board, the first kick (1, 0) is taken. *)
Lemma rotatePiece_first_match_witness :
  Game.currentPiece (snd (Game.rotatePiece true Examples.wallGame))
  = Some (mkPiece tT (mkPosition 0 5) DOUBLE false 0%float).
Proof.
  destruct (rotatePiece_first_match Examples.wallGame Examples.wallPiece true eq_refl)
    as [_ [Hkick _]]; [reflexivity |].
  destruct (Hkick [] (PieceData.kick 1 0)
              [PieceData.kick 1 (-1); PieceData.kick 0 2; PieceData.kick 1 2]
              eq_refl (Forall_nil _) eq_refl) as [_ [Hpiece _]].
  exact Hpiece.
Defined.

(** ** The soft-locked flag *)

Section SoftLock.

Import Game.

Local Abbreviation stillLocked := Spec.stillLocked.

Hint Unfold Spec.stillLocked : core.

Lemma movePiece_result (dx dy : Z) (g : Game) (p : Piece) :
  currentPiece g = Some p ->
  movePiece dx dy g = (false, g) \/
  exists g', movePiece dx dy g = (true, g') /\
    currentPiece g' = Some (set_position
      (mkPosition (px (position p) + dx) (py (position p) + dy)) p) /\
    state g' = state g /\ stats g' = stats g /\ board g' = board g /\
    dasDirection g' = dasDirection g /\ dropTimer g' = dropTimer g /\
    events g' = events g /\
    lockTimer g' = (if negb (dx =? 0) && locked p then 0%float else lockTimer g).
Proof.
  intros Hp. unfold movePiece. rewrite Hp.
  destruct (Board.isValidPosition _ _ _ _); [right | now left].
  eexists. split; [reflexivity |].
  destruct (negb (dx =? 0) && locked p); simpl; repeat split; reflexivity.
Qed.

Lemma movePiece_keeps_flag (dx dy : Z) (g : Game) (p : Piece) :
  currentPiece g = Some p -> locked p = true ->
  exists q, currentPiece (snd (movePiece dx dy g)) = Some q /\ stillLocked p q.
Proof.
  intros Hp Hl. destruct (movePiece_result dx dy g p Hp) as [-> | (g' & -> & Hq & _)].
  - exists p. auto.
  - eexists. split; [exact Hq | auto].
Qed.

Lemma movePiece_down_lockTimer (dy : Z) (g : Game) :
  lockTimer (snd (movePiece 0 dy g)) = lockTimer g.
Proof.
  destruct (currentPiece g) as [p |] eqn:Hp.
  - destruct (movePiece_result 0 dy g p Hp) as [-> | (g' & -> & _ & _ & _ & _ & _ & _ & _ & Ht)].
    + reflexivity.
    + exact Ht.
  - unfold movePiece. now rewrite Hp.
Qed.

Lemma tryKicks_keeps_flag (g : Game) (p : Piece) (r : RotationState)
    (kicks : list Position) :
  currentPiece g = Some p -> locked p = true ->
  exists q, currentPiece (snd (tryKicks g p r kicks)) = Some q /\ stillLocked p q.
Proof.
  intros Hp Hl. induction kicks as [| k rest IH]; simpl.
  - exists p. auto.
  - destruct (Board.isValidPosition _ _ _ _); [| exact IH].
    simpl. rewrite applyRotation_piece. eexists. split; [reflexivity | auto].
Qed.

Lemma rotatePiece_keeps_flag (clockwise : bool) (g : Game) (p : Piece) :
  currentPiece g = Some p -> locked p = true ->
  exists q, currentPiece (snd (rotatePiece clockwise g)) = Some q /\ stillLocked p q.
Proof.
  intros Hp Hl. unfold rotatePiece. rewrite Hp.
  destruct (Board.isValidPosition _ _ _ _).
  - simpl. rewrite applyRotation_piece. eexists. split; [reflexivity | auto].
  - now apply tryKicks_keeps_flag.
Qed.

Lemma handleInput_keeps_flag (a : InputAction) (pressed : bool) (g : Game) (p : Piece) :
  currentPiece g = Some p -> locked p = true ->
  a <> HARD_DROP -> a <> HOLD ->
  exists q, currentPiece (handleInput a pressed g) = Some q /\ stillLocked p q.
Proof.
  intros Hp Hl Hhard Hhold. unfold handleInput.
  destruct (negb (GameState_eqb (state g) PLAYING)).
  { destruct a; try (exists p; auto; fail).
    destruct (pressed && GameState_eqb (state g) PAUSED); exists p; auto. }
  destruct a, pressed; try congruence; rewrite ?Hp; try (exists p; auto; fail).
  - unfold pressMove. simpl. now apply movePiece_keeps_flag.
  - unfold pressMove. destruct (dasDirection g) as [[|] |]; exists p; auto.
  - unfold pressMove. simpl. now apply movePiece_keeps_flag.
  - unfold pressMove. destruct (dasDirection g) as [[|] |]; exists p; auto.
  - destruct (movePiece_keeps_flag 0 1 g p Hp Hl) as (q & Hq & Hs).
    destruct (movePiece 0 1 g) as [moved g1]. simpl in Hq.
    destruct moved; exists q; auto.
  - now apply rotatePiece_keeps_flag.
  - now apply rotatePiece_keeps_flag.
Qed.

Lemma carried_refl (d : option DasDirection) (g : Game) (p : Piece) :
  currentPiece g = Some p -> locked p = true -> Spec.carried d g p g.
Proof.
  intros Hp Hl. exists p. rewrite Z.eqb_refl.
  repeat split; auto; try lia. destruct d as [[|] |]; simpl; lia.
Qed.

Lemma carried_timers (d : option DasDirection) (g g0 g' : Game) (p : Piece) :
  Spec.carried d g0 p g' ->
  lockTimer g0 = lockTimer g -> state g0 = state g -> stats g0 = stats g ->
  board g0 = board g -> events g0 = events g ->
  Spec.carried d g p g'.
Proof.
  intros (q & Hq & Hs & Hr & Hx & Hy & Ht & Hst & Hstats & Hb & Hev) E1 E2 E3 E4 E5.
  destruct Hs. exists q. rewrite <- E1. repeat split; first [assumption | congruence].
Qed.

Lemma gravityStep_flag (di : float) (g : Game) (p : Piece) :
  currentPiece g = Some p -> locked p = true ->
  Spec.carried None g p (gravityStep di g).
Proof.
  intros Hp Hl. unfold Spec.carried, gravityStep.
  set (g1 := set_dropTimer (dropTimer g - di)%float g).
  assert (Hp1 : currentPiece g1 = Some p) by exact Hp.
  destruct (movePiece_result 0 1 g1 p Hp1)
    as [-> | (g' & -> & Hq & Hst & Hstats & Hb & _ & _ & Hev & Ht)].
  - rewrite Hp1, Hl. simpl. exists p. rewrite Z.eqb_refl.
    repeat split; auto; lia.
  - eexists. split; [exact Hq |]. simpl in *.
    replace (px (position p) + 0 =? px (position p)) with true
      by (symmetry; apply Z.eqb_eq; lia).
    repeat split; auto; try lia.
Qed.

Lemma carried_down (d : option DasDirection) (g g1 g2 : Game) (p q : Piece) :
  Spec.carried d g p g1 -> currentPiece g1 = Some q ->
  Spec.carried None g1 q g2 -> Spec.carried d g p g2.
Proof.
  intros (q0 & Hq0 & [Hty Hlq] & Hr & Hx & Hy & Ht & Hst & Hstats & Hb & Hev) Hq
         (q' & Hq' & [Hty' Hlq'] & Hr' & Hx' & Hy' & Ht' & Hst' & Hstats' & Hb' & Hev').
  assert (q0 = q) by congruence. subst q0. simpl in Hx'.
  exists q'. rewrite Hx'. rewrite Hx', Z.eqb_refl in Ht'.
  repeat split; try congruence; try lia.
Qed.

Lemma gravityLoop_flag (di : float) (fuel : nat) : forall (g : Game) (p : Piece),
  currentPiece g = Some p -> locked p = true ->
  Spec.carried None g p (gravityLoop fuel di g).
Proof.
  induction fuel as [| fuel IH]; intros g p Hp Hl; cbn [gravityLoop].
  - now apply carried_refl.
  - destruct (geb (dropTimer g) di); [| now apply carried_refl].
    pose proof (gravityStep_flag di g p Hp Hl) as H1.
    assert (Hex : exists q, currentPiece (gravityStep di g) = Some q /\ locked q = true).
    { destruct H1 as (q & Hq & [_ Hlq] & _). now exists q. }
    destruct Hex as (q & Hq & Hlq).
    apply (carried_down None g (gravityStep di g) _ p q);
      [exact H1 | exact Hq | now apply IH].
Qed.

Lemma dasStep_flag (g : Game) (p : Piece) (d : DasDirection) :
  currentPiece g = Some p -> locked p = true -> dasDirection g = Some d ->
  dasDirection (dasStep g) = Some d /\
  (dasStep g = g \/
   exists q, currentPiece (dasStep g) = Some q /\ Spec.stillLocked p q /\
     rotation q = rotation p /\ py (position q) = py (position p) /\
     px (position q) = px (position p) + (match d with left => -1 | right => 1 end) /\
     lockTimer (dasStep g) = 0%float /\
     state (dasStep g) = state g /\ stats (dasStep g) = stats g /\
     board (dasStep g) = board g /\ events (dasStep g) = events g).
Proof.
  intros Hp Hl Hd. unfold dasStep. rewrite Hd.
  destruct d.
  - destruct (movePiece_result (-1) 0 g p Hp)
      as [-> | (g' & -> & Hq & Hst & Hstats & Hb & Hdd & _ & Hev & Ht)]; cbn [snd].
    + split; [exact Hd | now left].
    + split; [congruence | right]. rewrite Hl in Ht. cbn in Ht.
      eexists. split; [exact Hq |]. cbn. repeat split; auto; lia.
  - destruct (movePiece_result 1 0 g p Hp)
      as [-> | (g' & -> & Hq & Hst & Hstats & Hb & Hdd & _ & Hev & Ht)]; cbn [snd].
    + split; [exact Hd | now left].
    + split; [congruence | right]. rewrite Hl in Ht. cbn in Ht.
      eexists. split; [exact Hq |]. cbn. repeat split; auto; lia.
Qed.

Lemma dasLoop_flag (fuel : nat) : forall (i n : float) (g : Game) (p : Piece) d,
  currentPiece g = Some p -> locked p = true -> dasDirection g = Some d ->
  Spec.carried (Some d) g p (dasLoop fuel i n g).
Proof.
  induction fuel as [| fuel IH]; intros i n g p d Hp Hl Hd; cbn [dasLoop].
  - now apply carried_refl.
  - destruct (PrimFloat.ltb i n); [| now apply carried_refl].
    destruct (dasStep_flag g p d Hp Hl Hd) as [Hd1 [Hsame | Hmoved]].
    + rewrite Hsame. now apply IH.
    + destruct Hmoved as (q & Hq & [Hty Hlq] & Hr & Hy & Hx & Ht & Hst & Hstats & Hb & Hev).
      destruct (IH (i + 1)%float n (dasStep g) q d Hq Hlq Hd1)
        as (q' & Hq' & [Hty' Hlq'] & Hr' & Hx' & Hy' & Ht' & Hst' & Hstats' & Hb' & Hev').
      exists q'.
      assert (Hne : (px (position q') =? px (position p)) = false).
      { apply Z.eqb_neq. destruct d; simpl in Hx'; lia. }
      rewrite Hne. rewrite Ht in Ht'.
      assert (Ht0 : lockTimer (dasLoop fuel (i + 1)%float n (dasStep g)) = 0%float)
        by (rewrite Ht'; now destruct (px (position q') =? px (position q))).
      repeat split; try congruence; try lia.
      destruct d; simpl in *; lia.
Qed.

Lemma handleDas_flag (fuel : nat) (deltaTime : float) (g : Game) (p : Piece) :
  currentPiece g = Some p -> locked p = true ->
  Spec.carried (dasDirection g) g p (handleDas fuel deltaTime g).
Proof.
  intros Hp Hl. unfold handleDas.
  destruct (dasDirection g) as [d |] eqn:Hd; [| now apply carried_refl].
  set (g1 := set_dasTimer (dasTimer g + deltaTime)%float g).
  assert (H1 : Spec.carried (Some d) g p g1).
  { apply (carried_timers _ g g1 g1); try reflexivity. now apply carried_refl. }
  destruct (geb (dasTimer g1) DAS_DELAY); [| exact H1].
  set (n := Math_floor ((dasTimer g1 - DAS_DELAY) / DAS_PERIOD)%float).
  pose proof (dasLoop_flag fuel 0%float n g1 p d Hp Hl Hd) as H2.
  destruct H2 as (q & Hq & Hrest).
  exists q. split; [exact Hq | exact Hrest].
Qed.

(** What [update] does to a soft-locked piece before the lock delay is
    looked at. *)
Lemma update_flag (fuel : nat) (deltaTime : float) (g : Game) (p : Piece) :
  state g = PLAYING -> currentPiece g = Some p -> locked p = true ->
  exists g3, Spec.afterGravity g p g3 /\
             update fuel deltaTime g = handleLockDelay deltaTime g3.
Proof.
  intros Hst Hp Hl.
  set (g1 := handleDas fuel deltaTime g).
  set (g2 := set_dropTimer (dropTimer g1 + deltaTime)%float g1).
  exists (gravityLoop fuel (getDropInterval g2) g2). split.
  - pose proof (handleDas_flag fuel deltaTime g p Hp Hl) as H1. fold g1 in H1.
    assert (Hex : exists q, currentPiece g1 = Some q /\ locked q = true).
    { destruct H1 as (q & Hq & [_ Hlq] & _). now exists q. }
    destruct Hex as (q & Hq & Hlq).
    assert (Hq2 : currentPiece g2 = Some q) by exact Hq.
    unfold Spec.afterGravity.
    apply (carried_down _ g g2 _ p q).
    + destruct H1 as (q1 & H1). exists q1. exact H1.
    + exact Hq2.
    + now apply gravityLoop_flag.
  - unfold update. rewrite Hst, Hp. reflexivity.
Qed.

End SoftLock.

(** The clock of the examples. *)
Lemma validClock_54321 : Game.validClock 54321.
Proof. split; [discriminate | vm_compute; reflexivity]. Qed.

Lemma firstDrop_reachable : Game.reachable Examples.firstDrop.
Proof.
  apply Game.reachable_call; [| exact I].
  apply Game.reachable_call; [| exact validClock_54321].
  apply Game.reachable_create. exact validClock_54321.
Qed.

(** ** Level and line count *)

Section LevelProgress.

Import Game.

Local Abbreviation progress := Spec.progress.

Lemma progress_refl (s : GameStats) : progress s s.
Proof. unfold Spec.progress. split; [lia | split; [lia | auto]]. Qed.

Lemma progress_trans (s1 s2 s3 : GameStats) :
  progress s1 s2 -> progress s2 s3 -> progress s1 s3.
Proof.
  unfold Spec.progress. intros (? & ? & ?) (? & ? & ?).
  split; [lia | split; [lia | auto]].
Qed.

Lemma progress_same (s s' : GameStats) :
  lines s' = lines s -> level s' = level s -> progress s s'.
Proof.
  unfold Spec.progress, Spec.levelRule. intros -> ->.
  split; [lia | split; [lia | auto]].
Qed.

Lemma handleLineClears_lines (n : Z) (g : Game) :
  lines (stats (handleLineClears n g)) = lines (stats g) + n.
Proof.
  unfold handleLineClears.
  destruct (combo (stats g) + 1 >? 1), (n =? 1), (n =? 2), (n =? 3), (n =? 4),
    (backToBack (stats g)),
    (Z.min ((lines (stats g) + n) / 10) 29 >? level (stats g)); reflexivity.
Qed.

Lemma handleLineClears_level (n : Z) (g : Game) :
  level (stats (handleLineClears n g))
  = Z.max (level (stats g)) (Spec.levelOf (lines (stats g) + n)).
Proof.
  unfold handleLineClears, Spec.levelOf.
  destruct (Z.gtb_spec (Z.min ((lines (stats g) + n) / 10) 29) (level (stats g)));
  destruct (combo (stats g) + 1 >? 1), (n =? 1), (n =? 2), (n =? 3), (n =? 4),
    (backToBack (stats g)); simpl; lia.
Qed.

Lemma levelOf_mono (a b : Z) : a <= b -> Spec.levelOf a <= Spec.levelOf b.
Proof.
  unfold Spec.levelOf. intros H.
  assert (a / 10 <= b / 10) by (apply Z.div_le_mono; lia). lia.
Qed.

Lemma handleLineClears_progress (n : Z) (g : Game) :
  0 <= n -> progress (stats g) (stats (handleLineClears n g)).
Proof.
  intros Hn. unfold Spec.progress, Spec.levelRule.
  rewrite handleLineClears_lines, handleLineClears_level.
  pose proof (levelOf_mono (lines (stats g)) (lines (stats g) + n)).
  split; [lia | split; [lia |]].
  intros [Hl H0]. rewrite Hl. split; lia.
Qed.

Lemma movePiece_stats (dx dy : Z) (g : Game) :
  stats (snd (movePiece dx dy g)) = stats g.
Proof.
  unfold movePiece. destruct (currentPiece g) as [p |]; [| reflexivity].
  destruct (Board.isValidPosition _ _ _ _); [| reflexivity].
  destruct (negb (dx =? 0) && locked p); reflexivity.
Qed.

Lemma applyRotation_stats (p : Piece) (pos : Position) (r : RotationState) (g : Game) :
  stats (applyRotation p pos r g) = stats g.
Proof. unfold applyRotation. destruct (locked p); reflexivity. Qed.

Lemma tryKicks_stats (g : Game) (p : Piece) (r : RotationState) (kicks : list Position) :
  stats (snd (tryKicks g p r kicks)) = stats g.
Proof.
  induction kicks as [| k rest IH]; simpl; [reflexivity |].
  destruct (Board.isValidPosition _ _ _ _); [apply applyRotation_stats | exact IH].
Qed.

Lemma rotatePiece_stats (clockwise : bool) (g : Game) :
  stats (snd (rotatePiece clockwise g)) = stats g.
Proof.
  unfold rotatePiece. destruct (currentPiece g) as [p |]; [| reflexivity].
  destruct (Board.isValidPosition _ _ _ _);
    [apply applyRotation_stats | apply tryKicks_stats].
Qed.

Lemma spawnNextPiece_stats (g : Game) : stats (spawnNextPiece g) = stats g.
Proof.
  unfold spawnNextPiece. destruct (BagRandomizer.next (bag g)) as [[t |] bag'];
    [| reflexivity].
  destruct (negb (Board.isValidPosition _ _ _ _)); reflexivity.
Qed.

Lemma dasStep_stats (g : Game) : stats (dasStep g) = stats g.
Proof. unfold dasStep. destruct (dasDirection g) as [[|] |]; apply movePiece_stats. Qed.

Lemma dasLoop_stats (fuel : nat) : forall i n g, stats (dasLoop fuel i n g) = stats g.
Proof.
  induction fuel as [| fuel IH]; intros i n g; cbn [dasLoop]; [reflexivity |].
  destruct (PrimFloat.ltb i n); [| reflexivity].
  rewrite IH. apply dasStep_stats.
Qed.

Lemma handleDas_stats (fuel : nat) (deltaTime : float) (g : Game) :
  stats (handleDas fuel deltaTime g) = stats g.
Proof.
  unfold handleDas. destruct (dasDirection g); [| reflexivity].
  destruct (geb _ _); [| reflexivity]. simpl. now rewrite dasLoop_stats.
Qed.

Lemma gravityStep_stats (di : float) (g : Game) : stats (gravityStep di g) = stats g.
Proof.
  unfold gravityStep.
  pose proof (movePiece_stats 0 1 (set_dropTimer (dropTimer g - di)%float g)) as H.
  destruct (movePiece 0 1 _) as [moved g2]. simpl in H.
  destruct moved; [exact H |].
  destruct (currentPiece g2) as [p |]; [| exact H].
  destruct (negb (locked p)); exact H.
Qed.

Lemma gravityLoop_stats (di : float) (fuel : nat) : forall g,
  stats (gravityLoop fuel di g) = stats g.
Proof.
  induction fuel as [| fuel IH]; intros g; simpl; [reflexivity |].
  destruct (geb _ _); [| reflexivity]. rewrite IH. apply gravityStep_stats.
Qed.

Lemma hardDropLoop_stats (fuel : nat) : forall d g,
  stats (snd (hardDropLoop fuel d g)) = stats g.
Proof.
  induction fuel as [| fuel IH]; intros d g; simpl; [reflexivity |].
  pose proof (movePiece_stats 0 1 g) as H.
  destruct (movePiece 0 1 g) as [moved g1]. simpl in H.
  destruct moved; [rewrite IH |]; exact H.
Qed.

Lemma lockAndAnnounce_stats (p : Piece) (g : Game) :
  stats (lockAndAnnounce p g) = stats g.
Proof.
  unfold lockAndAnnounce.
  destruct (TetrominoType_eqb (type p) tT); [| reflexivity].
  destruct (PieceData.isTSpin _ _ _ _); reflexivity.
Qed.

Lemma clearAndScore_progress (g : Game) :
  progress (stats g) (stats (clearAndScore g)).
Proof.
  unfold clearAndScore. destruct (Board.clearLines (board g)) as [grid' cl].
  destruct (Z.of_nat (length cl) >? 0).
  - apply (handleLineClears_progress (Z.of_nat (length cl)) (set_board grid' g)). lia.
  - apply progress_same; reflexivity.
Qed.

Lemma lockCurrentPiece_stats (g : Game) (p : Piece) :
  currentPiece g = Some p ->
  stats (lockCurrentPiece g) = stats (clearAndScore (lockAndAnnounce p g)).
Proof.
  intros Hp. unfold lockCurrentPiece. rewrite Hp.
  cbv beta zeta. unfold Board.isGameOver.
  destruct (lines _ >=? 999); [reflexivity |].
  apply (spawnNextPiece_stats (clearAndScore (lockAndAnnounce p g))).
Qed.

Lemma lockCurrentPiece_progress (g : Game) :
  progress (stats g) (stats (lockCurrentPiece g)).
Proof.
  destruct (currentPiece g) as [p |] eqn:Hp.
  - rewrite (lockCurrentPiece_stats g p Hp).
    rewrite <- (lockAndAnnounce_stats p g) at 1. apply clearAndScore_progress.
  - unfold lockCurrentPiece. rewrite Hp. apply progress_refl.
Qed.

Lemma add_score_progress (d : Z) (g : Game) : progress (stats g) (stats (add_score d g)).
Proof. apply progress_same; reflexivity. Qed.

Lemma performHardDrop_progress (g : Game) :
  progress (stats g) (stats (performHardDrop g)).
Proof.
  unfold performHardDrop. destruct (currentPiece g); [| apply progress_refl].
  pose proof (hardDropLoop_stats (hardDropFuel g) 0 g) as H.
  destruct (hardDropLoop _ 0 g) as [d g1]. simpl in H.
  eapply progress_trans; [| apply lockCurrentPiece_progress].
  apply progress_same; simpl; now rewrite H.
Qed.

Lemma performHold_stats (g : Game) : stats (performHold g) = stats g.
Proof.
  unfold performHold. destruct (currentPiece g); [| reflexivity].
  destruct (negb (canHold g)); [reflexivity |].
  destruct (holdPiece g); simpl; [reflexivity | apply spawnNextPiece_stats].
Qed.

Lemma handleLockDelay_progress (deltaTime : float) (g : Game) :
  progress (stats g) (stats (handleLockDelay deltaTime g)).
Proof.
  unfold handleLockDelay. destruct (currentPiece g) as [p |]; [| apply progress_refl].
  destruct (locked p); [| apply progress_refl].
  destruct (geb _ _); [| apply progress_refl].
  apply (lockCurrentPiece_progress (set_lockTimer (lockTimer g + deltaTime)%float g)).
Qed.

Lemma update_progress (fuel : nat) (deltaTime : float) (g : Game) :
  progress (stats g) (stats (update fuel deltaTime g)).
Proof.
  unfold update. destruct (negb _); [apply progress_refl |].
  destruct (currentPiece g); [| apply progress_refl].
  eapply progress_trans; [| apply handleLockDelay_progress].
  rewrite gravityLoop_stats. simpl. rewrite handleDas_stats. apply progress_refl.
Qed.

Lemma pressMove_stats (dx : Z) (d : DasDirection) (pressed : bool) (g : Game) :
  stats (pressMove dx d pressed g) = stats g.
Proof.
  unfold pressMove. destruct pressed; [simpl; apply movePiece_stats |].
  destruct (dasDirection g) as [[|] |], d; reflexivity.
Qed.

Lemma handleInput_progress (a : InputAction) (pressed : bool) (g : Game) :
  progress (stats g) (stats (handleInput a pressed g)).
Proof.
  unfold handleInput. destruct (negb _).
  { destruct a; try apply progress_refl.
    destruct (pressed && _); apply progress_refl. }
  destruct a, pressed; try apply progress_refl;
    destruct (currentPiece g); try apply progress_refl;
    try (rewrite pressMove_stats; apply progress_refl);
    try (rewrite rotatePiece_stats; apply progress_refl).
  - pose proof (movePiece_stats 0 1 g) as H.
    destruct (movePiece 0 1 g) as [moved g1]. simpl in H.
    destruct moved; apply progress_same; simpl; now rewrite H.
  - apply performHardDrop_progress.
  - destruct (canHold g); simpl; [rewrite performHold_stats |]; apply progress_refl.
Qed.

Lemma call_progress (c : Call) (g : Game) :
  resets c = false -> progress (stats g) (stats (call c g)).
Proof.
  destruct c; cbn [call resets]; try discriminate; intros _.
  - apply update_progress.
  - apply handleInput_progress.
  - unfold getNextPieces. destruct (BagRandomizer.preview count (bag g)).
    apply progress_refl.
Qed.

Lemma levelRule_zero : Spec.levelRule (mkStats 0 0 0 0 false).
Proof. unfold Spec.levelRule, Spec.levelOf. simpl. split; [reflexivity | lia]. Qed.

Lemma reachable_levelRule (g : Game) : reachable g -> Spec.levelRule (stats g).
Proof.
  induction 1 as [now Hnow | g c Hg IH Hc].
  - apply levelRule_zero.
  - destruct (resets c) eqn:Hr.
    + destruct c; try discriminate; cbn [call].
      * unfold start. rewrite spawnNextPiece_stats. apply levelRule_zero.
      * apply levelRule_zero.
    + destruct (call_progress c g Hr) as (_ & _ & H). auto.
Qed.

End LevelProgress.

(** The level rule for one scoring call, from a level that is not ahead of
    the lines (as when a test sets 300 lines at level 0). *)
Lemma handleLineClears_levelRule (n : Z) (g : Game.Game) :
  0 <= n -> 0 <= lines (Game.stats g) ->
  level (Game.stats g) <= Spec.levelOf (lines (Game.stats g)) ->
  Spec.levelRule (Game.stats (Game.handleLineClears n g)).
Proof.
  intros Hn Hl Hlev. unfold Spec.levelRule.
  rewrite handleLineClears_lines, handleLineClears_level.
  pose proof (levelOf_mono (lines (Game.stats g)) (lines (Game.stats g) + n)).
  split; lia.
Qed.

(** C6.  In every controller a program can reach, the level is
    min(floor(lines / 10), 29), so it never exceeds 29; this also holds after
    one more scoring of [n] cleared lines, whatever the line count has grown
    to; and no call other than [start] and [reset] lowers the line count or
    the level. *)
Theorem level_is_min_lines_div_10_29 :
  forall g : Game.Game,
    Game.reachable g ->
    level (Game.stats g) = Z.min (lines (Game.stats g) / 10) 29 /\
    level (Game.stats g) <= 29 /\
    (forall n, 0 < n ->
       level (Game.stats (Game.handleLineClears n g))
       = Z.min (lines (Game.stats (Game.handleLineClears n g)) / 10) 29) /\
    (forall c, Game.resets c = false ->
       lines (Game.stats g) <= lines (Game.stats (Game.call c g)) /\
       level (Game.stats g) <= level (Game.stats (Game.call c g))).
Proof.
  intros g Hg. destruct (reachable_levelRule g Hg) as [Hlev Hlines].
  unfold Spec.levelOf in Hlev. split; [exact Hlev | split; [lia | split]].
  - intros n Hn.
    destruct (handleLineClears_levelRule n g) as [H _]; try lia.
    + unfold Spec.levelOf. lia.
    + exact H.
  - intros c Hc. destruct (call_progress c g Hc) as (H1 & H2 & _). split; assumption.
Qed.

(** The level rule after a game was started, one piece was dropped and ten
    lines are scored. *)
Lemma level_is_min_lines_div_10_29_witness :
  level (Game.stats (Game.handleLineClears 10 Examples.firstDrop))
  = Z.min (lines (Game.stats (Game.handleLineClears 10 Examples.firstDrop)) / 10) 29.
Proof.
  assert (Hreach : Game.reachable Examples.firstDrop) by exact firstDrop_reachable.
  destruct (level_is_min_lines_div_10_29 Examples.firstDrop Hreach) as (_ & _ & H & _).
  exact (H 10 eq_refl).
Defined.

(** ** Completion *)

Section Completion.

Import Game.

Local Abbreviation quietly := Spec.quietly.

Lemma quietly_refl (g : Game) : quietly g g.
Proof. exists []. split; [now rewrite app_nil_r | constructor]. Qed.

Lemma quietly_trans (g1 g2 g3 : Game) : quietly g1 g2 -> quietly g2 g3 -> quietly g1 g3.
Proof.
  intros (e1 & H1 & F1) (e2 & H2 & F2). exists (e1 ++ e2). split.
  - now rewrite H2, H1, app_assoc.
  - apply Forall_app. auto.
Qed.

Lemma quietly_emit (e : GameEvent) (g : Game) :
  Spec.terminalEvent e = false -> quietly g (emit e g).
Proof. intros He. exists [e]. split; [reflexivity | now constructor]. Qed.

Lemma quietly_same (g g' : Game) : events g' = events g -> quietly g g'.
Proof. intros H. exists []. split; [now rewrite app_nil_r | constructor]. Qed.

Lemma quietly_after (g g1 g2 : Game) :
  events g2 = events g1 -> quietly g g1 -> quietly g g2.
Proof. intros H (evs & H1 & F1). exists evs. split; [congruence | exact F1]. Qed.

Ltac quiet :=
  repeat match goal with
    | |- Spec.quietly _ (emit _ _) =>
        eapply quietly_trans; [| apply quietly_emit; reflexivity]
    | |- Spec.quietly _ (set_stats _ ?g1) =>
        apply (quietly_after _ g1); [reflexivity |]
    | |- Spec.quietly _ _ => apply quietly_same; reflexivity
    end.

Lemma handleLineClears_quietly (n : Z) (g : Game) : quietly g (handleLineClears n g).
Proof.
  unfold handleLineClears.
  set (c := combo (stats g) + 1 >? 1).
  set (up := Z.min ((lines (stats g) + n) / 10) 29 >? level (stats g)).
  destruct c, up, (n =? 1), (n =? 2), (n =? 3), (n =? 4), (backToBack (stats g));
    cbv beta iota zeta; quiet.
Qed.

Lemma lockAndAnnounce_quietly (p : Piece) (g : Game) : quietly g (lockAndAnnounce p g).
Proof.
  unfold lockAndAnnounce.
  destruct (TetrominoType_eqb (type p) tT); [destruct (PieceData.isTSpin _ _ _ _) |];
    quiet.
Qed.

Lemma clearAndScore_quietly (g : Game) : quietly g (clearAndScore g).
Proof.
  unfold clearAndScore. destruct (Board.clearLines (board g)) as [grid' cl].
  destruct (Z.of_nat (length cl) >? 0).
  - apply (quietly_trans g (handleLineClears (Z.of_nat (length cl)) (set_board grid' g))).
    + apply (handleLineClears_quietly _ (set_board grid' g)).
    + now apply quietly_emit.
  - apply quietly_same. reflexivity.
Qed.

Lemma handleLineClears_frame (n : Z) (g : Game) :
  currentPiece (handleLineClears n g) = currentPiece g /\
  bag (handleLineClears n g) = bag g /\
  board (handleLineClears n g) = board g /\
  state (handleLineClears n g) = state g.
Proof.
  unfold handleLineClears.
  set (c := combo (stats g) + 1 >? 1).
  set (up := Z.min ((lines (stats g) + n) / 10) 29 >? level (stats g)).
  destruct c, up, (n =? 1), (n =? 2), (n =? 3), (n =? 4), (backToBack (stats g));
    repeat split; reflexivity.
Qed.

Lemma lockAndAnnounce_frame (p : Piece) (g : Game) :
  currentPiece (lockAndAnnounce p g) = currentPiece g /\
  bag (lockAndAnnounce p g) = bag g /\
  state (lockAndAnnounce p g) = state g /\
  board (lockAndAnnounce p g)
  = Board.lockPiece (board g) (type p) (position p) (rotation p).
Proof.
  unfold lockAndAnnounce.
  destruct (TetrominoType_eqb (type p) tT); [destruct (PieceData.isTSpin _ _ _ _) |];
    repeat split; reflexivity.
Qed.

Lemma clearAndScore_frame (g : Game) :
  currentPiece (clearAndScore g) = currentPiece g /\
  bag (clearAndScore g) = bag g /\
  state (clearAndScore g) = state g.
Proof.
  unfold clearAndScore. destruct (Board.clearLines (board g)) as [grid' cl].
  destruct (Z.of_nat (length cl) >? 0); [| repeat split; reflexivity].
  destruct (handleLineClears_frame (Z.of_nat (length cl)) (set_board grid' g))
    as (H1 & H2 & _ & H4).
  repeat split; assumption.
Qed.

End Completion.

(** C3, as the code has it.  When the lock of the active piece leaves at
    least 999 lines, the controller goes to COMPLETED and keeps the locked
    piece and the bag as they are (no next piece is drawn).  The lock emits
    only the events of an ordinary lock (tspin, piece_lock, combo, level_up,
    line_clear): completion is reported by the state alone. *)
Theorem completion_by_state_only :
  forall (g : Game.Game) (p : Piece),
    Game.currentPiece g = Some p ->
    999 <= lines (Game.stats (Game.lockCurrentPiece g)) ->
    Game.state (Game.lockCurrentPiece g) = COMPLETED /\
    Game.currentPiece (Game.lockCurrentPiece g) = Some p /\
    Game.bag (Game.lockCurrentPiece g) = Game.bag g /\
    exists evs,
      Game.events (Game.lockCurrentPiece g) = Game.events g ++ evs /\
      Forall (fun e => Spec.terminalEvent e = false) evs.
Proof.
  intros g p Hp Hlines.
  rewrite (lockCurrentPiece_stats g p Hp) in Hlines.
  unfold Game.lockCurrentPiece in *. rewrite Hp. cbv beta zeta.
  unfold Board.isGameOver.
  destruct (Z.geb_spec (lines (Game.stats (Game.clearAndScore (Game.lockAndAnnounce p g)))) 999);
    [| lia].
  split; [reflexivity |].
  destruct (clearAndScore_frame (Game.lockAndAnnounce p g)) as (Hcp & Hbag & _).
  destruct (lockAndAnnounce_frame p g) as (Hcp' & Hbag' & _).
  split; [cbn [Game.currentPiece Game.set_state]; congruence |].
  split; [cbn [Game.bag Game.set_state]; congruence |].
  apply (quietly_trans g (Game.lockAndAnnounce p g)).
  - apply lockAndAnnounce_quietly.
  - apply clearAndScore_quietly.
Qed.

(** The lock that completes line 999: the state becomes COMPLETED and the
    only events emitted are piece_lock and line_clear. *)
Lemma completion_without_event :
  Game.state Examples.lastLine = PLAYING /\
  Board.wf_gridb (Game.board Examples.lastLine) = true /\
  Game.state (Game.lockCurrentPiece Examples.lastLine) = COMPLETED /\
  lines (Game.stats Examples.lastLine) = 998 /\
  lines (Game.stats (Game.lockCurrentPiece Examples.lastLine)) = 999 /\
  Game.events Examples.lastLine = [] /\
  Game.events (Game.lockCurrentPiece Examples.lastLine)
  = [Game.ev_piece_lock Examples.lastLinePiece; Game.ev_line_clear [21]] /\
  existsb Spec.terminalEvent (Game.events (Game.lockCurrentPiece Examples.lastLine)) = false.
Proof. vm_compute. repeat split. Qed.

(** The same lock, by the theorem. *)
Lemma completion_by_state_only_witness :
  Game.state (Game.lockCurrentPiece Examples.lastLine) = COMPLETED /\
  Game.currentPiece (Game.lockCurrentPiece Examples.lastLine)
  = Some Examples.lastLinePiece.
Proof.
  destruct (completion_by_state_only Examples.lastLine Examples.lastLinePiece eq_refl)
    as (Hstate & Hpiece & _).
  - vm_compute. discriminate.
  - split; [exact Hstate | exact Hpiece].
Defined.

(** ** Scoring of line clears *)

Section Scoring.

Import Game.

Lemma handleLineClears_four (g : Game) :
  stats (handleLineClears 4 g)
  = mkStats (score (stats g)
             + ((if backToBack (stats g) then 800 * 3 / 2 else 800) * (level (stats g) + 1)
                + 50 * (combo (stats g) + 1) * (level (stats g) + 1)))
            (Z.max (level (stats g)) (Spec.levelOf (lines (stats g) + 4)))
            (lines (stats g) + 4)
            (combo (stats g) + 1)
            true.
Proof.
  unfold handleLineClears, Spec.levelOf. cbn [Z.eqb Pos.eqb].
  destruct (Z.gtb_spec (Z.min ((lines (stats g) + 4) / 10) 29) (level (stats g)));
    destruct (combo (stats g) + 1 >? 1), (backToBack (stats g));
    cbn [stats set_stats emit set_events]; f_equal; lia.
Qed.

Lemma handleLineClears_backToBack_off (n : Z) (g : Game) :
  1 <= n <= 3 -> backToBack (stats (handleLineClears n g)) = false.
Proof.
  intros Hn. assert (n = 1 \/ n = 2 \/ n = 3) as [-> | [-> | ->]] by lia;
    unfold handleLineClears; cbn [Z.eqb Pos.eqb];
    destruct (_ >? 1), (_ >? level (stats g)); reflexivity.
Qed.

(** The statistics after the lock of the piece [p], by the number of lines
    the lock clears. *)
Lemma lockCurrentPiece_scores (g : Game) (p : Piece) :
  currentPiece g = Some p ->
  0 < Spec.linesClearedByLock g ->
  exists g1, stats g1 = stats g /\
    stats (lockCurrentPiece g)
    = stats (handleLineClears (Spec.linesClearedByLock g) g1).
Proof.
  intros Hp Hn. rewrite (lockCurrentPiece_stats g p Hp).
  unfold Spec.linesClearedByLock in *. rewrite Hp in *.
  destruct (lockAndAnnounce_frame p g) as (_ & _ & _ & Hb).
  unfold clearAndScore. rewrite Hb.
  destruct (Board.clearLines _) as [grid' cl]. cbn [snd] in *.
  destruct (Z.gtb_spec (Z.of_nat (length cl)) 0); [| lia].
  exists (set_board grid' (lockAndAnnounce p g)). split.
  - apply lockAndAnnounce_stats.
  - reflexivity.
Qed.

End Scoring.

(** C4, as the code has it.  A lock that clears 1, 2 or 3 lines leaves
    backToBack false.  A lock that clears 4 lines with backToBack false sets
    it and adds 800 (L + 1) + 50 combo (L + 1) to the score, at the level L
    before the lock and the combo after it (one more than before, so 1 after
    a combo of 0).  When the next lock, with no scoring in between, clears 4
    lines again, it adds 800 * 1.5 * (L' + 1) + 50 combo (L' + 1) with the
    combo one higher again, where L' is the level the first lock left: the
    larger of L and min(floor((lines + 4) / 10), 29). *)
Theorem four_line_clears_back_to_back :
  forall (g : Game.Game) (p : Piece),
    Game.state g = PLAYING ->
    Game.currentPiece g = Some p ->
    (1 <= Spec.linesClearedByLock g <= 3 ->
       backToBack (Game.stats (Game.lockCurrentPiece g)) = false) /\
    (Spec.linesClearedByLock g = 4 ->
     backToBack (Game.stats g) = false ->
       backToBack (Game.stats (Game.lockCurrentPiece g)) = true /\
       combo (Game.stats (Game.lockCurrentPiece g)) = combo (Game.stats g) + 1 /\
       score (Game.stats (Game.lockCurrentPiece g))
       = score (Game.stats g)
         + (800 * (level (Game.stats g) + 1)
            + 50 * (combo (Game.stats g) + 1) * (level (Game.stats g) + 1)) /\
       level (Game.stats (Game.lockCurrentPiece g))
       = Z.max (level (Game.stats g)) (Z.min ((lines (Game.stats g) + 4) / 10) 29) /\
       forall (g' : Game.Game) (p' : Piece),
         Game.currentPiece g' = Some p' ->
         level (Game.stats g') = level (Game.stats (Game.lockCurrentPiece g)) ->
         combo (Game.stats g') = combo (Game.stats (Game.lockCurrentPiece g)) ->
         backToBack (Game.stats g') = backToBack (Game.stats (Game.lockCurrentPiece g)) ->
         Spec.linesClearedByLock g' = 4 ->
           backToBack (Game.stats (Game.lockCurrentPiece g')) = true /\
           combo (Game.stats (Game.lockCurrentPiece g')) = combo (Game.stats g) + 2 /\
           score (Game.stats (Game.lockCurrentPiece g'))
           = score (Game.stats g')
             + (800 * 3 / 2 * (level (Game.stats (Game.lockCurrentPiece g)) + 1)
                + 50 * (combo (Game.stats g) + 2)
                  * (level (Game.stats (Game.lockCurrentPiece g)) + 1))).
Proof.
  intros g p _ Hp. split.
  - intros Hn. destruct (lockCurrentPiece_scores g p Hp) as (g1 & _ & ->); [lia |].
    now apply handleLineClears_backToBack_off.
  - intros H4 Hb2b.
    destruct (lockCurrentPiece_scores g p Hp) as (g1 & Hg1 & Hlock); [lia |].
    rewrite H4, handleLineClears_four, Hg1, Hb2b in Hlock.
    rewrite Hlock. cbn [backToBack combo score level].
    unfold Spec.levelOf. repeat (split; [reflexivity |]).
    intros g' p' Hp' Hlev Hcombo Hbb H4'.
    destruct (lockCurrentPiece_scores g' p' Hp') as (g1' & Hg1' & Hlock'); [lia |].
    rewrite H4', handleLineClears_four, Hg1', Hbb, Hlev, Hcombo in Hlock'.
    rewrite Hlock'. cbn [backToBack combo score level].
    split; [reflexivity |]. split; [lia |]. f_equal. f_equal. f_equal. lia.
Qed.

(** Two 4-line clears in a row from 6 lines at level 0: the first adds 850
    and raises the level to 1; the second adds 2600 = 1200 * 2 + 50 * 2 * 2,
    not the 1300 that level 0 would give. *)
Lemma second_tetris_scored_at_new_level :
  Board.wf_gridb (Game.board Examples.firstTetris) = true /\
  Game.state Examples.firstTetris = PLAYING /\
  Game.stats Examples.firstTetris = mkStats 0 0 6 0 false /\
  Spec.linesClearedByLock Examples.firstTetris = 4 /\
  Game.stats Examples.afterFirstTetris = mkStats (800 * (0 + 1) + 50 * 1 * (0 + 1)) 1 10 1 true /\
  Game.state Examples.secondTetris = PLAYING /\
  Game.stats Examples.secondTetris = mkStats (850 + 18) 1 10 1 true /\
  Spec.linesClearedByLock Examples.secondTetris = 4 /\
  combo (Game.stats (Game.lockCurrentPiece Examples.secondTetris)) = 2 /\
  score (Game.stats (Game.lockCurrentPiece Examples.secondTetris))
  - score (Game.stats Examples.secondTetris) = 2600 /\
  800 * 3 / 2 * (0 + 1) + 50 * 2 * (0 + 1) = 1300.
Proof. vm_compute. repeat split. Qed.

(** The same two locks, by the theorem. *)
Lemma four_line_clears_back_to_back_witness :
  score (Game.stats (Game.lockCurrentPiece Examples.secondTetris))
  = score (Game.stats Examples.secondTetris)
    + (800 * 3 / 2 * (level (Game.stats Examples.afterFirstTetris) + 1)
       + 50 * (combo (Game.stats Examples.firstTetris) + 2)
         * (level (Game.stats Examples.afterFirstTetris) + 1)).
Proof.
  destruct (four_line_clears_back_to_back Examples.firstTetris Examples.firstTetrisPiece
              eq_refl eq_refl) as [_ Hfour].
  destruct (Hfour ltac:(vm_compute; reflexivity) eq_refl) as (_ & _ & _ & _ & Hnext).
  destruct (Hnext Examples.secondTetris (mkPiece tI (mkPosition (-1) 18) LEFT false 0%float)
              ltac:(vm_compute; reflexivity) ltac:(vm_compute; reflexivity)
              ltac:(vm_compute; reflexivity) ltac:(vm_compute; reflexivity)
              ltac:(vm_compute; reflexivity)) as (_ & _ & Hscore).
  exact Hscore.
Defined.

(** ** Board statistics *)

Section BoardStats.

Variable g : Board.Grid.

Lemma zrange_lower (n : nat) : forall i v, In v (Spec.zrange i n) -> i <= v.
Proof.
  induction n as [| n IH]; intros i v; simpl; [tauto |].
  intros [<- | H]; [lia | apply IH in H; lia].
Qed.

(** The empty cells of column [col] among the rows [rs]. *)
Let emptyIn (col : Z) (rs : list Z) : Z :=
  Z.of_nat (length (filter (fun row => negb (Board.occupied g row col)) rs)).

Lemma scan_found (col : Z) (n : nat) : forall i hs h,
  for_range n i (Board.scanCell g col) (Board.mkScan hs h true)
  = Board.mkScan hs (h + emptyIn col (Spec.zrange i n)) true.
Proof.
  unfold emptyIn. induction n as [| n IH]; intros i hs h; simpl.
  - f_equal. lia.
  - unfold Board.scanCell at 2. simpl.
    destruct (Board.occupied g i col); simpl; rewrite IH; f_equal; lia.
Qed.

Lemma filter_below_all (col top : Z) (rs : list Z) :
  (forall v, In v rs -> top < v) ->
  filter (fun row => (top <? row) && negb (Board.occupied g row col)) rs
  = filter (fun row => negb (Board.occupied g row col)) rs.
Proof.
  intros H. apply filter_ext_in. intros v Hv. apply H in Hv.
  destruct (Z.ltb_spec top v); [reflexivity | lia].
Qed.

Lemma scan_not_found (col : Z) (n : nat) : forall i hs h,
  for_range n i (Board.scanCell g col) (Board.mkScan hs h false)
  = match find (fun row => Board.occupied g row col) (Spec.zrange i n) with
    | Some top =>
        Board.mkScan (setZ hs col (TOTAL_HEIGHT - top))
          (h + Z.of_nat (length (filter
                 (fun row => (top <? row) && negb (Board.occupied g row col))
                 (Spec.zrange i n))))
          true
    | None => Board.mkScan hs h false
    end.
Proof.
  induction n as [| n IH]; intros i hs h; simpl; [reflexivity |].
  unfold Board.scanCell at 2. simpl.
  destruct (Board.occupied g i col) eqn:Hocc; simpl.
  - rewrite scan_found. unfold emptyIn.
    rewrite Z.ltb_irrefl. simpl.
    rewrite filter_below_all; [reflexivity |].
    intros v Hv. apply zrange_lower in Hv. lia.
  - rewrite IH.
    destruct (find _ (Spec.zrange (i + 1) n)) as [top |] eqn:Hfind; [| reflexivity].
    apply find_some in Hfind. destruct Hfind as [Hin _].
    apply zrange_lower in Hin.
    destruct (Z.ltb_spec top i); [lia |]. reflexivity.
Qed.

Lemma scanColumn_result (col : Z) (s : Board.ScanState) :
  Board.columnHeights (Board.scanColumn g col s)
  = match Spec.firstOccupied g col with
    | Some top => setZ (Board.columnHeights s) col (TOTAL_HEIGHT - top)
    | None => Board.columnHeights s
    end /\
  Board.holesCount (Board.scanColumn g col s)
  = Board.holesCount s + Spec.holesInColumn g col.
Proof.
  unfold Board.scanColumn, Spec.holesInColumn, Spec.firstOccupied, Spec.rows.
  rewrite scan_not_found.
  destruct (find _ _); cbn [Board.columnHeights Board.holesCount]; split;
    first [reflexivity | lia].
Qed.

Lemma setZ_middle {A : Type} (pre post : list A) (x v : A) (i : Z) :
  Z.of_nat (length pre) = i -> setZ (pre ++ x :: post) i v = pre ++ v :: post.
Proof.
  intros <-. unfold setZ.
  destruct (Z.ltb_spec (Z.of_nat (length pre)) 0) as [Hneg | _]; [lia |].
  rewrite Nat2Z.id. induction pre as [| a pre IH]; simpl; [reflexivity |].
  now rewrite IH.
Qed.

Lemma nthZ_middle {A : Type} (pre post : list A) (x d : A) (i : Z) :
  Z.of_nat (length pre) = i -> nthZ (pre ++ x :: post) i d = x.
Proof.
  intros <-. unfold nthZ.
  destruct (Z.ltb_spec (Z.of_nat (length pre)) 0) as [Hneg | _]; [lia |].
  rewrite Nat2Z.id. induction pre as [| a pre IH]; simpl; auto.
Qed.

Lemma for_range_S {St : Type} (body : Z -> St -> St) (n : nat) (i : Z) (s : St) :
  for_range (S n) i body s = for_range n (i + 1) body (body i s).
Proof. reflexivity. Qed.

Lemma scanColumns_result (n : nat) : forall i pre s,
  Z.of_nat (length pre) = i ->
  Board.columnHeights s = pre ++ repeat 0 n ->
  Board.columnHeights (for_range n i (Board.scanColumn g) s)
  = pre ++ map (Spec.columnHeight g) (Spec.zrange i n) /\
  Board.holesCount (for_range n i (Board.scanColumn g) s)
  = Board.holesCount s + Spec.sumZ (map (Spec.holesInColumn g) (Spec.zrange i n)).
Proof.
  unfold Spec.sumZ.
  induction n as [| n IH]; intros i pre s Hlen Hhs.
  - cbn [for_range Spec.zrange map fold_right].
    rewrite Hhs. cbn [repeat]. split; [reflexivity | lia].
  - rewrite for_range_S. cbn [Spec.zrange map fold_right].
    destruct (scanColumn_result i s) as [Hh Hholes].
    destruct (IH (i + 1) (pre ++ [Spec.columnHeight g i]) (Board.scanColumn g i s))
      as [IHh IHholes].
    + rewrite length_app. cbn [length]. lia.
    + rewrite Hh, Hhs. cbn [repeat]. rewrite <- app_assoc. cbn [app].
      unfold Spec.columnHeight.
      destruct (Spec.firstOccupied g i); [| reflexivity].
      now apply setZ_middle.
    + rewrite IHh, IHholes, Hholes, <- app_assoc. cbn [app].
      split; [reflexivity | symmetry; apply Z.add_assoc].
Qed.

Lemma bump_loop (n : nat) : forall i pre rest b,
  Z.of_nat (length pre) = i -> length rest = S n ->
  for_range n i (Board.bumpStep (pre ++ rest)) b = b + Spec.bumpinessOf rest.
Proof.
  induction n as [| n IH]; intros i pre rest b Hlen Hrest.
  - destruct rest as [| a [| ? ?]]; try discriminate. simpl. lia.
  - destruct rest as [| a [| a' rest']]; try discriminate.
    rewrite for_range_S. unfold Board.bumpStep at 2.
    rewrite (nthZ_middle pre (a' :: rest') a 0 i Hlen).
    replace (pre ++ a :: a' :: rest') with ((pre ++ [a]) ++ a' :: rest')
      by (rewrite <- app_assoc; reflexivity).
    rewrite (nthZ_middle (pre ++ [a]) rest' a' 0 (i + 1))
      by (rewrite length_app; simpl; lia).
    rewrite (IH (i + 1) (pre ++ [a]) (a' :: rest')).
    + cbn [Spec.bumpinessOf]. lia.
    + rewrite length_app. simpl. lia.
    + simpl in Hrest. simpl. lia.
Qed.

Lemma fold_max_spec (rest : list Z) : forall v,
  (fold_left Z.max rest v = v \/ In (fold_left Z.max rest v) rest) /\
  v <= fold_left Z.max rest v /\
  Forall (fun x => x <= fold_left Z.max rest v) rest.
Proof.
  induction rest as [| a rest IH]; intros v; simpl.
  - split; [now left | split; [lia | constructor]].
  - destruct (IH (Z.max v a)) as ([Heq | Hin] & Hle & Hall).
    + split; [| split; [lia | constructor; [lia | exact Hall]]].
      rewrite Heq. destruct (Z.max_spec v a) as [[_ ->] | [_ ->]]; auto.
    + split; [auto | split; [lia | constructor; [lia | exact Hall]]].
Qed.

Lemma Math_max_isMaximum (v : Z) (rest : list Z) :
  Spec.isMaximum (Board.Math_max (v :: rest)) (v :: rest).
Proof.
  unfold Spec.isMaximum, Board.Math_max.
  destruct (fold_max_spec rest v) as (Hin & Hle & Hall).
  split.
  - destruct Hin as [-> | Hin]; [now left | now right].
  - constructor; assumption.
Qed.

End BoardStats.

(** C9, as the code has it.  The height of a column is counted from its
    first occupied cell down to the floor ([TOTAL_HEIGHT] minus the row of
    that cell; 0 for an empty column).  [getBoardStats] returns the largest
    column height, the number of empty cells strictly below the first
    occupied cell of their column, and the sum of the absolute differences of
    the heights of neighbouring columns. *)
Theorem getBoardStats_spec :
  forall g : Board.Grid,
    Spec.isMaximum (Board.height (Board.getBoardStats g))
                   (map (Spec.columnHeight g) Spec.columns) /\
    Board.holes (Board.getBoardStats g)
    = Spec.sumZ (map (Spec.holesInColumn g) Spec.columns) /\
    Board.bumpiness (Board.getBoardStats g)
    = Spec.bumpinessOf (map (Spec.columnHeight g) Spec.columns).
Proof.
  intros g. unfold Board.getBoardStats, Board.scanGrid.
  destruct (scanColumns_result g (Z.to_nat BOARD_WIDTH) 0 []
              (Board.mkScan (repeat 0 (Z.to_nat BOARD_WIDTH)) 0 false) eq_refl eq_refl)
    as [Hh Hholes].
  cbn [Board.height Board.holes Board.bumpiness].
  rewrite Hh, Hholes. cbn [app Board.holesCount]. fold Spec.columns.
  clear Hh Hholes.
  assert (Hlen : length (map (Spec.columnHeight g) Spec.columns) = 10%nat)
    by (rewrite length_map; reflexivity).
  set (hs := map (Spec.columnHeight g) Spec.columns) in *. clearbody hs.
  split; [| split].
  - destruct hs as [| v rest]; [discriminate | apply Math_max_isMaximum].
  - apply Z.add_0_l.
  - change (Z.to_nat (BOARD_WIDTH - 1)) with 9%nat.
    pose proof (bump_loop 9 0 [] hs 0 eq_refl Hlen) as Hbump.
    cbn [app] in Hbump. rewrite Z.add_0_l in Hbump. exact Hbump.
Qed.

(** A single block in the bottom row of column 0: its column has height 1,
    and the block is 21 rows from the top. *)
Lemma height_is_not_distance_from_top :
  Board.wf_gridb Examples.cornerBlock = true /\
  Board.cellAt Examples.cornerBlock 21 0 = Some tO /\
  Board.getBoardStats Examples.cornerBlock = Board.mkBoardStats 1 0 1 /\
  map (Spec.distanceFromTop Examples.cornerBlock) Spec.columns
  = [21; 0; 0; 0; 0; 0; 0; 0; 0; 0] /\
  Spec.isMaximum 21 (map (Spec.distanceFromTop Examples.cornerBlock) Spec.columns) /\
  Spec.bumpinessOf (map (Spec.distanceFromTop Examples.cornerBlock) Spec.columns) = 21.
Proof.
  assert (H : map (Spec.distanceFromTop Examples.cornerBlock) Spec.columns
              = [21; 0; 0; 0; 0; 0; 0; 0; 0; 0]) by (vm_compute; reflexivity).
  rewrite H. repeat (split; [vm_compute; reflexivity |]).
  split; [| reflexivity].
  split; [now left | repeat constructor; discriminate].
Qed.

(** ** The bag randomizer *)

Section SetNth.

Context {A : Type}.
Hypothesis dec : forall a b : A, {a = b} + {a <> b}.

Lemma length_set_nth (l : list A) : forall n v, length (set_nth l n v) = length l.
Proof. induction l as [| a l IH]; intros [| n] v; simpl; auto. Qed.

Lemma nth_set_nth_eq (l : list A) : forall n v d,
  (n < length l)%nat -> nth n (set_nth l n v) d = v.
Proof.
  induction l as [| a l IH]; intros [| n] v d H; simpl in *; try lia; auto.
  apply IH. lia.
Qed.

Lemma nth_set_nth_neq (l : list A) : forall n m v d,
  n <> m -> nth m (set_nth l n v) d = nth m l d.
Proof.
  induction l as [| a l IH]; intros [| n] [| m] v d H; simpl; auto; try lia.
Qed.

Let hit (a x : A) : nat := if dec a x then 1%nat else 0%nat.

Lemma count_occ_set_nth (l : list A) : forall n v d x,
  (n < length l)%nat ->
  (count_occ dec (set_nth l n v) x + hit (nth n l d) x
   = count_occ dec l x + hit v x)%nat.
Proof.
  unfold hit. induction l as [| a l IH]; intros [| n] v d x H; simpl in *; try lia.
  - destruct (dec v x), (dec a x); lia.
  - specialize (IH n v d x ltac:(lia)). destruct (dec a x); lia.
Qed.

Lemma swap_Permutation (l : list A) (i j : nat) (d : A) :
  (i < length l)%nat -> (j < length l)%nat ->
  Permutation (set_nth (set_nth l i (nth j l d)) j (nth i l d)) l.
Proof.
  intros Hi Hj. apply (Permutation_count_occ dec). intros x.
  pose proof (count_occ_set_nth l i (nth j l d) d x Hi) as H1.
  pose proof (count_occ_set_nth (set_nth l i (nth j l d)) j (nth i l d) d x) as H2.
  rewrite length_set_nth in H2. specialize (H2 Hj).
  destruct (Nat.eq_dec i j) as [-> | Hne].
  - rewrite nth_set_nth_eq in H2 by assumption. lia.
  - rewrite nth_set_nth_neq in H2 by assumption. lia.
Qed.

End SetNth.

Section Bag.

Import BagRandomizer.

Lemma Slot_eq_dec (a b : Slot) : {a = b} + {a <> b}.
Proof. decide equality. decide equality. Qed.

Lemma toDouble_small (z : Z) : Z.abs z < 2 ^ 53 -> toDouble z = Some z.
Proof.
  intros H. unfold toDouble.
  destruct (Z.ltb_spec (Z.abs z) (2 ^ 53)); [reflexivity | lia].
Qed.

(** Rounding an integer below 2^1023 gives a double, at most twice as
    large. *)
Lemma toDouble_nonneg (z : Z) :
  0 <= z < 2 ^ 1023 -> exists p, toDouble z = Some p /\ 0 <= p <= 2 * z.
Proof.
  intros [H0 H1]. unfold toDouble. rewrite (Z.abs_eq z H0).
  destruct (Z.ltb_spec z (2 ^ 53)) as [Hlt | Hge].
  - exists z. split; [reflexivity | lia].
  - assert (Hz : 0 < z) by lia.
    destruct (Z.log2_spec z Hz) as [Hlo Hhi].
    assert (Hl : 53 <= Z.log2 z) by (apply Z.log2_le_pow2; lia).
    rewrite Z.pow_succ_r in Hhi by lia.
    assert (Hpow : 2 ^ Z.log2 z = 2 ^ 52 * 2 ^ (Z.log2 z - 52)).
    { rewrite <- Z.pow_add_r by lia. f_equal. lia. }
    assert (Hhalf : 2 ^ (Z.log2 z - 52) = 2 * 2 ^ (Z.log2 z - 52 - 1)).
    { rewrite <- Z.pow_succ_r by lia. f_equal. lia. }
    assert (Hpos : 0 < 2 ^ (Z.log2 z - 52)) by (apply Z.pow_pos_nonneg; lia).
    assert (Htop : 2 ^ 1024 = 2 * 2 ^ 1023) by (vm_compute; reflexivity).
    rewrite Htop. rewrite Hpow in Hlo, Hhi.
    set (top := 2 ^ 1023) in *. clearbody top.
    set (P := 2 ^ (Z.log2 z - 52)) in *. clearbody P.
    assert (Hq : 2 ^ 52 <= z / P < 2 ^ 53).
    { split; [apply Z.div_le_lower_bound; lia | apply Z.div_lt_upper_bound; lia]. }
    set (q := z / P) in *. clearbody q.
    set (q' := if (2 ^ (Z.log2 z - 52 - 1) <? z mod P)
                  || ((z mod P =? 2 ^ (Z.log2 z - 52 - 1)) && Z.odd q)
               then q + 1 else q).
    assert (Hq' : q <= q' <= q + 1).
    { unfold q'. destruct (_ || _); lia. }
    clearbody q'.
    assert (Hr : 0 <= q' * P <= 2 * z) by nia.
    destruct (Z.ltb_spec (q' * P) (2 * top)); [| lia].
    exists (Z.sgn z * (q' * P)). rewrite Z.sgn_pos by lia.
    split; [reflexivity | lia].
Qed.

(** The double nearest to an integer that is not negative is not
    negative. *)
Lemma toDouble_sign (z p : Z) : toDouble z = Some p -> 0 <= z -> 0 <= p.
Proof.
  unfold toDouble. intros H Hz. rewrite (Z.abs_eq z Hz) in H.
  destruct (z <? 2 ^ 53); [injection H as <-; exact Hz |].
  destruct (_ <? 2 ^ 1024); [| discriminate]. injection H as <-.
  assert (Hq : 0 <= z / 2 ^ (Z.log2 z - 52)).
  { apply Z_div_nonneg_nonneg; [exact Hz | apply Z.pow_nonneg; lia]. }
  apply Z.mul_nonneg_nonneg; [destruct (Z.sgn_spec z) as [[_ ->] | [[_ ->] | [? _]]]; lia |].
  apply Z.mul_nonneg_nonneg; [destruct (_ || _); lia | apply Z.pow_nonneg; lia].
Qed.

(** From a state that is in order the generator goes to a state in
    [0, 2^31), which is in order. *)
Lemma random_range (s : Num) :
  Spec.seedOk s ->
  exists r : Z,
    random s = (Some (r # 2147483648), Fin r) /\
    0 <= r < 2147483648 /\
    Spec.seedOk (Fin r).
Proof.
  intros (r & Hr0 & Hrand). exists r.
  assert (Hr : r < 2147483648).
  { unfold random in Hrand. destruct s as [z |]; [| discriminate].
    destruct (toDouble (z * 1664525)) as [p1 |]; [| discriminate].
    destruct (toDouble (p1 + 1013904223)) as [sum |]; [| discriminate].
    injection Hrand as _ <-.
    pose proof (Z.rem_bound_abs sum 2147483648 ltac:(lia)). lia. }
  split; [exact Hrand |]. split; [lia |].
  exists (Z.rem (r * 1664525 + 1013904223) 2147483648). split.
  - apply Z.rem_nonneg; lia.
  - unfold random.
    rewrite (toDouble_small (r * 1664525)) by lia.
    now rewrite (toDouble_small (r * 1664525 + 1013904223)) by lia.
Qed.

(** On the sample seeds, from 0 over a timestamp to the seeds whose first
    product is an infinity, the generator state of the embedding is the
    double the operations on doubles give. *)
Lemma random_on_doubles :
  map (fun s => Prim2SF (Spec.randomDouble (ofZ s))) Spec.sampleSeeds
  = map (fun s => Prim2SF (Spec.numDouble (snd (random (Fin s))))) Spec.sampleSeeds /\
  map (fun s => snd (random (Fin s))) [1700000000000; -1000; 2 ^ 1003; 2 ^ 1004]
  = [Fin 1518681088; Fin (-650620777); Fin 0; NaN].
Proof. vm_compute. split; reflexivity. Qed.

(** The seeds below 2^1000 whose first generator state is not negative are
    in order. *)
Lemma seedOk_range (z : Z) :
  0 <= z * 1664525 + 1013904223 -> z < 2 ^ 1000 -> Spec.seedOk (Fin z).
Proof.
  intros Hs Hz.
  assert (Htop : 2 ^ 1023 = 2 ^ 1000 * 8388608) by (vm_compute; reflexivity).
  assert (Hbig : 2147483648 <= 2 ^ 1000) by (vm_compute; discriminate).
  assert (Hsum : exists sum, 0 <= sum /\
            random z = (Some (Z.rem sum 2147483648 # 2147483648),
                        Fin (Z.rem sum 2147483648))).
  { unfold random.
    destruct (Z.lt_ge_cases (z * 1664525) 0) as [Hneg | Hpos].
    - rewrite (toDouble_small (z * 1664525)) by lia.
      rewrite (toDouble_small (z * 1664525 + 1013904223)) by lia.
      exists (z * 1664525 + 1013904223). split; [exact Hs | reflexivity].
    - destruct (toDouble_nonneg (z * 1664525)) as (p1 & -> & Hp1);
        [rewrite Htop; set (B := 2 ^ 1000) in *; clearbody B; lia |].
      destruct (toDouble_nonneg (p1 + 1013904223)) as (p2 & -> & Hp2);
        [rewrite Htop; set (B := 2 ^ 1000) in *; clearbody B; lia |].
      exists p2. split; [lia | reflexivity]. }
  destruct Hsum as (sum & Hsum0 & Hrand).
  exists (Z.rem sum 2147483648). split; [| exact Hrand].
  apply Z.rem_nonneg; lia.
Qed.

(** From a seed that is not negative the generator goes to a state that is
    not negative, or to NaN. *)
Lemma seedOk_or_nan (z : Z) :
  0 <= z -> Spec.seedOk (Fin z) \/ random (Fin z) = (None, NaN).
Proof.
  intros Hz. unfold Spec.seedOk, random.
  destruct (toDouble (z * 1664525)) as [p1 |] eqn:H1; [| now right].
  pose proof (toDouble_sign _ _ H1 ltac:(lia)) as Hp1.
  destruct (toDouble (p1 + 1013904223)) as [sum |] eqn:H2; [| now right].
  pose proof (toDouble_sign _ _ H2 ltac:(lia)) as Hsum.
  left. exists (Z.rem sum 2147483648). split; [| reflexivity].
  apply Z.rem_nonneg; lia.
Qed.

Lemma index_range (r i : Z) :
  0 <= r < 2147483648 -> 0 <= i ->
  0 <= Qfloor ((r # 2147483648) * inject_Z (i + 1)) <= i.
Proof.
  intros Hr Hi. unfold Qfloor, Qmult, inject_Z. cbn [Qnum Qden].
  rewrite Pos.mul_1_r. split.
  - apply Z.div_pos; [nia | lia].
  - apply Z.lt_succ_r. apply Z.div_lt_upper_bound; [lia | nia].
Qed.

Lemma readAt_inside (a : JsArray) (k : Z) :
  0 <= k < arrayLength a -> readAt a (KInt k) = nth (Z.to_nat k) (elems a) None.
Proof.
  intros H. unfold readAt, isIndex.
  destruct (Z.leb_spec 0 k); [| lia]. destruct (Z.ltb_spec k (arrayLength a)); [| lia].
  reflexivity.
Qed.

Lemma writeAt_inside (a : JsArray) (k : Z) (v : Slot) :
  0 <= k < arrayLength a ->
  writeAt a (KInt k) v = mkArray (set_nth (elems a) (Z.to_nat k) v) (props a).
Proof.
  intros H. unfold writeAt, isIndex.
  destruct (Z.leb_spec 0 k); [| lia]. destruct (Z.ltb_spec k (arrayLength a)); [| lia].
  reflexivity.
Qed.

Lemma swapStep_ok (i : Z) (bag : JsArray) (s : Num) :
  Spec.seedOk s -> 0 <= i < arrayLength bag ->
  Permutation (elems (fst (swapStep i (bag, s)))) (elems bag) /\
  props (fst (swapStep i (bag, s))) = props bag /\
  Spec.seedOk (snd (swapStep i (bag, s))).
Proof.
  intros Hs Hi. unfold swapStep.
  destruct (random_range s Hs) as (s' & -> & Hr & Hs').
  pose proof (index_range s' i Hr ltac:(lia)) as Hj.
  set (j := Qfloor ((s' # 2147483648) * inject_Z (i + 1))) in *.
  assert (Hj' : 0 <= j < arrayLength bag) by lia.
  rewrite (readAt_inside bag i Hi), (readAt_inside bag j Hj').
  rewrite (writeAt_inside bag i _ Hi).
  rewrite writeAt_inside
    by (unfold arrayLength in *; cbn [elems]; rewrite length_set_nth; lia).
  cbn [fst snd elems props]. split; [| split; [reflexivity | exact Hs']].
  unfold arrayLength in *.
  apply (swap_Permutation Slot_eq_dec); lia.
Qed.

Lemma shuffleLoop_ok (n : nat) : forall i bag (s : Num),
  Spec.seedOk s -> Z.of_nat n <= i + 1 -> i < arrayLength bag ->
  Permutation (elems (fst (shuffleLoop n i (bag, s)))) (elems bag) /\
  props (fst (shuffleLoop n i (bag, s))) = props bag /\
  Spec.seedOk (snd (shuffleLoop n i (bag, s))).
Proof.
  induction n as [| n IH]; intros i bag s Hs Hn Hi; cbn [shuffleLoop].
  - cbn [fst snd]. auto.
  - destruct (swapStep_ok i bag s Hs ltac:(lia)) as (Hp & Hprops & Hs').
    destruct (swapStep i (bag, s)) as [bag1 s1]. cbn [fst snd] in *.
    assert (Hlen : arrayLength bag1 = arrayLength bag).
    { unfold arrayLength. now rewrite (Permutation_length Hp). }
    destruct (IH (i - 1) bag1 s1 Hs' ltac:(lia) ltac:(lia)) as (Hp2 & Hprops2 & Hs2).
    split; [| split; [congruence | exact Hs2]].
    now rewrite Hp2.
Qed.

Lemma fillBag_ok (s : Num) :
  Spec.seedOk s ->
  Spec.oneOfEach (elems (fst (fillBag emptyArray s))) /\
  Spec.seedOk (snd (fillBag emptyArray s)).
Proof.
  intros Hs. unfold fillBag, Spec.oneOfEach.
  set (pushed := mkArray (elems emptyArray ++ map Some [tI; tO; tT; tS; tZ; tJ; tL])
                         (props emptyArray)).
  change (arrayLength pushed - 1) with 6.
  destruct (shuffleLoop_ok (Z.to_nat 6) 6 pushed s Hs) as (Hp & _ & Hs'); [lia | reflexivity |].
  split; [exact Hp | exact Hs'].
Qed.

Lemma create_aligned (s : Z) :
  Spec.seedOk s ->
  Spec.aligned (create s) /\ Spec.oneOfEach (currentBag (create s)).
Proof.
  intros Hs. unfold create.
  destruct (fillBag_ok s Hs) as [H1 Hs1].
  destruct (fillBag emptyArray s) as [b1 s1]. cbn [fst snd] in *.
  destruct (fillBag_ok s1 Hs1) as [H2 Hs2].
  destruct (fillBag emptyArray s1) as [b2 s2]. cbn [fst snd] in *.
  unfold Spec.aligned. cbn [seed nextBag currentBag]. auto.
Qed.

Lemma draws_current (l nb : list Slot) (s : Num) :
  draws (length l) (mkState l nb s) = (l, mkState [] nb s).
Proof.
  induction l as [| v rest IH]; [reflexivity |].
  cbn [length draws]. unfold next. cbn [currentBag nextBag seed length Nat.eqb shift].
  now rewrite IH.
Qed.

Lemma draws_app (n m : nat) : forall st,
  draws (n + m) st
  = (fst (draws n st) ++ fst (draws m (snd (draws n st))),
     snd (draws m (snd (draws n st)))).
Proof.
  induction n as [| n IH]; intros st; cbn [Nat.add draws].
  - cbn [fst snd app]. now destruct (draws m st).
  - destruct (next st) as [v st1]. rewrite IH.
    destruct (draws n st1) as [vs st2]. cbn [fst snd].
    destruct (draws m st2) as [ws st3]. reflexivity.
Qed.

Lemma draws_S (n : nat) (st : State) :
  draws (S n) st
  = (fst (next st) :: fst (draws n (snd (next st))), snd (draws n (snd (next st)))).
Proof.
  cbn [draws]. destruct (next st) as [v st1]. cbn [fst snd].
  now destruct (draws n st1).
Qed.

Lemma next_refill (v : Slot) (rest : list Slot) (s : Num) :
  next (mkState [] (v :: rest) s)
  = (v, mkState rest (elems (fst (fillBag emptyArray s))) (snd (fillBag emptyArray s))).
Proof.
  unfold next. cbn [currentBag nextBag seed length Nat.eqb].
  now destruct (fillBag emptyArray s).
Qed.

Lemma oneOfEach_length (l : list Slot) : Spec.oneOfEach l -> length l = 7%nat.
Proof. intros H. apply Permutation_length in H. exact H. Qed.

Lemma aligned_draws_7 (st : State) :
  Spec.aligned st ->
  Spec.oneOfEach (fst (draws 7 st)) /\ Spec.aligned (snd (draws 7 st)).
Proof.
  destruct st as [cb nb s]. unfold Spec.aligned. cbn [currentBag nextBag seed].
  intros (Hs & Hnb & [-> | Hcb]).
  - pose proof (oneOfEach_length nb Hnb) as Hlen.
    destruct nb as [| v rest]; [discriminate |].
    destruct (fillBag_ok s Hs) as [Hnew Hs'].
    assert (H6 : length rest = 6%nat) by (simpl in Hlen; lia).
    rewrite draws_S, next_refill. cbn [fst snd].
    rewrite <- H6, draws_current. cbn [fst snd currentBag nextBag seed].
    auto.
  - pose proof (oneOfEach_length cb Hcb) as Hlen.
    rewrite <- Hlen, draws_current. cbn [fst snd currentBag nextBag seed]. auto.
Qed.

Lemma aligned_draws_blocks (k : nat) : forall st,
  Spec.aligned st -> Spec.aligned (snd (draws (7 * k) st)).
Proof.
  induction k as [| k IH]; intros st Hst.
  - exact Hst.
  - replace (7 * S k)%nat with (7 + 7 * k)%nat by lia.
    rewrite draws_app. cbn [snd].
    apply IH. now apply aligned_draws_7.
Qed.

Lemma seedOk_clock (s : Z) : Game.validClock s -> Spec.seedOk s.
Proof. unfold Game.validClock. intros H. apply seedOk_range; lia. Qed.

(** Once the generator state is NaN every swap index is NaN, and a bag is
    filled the same way each time: the last element is moved to the
    property "NaN" and the others one place up. *)
Lemma fillBag_nan (s : Num) :
  random s = (None, NaN) ->
  fillBag emptyArray s = fillBag emptyArray NaN.
Proof.
  intros H. unfold fillBag.
  set (pushed := mkArray (elems emptyArray ++ map Some [tI; tO; tT; tS; tZ; tJ; tL])
                         (props emptyArray)).
  change (Z.to_nat (arrayLength pushed - 1)) with 6%nat.
  assert (E : swapStep (arrayLength pushed - 1) (pushed, s)
              = swapStep (arrayLength pushed - 1) (pushed, NaN))
    by (unfold swapStep; rewrite H; reflexivity).
  cbn [shuffleLoop]. now rewrite E.
Qed.

Lemma create_nan (s : Z) :
  random s = (None, NaN) ->
  create s
  = mkState [Some tI; Some tT; Some tS; Some tZ; Some tJ; Some tL; None]
            [Some tI; Some tT; Some tS; Some tZ; Some tJ; Some tL; None] NaN.
Proof.
  intros H. unfold create. rewrite (fillBag_nan s H).
  vm_compute. reflexivity.
Qed.

(** The first draw after a seed that is not negative is a piece type. *)
Lemma create_first_draw (s : Z) :
  0 <= s -> exists t, fst (next (create s)) = Some t.
Proof.
  intros Hs. destruct (seedOk_or_nan s Hs) as [Hok | Hnan].
  - destruct (create_aligned s Hok) as [_ Hcur].
    pose proof (oneOfEach_length _ Hcur) as Hlen.
    destruct (currentBag (create s)) as [| v rest] eqn:Hbag; [discriminate |].
    assert (Hv : v <> None).
    { intros ->. pose proof (Permutation_in _ Hcur (in_eq None rest)) as Hin.
      simpl in Hin. intuition discriminate. }
    unfold next. rewrite Hbag. cbn [length Nat.eqb]. rewrite Hbag. cbn [shift fst].
    destruct v as [t |]; [exists t; reflexivity | now contradiction Hv].
  - rewrite (create_nan s Hnan). exists tI. reflexivity.
Qed.

End Bag.

(** C5.  The blocks of seven draws, by the seed.  When the first generator
    state is not negative, that is s * 1664525 + 1013904223 >= 0, and the
    seed is below 2^1000, each block of seven consecutive draws that starts
    at a refill boundary (draws 1 to 7, 8 to 14, ...) holds each of the
    seven piece types exactly once.  With seed -1000 the first generator
    state is negative, so is the first swap index, and three types only are
    among the first seven draws, the others being undefined.  With seed
    2^1010 the first product is an infinity, the generator state is NaN,
    and the seventh draw is undefined. *)
Theorem draw_blocks_by_seed :
  (forall (s : Z) (k : nat),
      0 <= s * 1664525 + 1013904223 -> s < 2 ^ 1000 ->
      Permutation (Spec.drawBlock k (BagRandomizer.create s))
                  (map Some TetrominoType_values)) /\
  -1000 * 1664525 + 1013904223 = -650620777 /\
  Spec.drawBlock 0 (BagRandomizer.create (-1000))
  = [Some tI; Some tT; None; Some tL; None; None; None] /\
  ~ Spec.oneOfEach (Spec.drawBlock 0 (BagRandomizer.create (-1000))) /\
  BagRandomizer.random (Fin (2 ^ 1010)) = (None, NaN) /\
  Spec.drawBlock 0 (BagRandomizer.create (2 ^ 1010))
  = [Some tI; Some tT; Some tS; Some tZ; Some tJ; Some tL; None] /\
  ~ Spec.oneOfEach (Spec.drawBlock 0 (BagRandomizer.create (2 ^ 1010))).
Proof.
  split.
  { intros s k Hs Hz. unfold Spec.drawBlock.
    destruct (create_aligned s (seedOk_range s Hs Hz)) as [Hal _].
    apply (aligned_draws_7 _ (aligned_draws_blocks k _ Hal)). }
  split; [reflexivity |].
  assert (H : Spec.drawBlock 0 (BagRandomizer.create (-1000))
              = [Some tI; Some tT; None; Some tL; None; None; None])
    by (vm_compute; reflexivity).
  assert (H' : Spec.drawBlock 0 (BagRandomizer.create (2 ^ 1010))
               = [Some tI; Some tT; Some tS; Some tZ; Some tJ; Some tL; None])
    by (vm_compute; reflexivity).
  split; [exact H |]. split.
  { rewrite H. intros Hperm.
    apply Permutation_sym in Hperm.
    apply (Permutation_in (Some tO)) in Hperm; [| simpl; auto].
    simpl in Hperm. intuition discriminate. }
  split; [vm_compute; reflexivity |].
  split; [exact H' |].
  rewrite H'. intros Hperm.
  apply Permutation_sym in Hperm.
  apply (Permutation_in (Some tO)) in Hperm; [| simpl; auto].
  simpl in Hperm. intuition discriminate.
Qed.

(** [preview] within the two buffered bags leaves the randomizer as it is. *)
Lemma preview_buffered (count : Z) (st : BagRandomizer.State) :
  count <= Z.of_nat (length (BagRandomizer.currentBag st ++ BagRandomizer.nextBag st)) ->
  snd (BagRandomizer.preview count st) = st.
Proof.
  intros H. unfold BagRandomizer.preview.
  destruct (Z.to_nat count) as [| fuel]; cbn [BagRandomizer.previewLoop].
  - now destruct st.
  - destruct (Z.ltb_spec (Z.of_nat (length (BagRandomizer.currentBag st
                                            ++ BagRandomizer.nextBag st))) count);
      [lia | now destruct st].
Qed.

(** [preview] never touches the two bags. *)
Lemma preview_keeps_bags (count : Z) (st : BagRandomizer.State) :
  BagRandomizer.currentBag (snd (BagRandomizer.preview count st))
  = BagRandomizer.currentBag st /\
  BagRandomizer.nextBag (snd (BagRandomizer.preview count st))
  = BagRandomizer.nextBag st.
Proof.
  unfold BagRandomizer.preview.
  destruct (BagRandomizer.previewLoop _ _ _ _). split; reflexivity.
Qed.

(** C2 at a failing input.  With seed 54321 the 15th draw is S; after
    [preview(15)], which generates a third bag and so advances the seed, the
    15th draw is O. *)
Theorem preview_changes_later_draws :
  fst (BagRandomizer.preview 15 (BagRandomizer.create 54321))
  = map Some [tO; tI; tT; tJ; tS; tL; tZ; tL; tS; tI; tO; tZ; tJ; tT; tS] /\
  fst (BagRandomizer.draws 15 (BagRandomizer.create 54321))
  = map Some [tO; tI; tT; tJ; tS; tL; tZ; tL; tS; tI; tO; tZ; tJ; tT; tS] /\
  fst (BagRandomizer.draws 15
         (snd (BagRandomizer.preview 15 (BagRandomizer.create 54321))))
  = map Some [tO; tI; tT; tJ; tS; tL; tZ; tL; tS; tI; tO; tZ; tJ; tT; tO] /\
  BagRandomizer.seed (BagRandomizer.create 54321) = 1801476157 /\
  BagRandomizer.seed (snd (BagRandomizer.preview 15 (BagRandomizer.create 54321)))
  = 33496219.
Proof. vm_compute. repeat split. Qed.


(** ** Line clearing *)

Section ClearLines.

Import Board.

Lemma emptyRow_not_full : Spec.rowFull emptyRow = false.
Proof. reflexivity. Qed.

Lemma nth_error_middle {A : Type} (pre post : list A) (x : A) :
  nth_error (pre ++ x :: post) (length pre) = Some x.
Proof. induction pre as [| a pre IH]; simpl; auto. Qed.

Lemma removeAt_middle {A : Type} (pre post : list A) (x : A) :
  removeAt (pre ++ x :: post) (length pre) = pre ++ post.
Proof. induction pre as [| a pre IH]; simpl; [reflexivity | now rewrite IH]. Qed.

Lemma isLineFull_middle (pre post : list (list Cell)) (x : list Cell) :
  Z.of_nat (length pre) < TOTAL_HEIGHT ->
  isLineFull (pre ++ x :: post) (Z.of_nat (length pre)) = Spec.rowFull x.
Proof.
  intros H. unfold isLineFull, Spec.rowFull.
  destruct (Z.ltb_spec (Z.of_nat (length pre)) 0); [lia |].
  destruct (Z.geb_spec (Z.of_nat (length pre)) TOTAL_HEIGHT); [lia |].
  cbn [orb]. rewrite Nat2Z.id, nth_error_middle.
  destruct (Z.of_nat (length x) =? BOARD_WIDTH); reflexivity.
Qed.

Lemma clearStep_full (pre post : list (list Cell)) (x : list Cell) (cleared : list Z) :
  Z.of_nat (length pre) < TOTAL_HEIGHT -> Spec.rowFull x = true ->
  clearStep (mkClear (pre ++ x :: post) (Z.of_nat (length pre)) cleared)
  = mkClear (emptyRow :: pre ++ post) (Z.of_nat (length pre))
            (cleared ++ [Z.of_nat (length pre)]).
Proof.
  intros H Hx. unfold clearStep. cbn [cgrid crow clearedLines].
  rewrite isLineFull_middle, Hx by assumption.
  now rewrite Nat2Z.id, removeAt_middle.
Qed.

Lemma clearStep_not_full (pre post : list (list Cell)) (x : list Cell) (cleared : list Z) :
  Z.of_nat (length pre) < TOTAL_HEIGHT -> Spec.rowFull x = false ->
  clearStep (mkClear (pre ++ x :: post) (Z.of_nat (length pre)) cleared)
  = mkClear (pre ++ x :: post) (Z.of_nat (length pre) - 1) cleared.
Proof.
  intros H Hx. unfold clearStep. cbn [cgrid crow clearedLines].
  now rewrite isLineFull_middle, Hx by assumption.
Qed.

Lemma clearLoop_S (fuel : nat) (s : ClearState) :
  clearLoop (S fuel) s
  = if crow s >=? 0 then clearLoop fuel (clearStep s) else s.
Proof. reflexivity. Qed.

Lemma clearLoop_done (fuel : nat) (g : Grid) (cleared : list Z) :
  clearLoop fuel (mkClear g (-1) cleared) = mkClear g (-1) cleared.
Proof. destruct fuel; reflexivity. Qed.

Lemma repeat_shift {A : Type} (a : A) (c : nat) (post : list A) :
  repeat a (S c) ++ post = repeat a c ++ a :: post.
Proof. induction c as [| c IH]; simpl in *; [reflexivity | now rewrite IH]. Qed.

(** Above the rows still to scan there are only the empty rows put in: the
    scan walks up through them and stops at the top. *)
Lemma clearLoop_empties (c : nat) : forall (fuel : nat) (post : list (list Cell)) cleared,
  (c <= fuel)%nat -> Z.of_nat c <= TOTAL_HEIGHT ->
  clearLoop fuel (mkClear (repeat emptyRow c ++ post) (Z.of_nat c - 1) cleared)
  = mkClear (repeat emptyRow c ++ post) (-1) cleared.
Proof.
  induction c as [| c IH]; intros fuel post cleared Hfuel Hc.
  - apply clearLoop_done.
  - destruct fuel as [| fuel]; [lia |].
    rewrite clearLoop_S. cbn [crow].
    destruct (Z.geb_spec (Z.of_nat (S c) - 1) 0); [| lia].
    rewrite repeat_shift.
    replace (Z.of_nat (S c) - 1) with (Z.of_nat (length (repeat emptyRow c)))
      by (rewrite repeat_length; lia).
    rewrite clearStep_not_full;
      [| rewrite repeat_length; lia | apply emptyRow_not_full].
    rewrite repeat_length. apply IH; lia.
Qed.

Local Abbreviation notFull := (fun cells => negb (Spec.rowFull cells)).

(** The scan over the rows [top] that are still to be examined, with [c]
    empty rows put in above them and the rows [done] kept below. *)
Lemma clearLoop_scan (top : list (list Cell)) : forall (fuel c : nat) done cleared,
  (2 * length top + c <= fuel)%nat ->
  Z.of_nat (c + length top) <= TOTAL_HEIGHT ->
  clearLoop fuel (mkClear (repeat emptyRow c ++ top ++ done)
                          (Z.of_nat (c + length top) - 1) cleared)
  = mkClear (repeat emptyRow (c + length (filter Spec.rowFull top))
             ++ filter notFull top ++ done)
            (-1)
            (cleared ++ Spec.pushedUp (rev top) (Z.of_nat (length top) - 1) (Z.of_nat c)).
Proof.
  induction top as [| x top' IH] using rev_ind; intros fuel c done cleared Hfuel Hc.
  - cbn [length filter rev Spec.pushedUp app]. rewrite !Nat.add_0_r, app_nil_r.
    apply clearLoop_empties; simpl in *; lia.
  - rewrite length_app in *. cbn [length] in *.
    destruct fuel as [| fuel]; [lia |].
    rewrite clearLoop_S. cbn [crow].
    destruct (Z.geb_spec (Z.of_nat (c + (length top' + 1)) - 1) 0); [| lia].
    rewrite rev_app_distr. cbn [rev app Spec.pushedUp].
    rewrite !filter_app. cbn [filter].
    replace (repeat emptyRow c ++ (top' ++ [x]) ++ done)
      with ((repeat emptyRow c ++ top') ++ x :: done)
      by (rewrite <- !app_assoc; reflexivity).
    replace (Z.of_nat (c + (length top' + 1)) - 1)
      with (Z.of_nat (length (repeat emptyRow c ++ top')))
      by (rewrite length_app, repeat_length; lia).
    assert (Hrow : Z.of_nat (length (repeat emptyRow c ++ top')) < TOTAL_HEIGHT)
      by (rewrite length_app, repeat_length; lia).
    destruct (Spec.rowFull x) eqn:Hx; cbn [negb].
    + rewrite (clearStep_full _ _ _ _ Hrow Hx).
      rewrite length_app, repeat_length.
      replace (emptyRow :: (repeat emptyRow c ++ top') ++ done)
        with (repeat emptyRow (S c) ++ top' ++ done)
        by (rewrite <- app_assoc; reflexivity).
      replace (Z.of_nat (c + length top')) with (Z.of_nat (S c + length top') - 1) by lia.
      rewrite IH by lia.
      rewrite length_app. cbn [length]. rewrite app_nil_r, <- app_assoc. cbn [app].
      replace (Z.of_nat (S c + length top') - 1) with (Z.of_nat (length top' + 1) - 1 + Z.of_nat c)
        by lia.
      replace (Z.of_nat (length top' + 1) - 1 - 1) with (Z.of_nat (length top') - 1) by lia.
      replace (Z.of_nat c + 1) with (Z.of_nat (S c)) by lia.
      replace (S c + length (filter Spec.rowFull top'))%nat
        with (c + (length (filter Spec.rowFull top') + 1))%nat by lia.
      reflexivity.
    + rewrite (clearStep_not_full _ _ _ _ Hrow Hx).
      rewrite length_app, repeat_length.
      replace ((repeat emptyRow c ++ top') ++ x :: done)
        with (repeat emptyRow c ++ top' ++ x :: done)
        by (rewrite <- app_assoc; reflexivity).
      rewrite IH by lia.
      rewrite app_nil_r, <- app_assoc. cbn [app].
      replace (Z.of_nat (length top' + 1) - 1 - 1) with (Z.of_nat (length top') - 1) by lia.
      reflexivity.
Qed.

(** The whole of [clearLines] on a grid of [TOTAL_HEIGHT] rows: the loop
    stops by itself with the row index at -1; the full rows are gone, the
    others keep their order under as many new empty rows; and the returned
    list has, for each full row from the top one down, its original index
    plus the number of full rows below it. *)
Lemma clearLines_effect (g : Grid) :
  length g = Z.to_nat TOTAL_HEIGHT ->
  crow (clearLinesState g) = -1 /\
  clearLines g
  = (repeat emptyRow (length (filter Spec.rowFull g)) ++ filter notFull g,
     rev (Spec.pushedUp (rev g) (TOTAL_HEIGHT - 1) 0)).
Proof.
  intros Hlen. unfold clearLines, clearLinesState.
  pose proof (clearLoop_scan g clearFuel 0 [] []) as H.
  cbn [repeat app Nat.add] in H. rewrite !app_nil_r in H.
  replace (Z.of_nat (length g) - 1) with (TOTAL_HEIGHT - 1) in H
    by (rewrite Hlen; reflexivity).
  rewrite H.
  - cbn [crow cgrid clearedLines Z.of_nat]. split; reflexivity.
  - rewrite Hlen. vm_compute. lia.
  - rewrite Hlen. vm_compute. discriminate.
Qed.

(** Without a full row [clearLines] returns the empty list and the grid it
    was given. *)
Lemma clearLines_nothing_full (g : Grid) :
  length g = Z.to_nat TOTAL_HEIGHT ->
  Forall (fun cells => Spec.rowFull cells = false) g ->
  clearLines g = (g, []).
Proof.
  intros Hlen Hnone. destruct (clearLines_effect g Hlen) as [_ ->].
  assert (Hf : filter Spec.rowFull g = []).
  { clear Hlen. induction Hnone as [| x l Hx _ IH]; simpl; [reflexivity |].
    now rewrite Hx. }
  assert (Hn : filter notFull g = g).
  { clear Hlen Hf. induction Hnone as [| x l Hx _ IH]; simpl; [reflexivity |].
    rewrite Hx. simpl. now rewrite IH. }
  assert (Hp : forall idx c, Spec.pushedUp (rev g) idx c = []).
  { assert (Hrev : Forall (fun cells => Spec.rowFull cells = false) (rev g))
      by (apply Forall_rev; exact Hnone).
    clear - Hrev. induction Hrev as [| x l Hx _ IH]; intros idx c; simpl;
      [reflexivity |]. rewrite Hx. apply IH. }
  rewrite Hf, Hn, Hp. reflexivity.
Qed.

End ClearLines.

(** C1 at a failing input.  With rows 19 and 21 full, [clearLines] empties
    both, yet it returns [20; 21]: row 19 is reported under the index it has
    after row 21 was removed ([clearLines_effect]: its original index plus
    the number of full rows below it).  With rows 20 and 21 full it returns
    [21; 21]. *)
Theorem clearLines_returns_shifted_indices :
  Board.wf_gridb Examples.rows19and21 = true /\
  Board.wf_gridb Examples.rows20and21 = true /\
  Board.isLineFull Examples.rows19and21 19 = true /\
  Board.isLineFull Examples.rows19and21 20 = false /\
  Board.isLineFull Examples.rows19and21 21 = true /\
  Board.clearLines Examples.rows19and21 = (Board.createEmptyGrid, [20; 21]) /\
  Board.clearLines Examples.rows20and21 = (Board.createEmptyGrid, [21; 21]).
Proof. vm_compute. repeat split. Qed.

(** ** The loops of the controller *)

Section Floor.

Ltac filled_cell row col :=
  exists row, col; unfold Spec.filledAt;
  split; [lia | split; [lia |]];
  eexists _, _; split; [reflexivity | split; [reflexivity | discriminate]].

Lemma shape_has_filled_cell (t : TetrominoType) (r : RotationState) :
  exists row col, Spec.filledAt (PieceData.getShape t r) row col.
Proof.
  destruct t, r;
    first [ filled_cell 0 0 | filled_cell 0 1 | filled_cell 0 2
          | filled_cell 1 0 | filled_cell 2 0 ].
Qed.

(** A valid position is above the floor. *)
Lemma valid_above_floor (g : Board.Grid) (t : TetrominoType) (p : Position)
    (r : RotationState) :
  Board.isValidPosition g t p r = true -> py p < TOTAL_HEIGHT.
Proof.
  intros Hvalid. destruct (Z.lt_ge_cases (py p) TOTAL_HEIGHT) as [H | H]; [exact H |].
  assert (Hfalse : Board.isValidPosition g t p r = false).
  { apply rowsValid_false_filled.
    destruct (shape_has_filled_cell t r) as (row & col & Hf).
    exists row, col. split; [exact Hf |].
    right. left. unfold Spec.belowBottom. destruct Hf as (Hrow & _). lia. }
  congruence.
Qed.

Import Game.

Lemma hardDropLoop_stops (fuel : nat) : forall (d : Z) (g : Game) (p : Piece),
  currentPiece g = Some p ->
  (Z.to_nat (TOTAL_HEIGHT - py (position p)) < fuel)%nat ->
  fst (movePiece 0 1 (snd (hardDropLoop fuel d g))) = false.
Proof.
  induction fuel as [| fuel IH]; intros d g p Hp Hfuel; [lia |].
  cbn [hardDropLoop].
  destruct (movePiece_result 0 1 g p Hp) as [Hfail | (g' & Hmove & Hq & _ & _ & Hb & _)].
  - rewrite Hfail. cbn [snd]. now rewrite Hfail.
  - assert (Hvalid : Board.isValidPosition (board g) (type p)
                       (mkPosition (px (position p) + 0) (py (position p) + 1))
                       (rotation p) = true).
    { unfold movePiece in Hmove. rewrite Hp in Hmove.
      destruct (Board.isValidPosition _ _ _ _); [reflexivity | discriminate]. }
    apply valid_above_floor in Hvalid. cbn [py] in Hvalid.
    rewrite Hmove. apply (IH _ g' _ Hq). cbn [position set_position py]. lia.
Qed.

(** [performHardDrop] leaves its loop because the piece cannot go further
    down. *)
Lemma performHardDrop_loop_stops (g : Game) (p : Piece) :
  currentPiece g = Some p ->
  fst (movePiece 0 1 (snd (hardDropLoop (hardDropFuel g) 0 g))) = false.
Proof.
  intros Hp. apply (hardDropLoop_stops _ 0 g p Hp).
  unfold hardDropFuel. rewrite Hp. lia.
Qed.

Lemma ghostLoop_stops (g : Board.Grid) (t : TetrominoType) (x : Z) (r : RotationState)
    (fuel : nat) : forall ghostY,
  (Z.to_nat (TOTAL_HEIGHT - 1 - ghostY) < fuel)%nat ->
  Board.isValidPosition g t
    (mkPosition x (Board.ghostLoop fuel g t x ghostY r + 1)) r = false.
Proof.
  induction fuel as [| fuel IH]; intros ghostY Hfuel; [lia |].
  cbn [Board.ghostLoop].
  destruct (Board.isValidPosition g t (mkPosition x (ghostY + 1)) r) eqn:Hvalid;
    [| exact Hvalid].
  apply valid_above_floor in Hvalid. cbn [py] in Hvalid.
  apply IH. lia.
Qed.

(** [getGhostPosition] returns the last valid position on the way down. *)
Lemma getGhostPosition_rests (g : Board.Grid) (t : TetrominoType) (p : Position)
    (r : RotationState) :
  px (Board.getGhostPosition g t p r) = px p /\
  Board.isValidPosition g t
    (mkPosition (px p) (py (Board.getGhostPosition g t p r) + 1)) r = false.
Proof.
  unfold Board.getGhostPosition. cbn [px py]. split; [reflexivity |].
  destruct (Z.lt_ge_cases (py p) TOTAL_HEIGHT) as [H | H].
  - apply ghostLoop_stops. lia.
  - replace (Z.to_nat (TOTAL_HEIGHT - py p)) with 0%nat by lia.
    cbn [Board.ghostLoop].
    destruct (Board.isValidPosition g t (mkPosition (px p) (py p + 1)) r) eqn:Hvalid;
      [| reflexivity].
    apply valid_above_floor in Hvalid. cbn [py] in Hvalid. lia.
Qed.

End Floor.

(** The two loops of [update] run on doubles.  They end for the timers of
    a game, and for some doubles they do not: with a drop timer of 1e20
    and an interval of 16.666666666666668 the subtraction gives 1e20
    again. *)
Section Gravity.

Import Game.

Lemma gravityStep_dropTimer (di : float) (g : Game) :
  dropTimer (gravityStep di g) = (dropTimer g - di)%float.
Proof.
  unfold gravityStep.
  set (g1 := set_dropTimer (dropTimer g - di)%float g).
  destruct (currentPiece g1) as [p |] eqn:Hp.
  - destruct (movePiece_result 0 1 g1 p Hp)
      as [-> | (g' & -> & _ & _ & _ & _ & _ & Hd & _)].
    + rewrite Hp. destruct (negb (locked p)); reflexivity.
    + exact Hd.
  - unfold movePiece. rewrite Hp. now rewrite Hp.
Qed.

(** A loop of [update] that came to its end within the turns it was given
    makes the same turns when it is given more. *)
Lemma dasLoop_enough (fuel : nat) : forall fuel' i n g,
  dasLoopEnds fuel i n = true -> (fuel <= fuel')%nat ->
  dasLoop fuel' i n g = dasLoop fuel i n g.
Proof.
  induction fuel as [| fuel IH]; intros fuel' i n g Hend Hle; cbn [dasLoopEnds] in Hend.
  - rewrite orb_false_r in Hend. apply negb_true_iff in Hend.
    destruct fuel'; cbn [dasLoop]; [reflexivity | now rewrite Hend].
  - destruct fuel' as [| fuel']; [lia |]. cbn [dasLoop].
    destruct (PrimFloat.ltb i n); [| reflexivity].
    cbn [negb orb] in Hend. apply IH; [exact Hend | lia].
Qed.

Lemma gravityLoop_enough (di : float) (fuel : nat) : forall fuel' g,
  gravityLoopEnds fuel di g = true -> (fuel <= fuel')%nat ->
  gravityLoop fuel' di g = gravityLoop fuel di g.
Proof.
  induction fuel as [| fuel IH]; intros fuel' g Hend Hle; cbn [gravityLoopEnds] in Hend.
  - rewrite orb_false_r in Hend. apply negb_true_iff in Hend.
    destruct fuel'; cbn [gravityLoop]; [reflexivity | now rewrite Hend].
  - destruct fuel' as [| fuel']; [lia |]. cbn [gravityLoop].
    destruct (geb (dropTimer g) di); [| reflexivity].
    cbn [negb orb] in Hend. apply IH; [exact Hend | lia].
Qed.

(** The gravity loop that ended leaves the drop timer below the drop
    interval (or one of the two is NaN). *)
Lemma gravityLoop_stops (di : float) (fuel : nat) : forall g,
  gravityLoopEnds fuel di g = true ->
  geb (dropTimer (gravityLoop fuel di g)) di = false.
Proof.
  induction fuel as [| fuel IH]; intros g Hend; cbn [gravityLoopEnds] in Hend;
    cbn [gravityLoop].
  - rewrite orb_false_r in Hend. now apply negb_true_iff in Hend.
  - destruct (geb (dropTimer g) di) eqn:Hge; [| exact Hge].
    cbn [negb orb] in Hend. now apply IH.
Qed.

(** A drop timer that the subtraction of the interval leaves as it is
    keeps the loop test true: the loop has not ended after any number of
    turns. *)
Lemma gravityLoop_stuck (di : float) (fuel : nat) : forall g,
  geb (dropTimer g) di = true -> (dropTimer g - di)%float = dropTimer g ->
  gravityLoopEnds fuel di g = false.
Proof.
  induction fuel as [| fuel IH]; intros g Hge Hsame; cbn [gravityLoopEnds];
    rewrite Hge; cbn [negb orb]; [reflexivity |].
  apply IH; rewrite gravityStep_dropTimer, Hsame; assumption.
Qed.

Lemma handleDas_enough (fuel fuel' : nat) (deltaTime : float) (g : Game) :
  handleDasEnds fuel deltaTime g = true -> (fuel <= fuel')%nat ->
  handleDas fuel' deltaTime g = handleDas fuel deltaTime g.
Proof.
  unfold handleDasEnds, handleDas. intros Hend Hle.
  destruct (dasDirection g); [| reflexivity].
  cbn [dasTimer set_dasTimer] in *.
  destruct (geb (dasTimer g + deltaTime) DAS_DELAY); [| reflexivity].
  cbn [negb orb] in Hend. now rewrite (dasLoop_enough fuel fuel' _ _ _ Hend Hle).
Qed.

(** When both loops of [update] ended within [fuel] turns, the result of
    [update] is the same for every larger number of turns: it is the state
    in which the code returns. *)
Lemma update_enough (fuel fuel' : nat) (deltaTime : float) (g : Game) :
  updateEnds fuel deltaTime g = true -> (fuel <= fuel')%nat ->
  update fuel' deltaTime g = update fuel deltaTime g.
Proof.
  unfold updateEnds, update. intros Hend Hle.
  destruct (negb (GameState_eqb (state g) PLAYING)); [reflexivity |].
  destruct (currentPiece g); [| reflexivity].
  apply andb_true_iff in Hend. destruct Hend as [Hdas Hgrav].
  rewrite (handleDas_enough fuel fuel' deltaTime g Hdas Hle).
  now rewrite (gravityLoop_enough _ fuel fuel' _ Hgrav Hle).
Qed.

End Gravity.

Section Preview.

Import BagRandomizer.

Lemma index_upper (s : Num) (q : Q) (i : Z) :
  fst (random s) = Some q -> 0 <= i -> Qfloor (q * inject_Z (i + 1)) <= i.
Proof.
  intros Hq Hi. unfold random in Hq.
  destruct s as [z |]; [| discriminate].
  destruct (toDouble (z * 1664525)) as [p1 |]; [| discriminate].
  destruct (toDouble (p1 + 1013904223)) as [sum |]; [| discriminate].
  cbn [fst] in Hq. injection Hq as <-.
  set (r := Z.rem sum 2147483648).
  assert (Hr : r < 2147483648).
  { pose proof (Z.rem_bound_abs sum 2147483648 ltac:(lia)).
    subst r. lia. }
  unfold Qfloor, Qmult, inject_Z. cbn [Qnum Qden]. rewrite Pos.mul_1_r.
  apply Z.lt_succ_r. apply Z.div_lt_upper_bound; [lia | nia].
Qed.

Lemma writeAt_length (a : JsArray) (k : Key) (v : Slot) :
  (forall z, k = KInt z -> z < arrayLength a) ->
  arrayLength (writeAt a k v) = arrayLength a.
Proof.
  intros Hk. unfold writeAt, isIndex, arrayLength in *.
  destruct k as [z |]; [| reflexivity].
  specialize (Hk z eq_refl).
  destruct ((0 <=? z) && (z <? Z.of_nat (length (elems a)))) eqn:Hin.
  - cbn [elems]. now rewrite length_set_nth.
  - destruct (Z.ltb_spec z 0); [reflexivity |].
    apply andb_false_iff in Hin. destruct Hin as [Hin | Hin].
    + apply Z.leb_gt in Hin. lia.
    + apply Z.ltb_ge in Hin. lia.
Qed.

Lemma swapStep_length (i : Z) (bag : JsArray) (s : Num) :
  0 <= i < arrayLength bag ->
  arrayLength (fst (swapStep i (bag, s))) = arrayLength bag.
Proof.
  intros Hi. unfold swapStep.
  pose proof (index_upper s) as Hj.
  destruct (random s) as [q s']. cbn [fst] in *.
  assert (Hkey : forall z,
            match q with
            | Some q0 => KInt (Qfloor (q0 * inject_Z (i + 1)))
            | None => KNaN
            end = KInt z -> z < arrayLength bag).
  { intros z Hz. destruct q as [q |]; [| discriminate].
    specialize (Hj q i eq_refl ltac:(lia)).
    set (j := Qfloor (q * inject_Z (i + 1))) in *. clearbody j.
    assert (z = j) by congruence. lia. }
  assert (Hlen : arrayLength (writeAt bag (KInt i) (readAt bag
                    match q with
                    | Some q0 => KInt (Qfloor (q0 * inject_Z (i + 1)))
                    | None => KNaN
                    end)) = arrayLength bag).
  { apply writeAt_length. intros z Hz. injection Hz as <-. lia. }
  rewrite writeAt_length; [exact Hlen |].
  intros z Hz. rewrite Hlen. now apply Hkey.
Qed.

Lemma shuffleLoop_length (n : nat) : forall i bag (s : Num),
  Z.of_nat n <= i + 1 -> i < arrayLength bag ->
  arrayLength (fst (shuffleLoop n i (bag, s))) = arrayLength bag.
Proof.
  induction n as [| n IH]; intros i bag s Hn Hi; cbn [shuffleLoop]; [reflexivity |].
  pose proof (swapStep_length i bag s ltac:(lia)) as Hlen.
  destruct (swapStep i (bag, s)) as [bag1 s1]. cbn [fst] in Hlen.
  rewrite IH by lia. exact Hlen.
Qed.

(** Whatever the seed, [fillBag] on an empty array leaves seven elements. *)
Lemma fillBag_length (s : Num) : length (elems (fst (fillBag emptyArray s))) = 7%nat.
Proof.
  unfold fillBag.
  set (pushed := mkArray (elems emptyArray ++ map Some [tI; tO; tT; tS; tZ; tJ; tL])
                         (props emptyArray)).
  change (arrayLength pushed - 1) with 6.
  pose proof (shuffleLoop_length (Z.to_nat 6) 6 pushed s ltac:(lia) ltac:(reflexivity)) as H.
  unfold arrayLength in H at 1. change (arrayLength pushed) with 7 in H. lia.
Qed.

Lemma previewLoop_stops (fuel : nat) : forall (count : Z) (allPieces : list Slot) (s : Num),
  count <= Z.of_nat (length allPieces) + 7 * Z.of_nat fuel ->
  count <= Z.of_nat (length (fst (previewLoop fuel count allPieces s))).
Proof.
  induction fuel as [| fuel IH]; intros count allPieces s H; cbn [previewLoop].
  - cbn [fst]. lia.
  - destruct (Z.ltb_spec (Z.of_nat (length allPieces)) count); [| cbn [fst]; lia].
    pose proof (fillBag_length s) as H7.
    destruct (fillBag emptyArray s) as [tempBag s']. cbn [fst] in H7.
    apply IH. rewrite length_app, H7. lia.
Qed.

(** [preview(count)] leaves its loop with enough types and returns [count]
    of them. *)
Lemma preview_length (count : Z) (st : State) :
  0 <= count -> length (fst (preview count st)) = Z.to_nat count.
Proof.
  intros Hc. unfold preview.
  pose proof (previewLoop_stops (Z.to_nat count) count
                (currentBag st ++ nextBag st) (seed st) ltac:(lia)) as H.
  destruct (previewLoop _ _ _ _) as [allPieces s']. cbn [fst] in *.
  unfold slice0. destruct (Z.ltb_spec count 0); [lia |].
  apply firstn_length_le. lia.
Qed.

End Preview.

(** ** Reachable controllers are sound *)

Section Sound.

Import Game.

Lemma setZ_length {A : Type} (l : list A) (i : Z) (v : A) : length (setZ l i v) = length l.
Proof. unfold setZ. destruct (i <? 0); [reflexivity | apply length_set_nth]. Qed.

Lemma Forall_set_nth_update {A : Type} (P : A -> Prop) (f : A -> A) (d : A) (l : list A) :
  (forall x, P x -> P (f x)) -> Forall P l ->
  forall n, Forall P (set_nth l n (f (nth n l d))).
Proof.
  intros Hf Hl. induction Hl as [| a l Ha Hl IH]; intros [| n]; simpl;
    constructor; auto.
Qed.

Lemma Forall_setZ_update {A : Type} (P : A -> Prop) (f : A -> A) (d : A) (l : list A)
    (i : Z) :
  (forall x, P x -> P (f x)) -> Forall P l ->
  Forall P (setZ l i (f (nthZ l i d))).
Proof.
  intros Hf Hl. unfold setZ, nthZ. destruct (i <? 0); [exact Hl |].
  now apply Forall_set_nth_update.
Qed.

Lemma lockCell_wf (t : TetrominoType) (p : Position) (row col v : Z) (g : Board.Grid) :
  Board.wf_grid g -> Board.wf_grid (Board.lockCell t p row col v g).
Proof.
  intros [Hlen Hrows]. unfold Board.lockCell. destruct (v =? 0); [now split |].
  destruct (_ && _); [| now split]. split.
  - now rewrite setZ_length.
  - apply (Forall_setZ_update _ (fun cells => setZ cells (px p + col) (Some t)));
      [| exact Hrows].
    intros cells Hc. now rewrite setZ_length.
Qed.

Lemma lockRow_wf (t : TetrominoType) (p : Position) (row : Z) (cells : list Z) :
  forall col g, Board.wf_grid g -> Board.wf_grid (Board.lockRow t p row col cells g).
Proof.
  induction cells as [| v rest IH]; intros col g Hg; cbn [Board.lockRow]; [exact Hg |].
  apply IH. now apply lockCell_wf.
Qed.

Lemma lockRows_wf (t : TetrominoType) (p : Position) (shape : list (list Z)) :
  forall row g, Board.wf_grid g -> Board.wf_grid (Board.lockRows t p row shape g).
Proof.
  induction shape as [| cells rest IH]; intros row g Hg; cbn [Board.lockRows]; [exact Hg |].
  apply IH. now apply lockRow_wf.
Qed.

Lemma lockPiece_wf (g : Board.Grid) (t : TetrominoType) (p : Position)
    (r : RotationState) :
  Board.wf_grid g -> Board.wf_grid (Board.lockPiece g t p r).
Proof. apply lockRows_wf. Qed.

Lemma Forall_filter {A : Type} (P : A -> Prop) (f : A -> bool) (l : list A) :
  Forall P l -> Forall P (filter f l).
Proof.
  induction 1 as [| a l Ha _ IH]; simpl; [constructor |].
  destruct (f a); [constructor |]; assumption.
Qed.

Lemma clearLines_wf (g : Board.Grid) :
  Board.wf_grid g -> Board.wf_grid (fst (Board.clearLines g)).
Proof.
  intros [Hlen Hrows]. destruct (clearLines_effect g Hlen) as [_ ->]. cbn [fst]. split.
  - rewrite length_app, repeat_length, filter_length. exact Hlen.
  - apply Forall_app. split.
    + apply Forall_forall. intros cells Hin. apply repeat_spec in Hin. now subst.
    + now apply Forall_filter.
Qed.

Lemma wf_gridb_true (g : Board.Grid) : Board.wf_gridb g = true -> Board.wf_grid g.
Proof.
  unfold Board.wf_gridb, Board.wf_grid. intros H.
  apply andb_true_iff in H. destruct H as [Hlen Hrows].
  split; [now apply Nat.eqb_eq |].
  apply Forall_forall. intros cells Hin.
  rewrite forallb_forall in Hrows. apply Nat.eqb_eq. now apply Hrows.
Qed.

Lemma createEmptyGrid_wf : Board.wf_grid Board.createEmptyGrid.
Proof.
  split; [reflexivity |].
  apply Forall_forall. intros cells Hin. apply repeat_spec in Hin. now subst.
Qed.

Lemma oneOfEach_no_hole (l : list BagRandomizer.Slot) :
  Spec.oneOfEach l -> Forall (fun v => v <> None) l.
Proof.
  intros H. apply Forall_forall. intros v Hv Hnone. subst v.
  apply (Permutation_in _ H) in Hv. simpl in Hv. intuition discriminate.
Qed.

Lemma create_ready (now : Z) :
  Game.validClock now -> Spec.bagReady (BagRandomizer.create now).
Proof.
  intros Hnow.
  destruct (create_aligned now (seedOk_clock now Hnow)) as [(Hs & Hnext & _) Hcur].
  repeat split; auto using oneOfEach_no_hole.
Qed.

(** The next draw from a ready bag is a piece type, and the bag stays
    ready. *)
Lemma bag_next_some (st : BagRandomizer.State) :
  Spec.bagReady st ->
  (exists t, fst (BagRandomizer.next st) = Some t) /\
  Spec.bagReady (snd (BagRandomizer.next st)).
Proof.
  destruct st as [cb nb s]. unfold Spec.bagReady.
  cbn [BagRandomizer.currentBag BagRandomizer.nextBag BagRandomizer.seed].
  intros (Hs & Hnb & Hcb).
  destruct cb as [| v rest].
  - pose proof (oneOfEach_length nb Hnb) as Hlen.
    pose proof (oneOfEach_no_hole nb Hnb) as Hsome.
    destruct nb as [| v rest]; [discriminate |].
    rewrite next_refill. cbn [fst snd].
    cbn [BagRandomizer.currentBag BagRandomizer.nextBag BagRandomizer.seed].
    destruct (fillBag_ok s Hs) as [Hnew Hs'].
    inversion Hsome as [| ? ? Hv Hrest]; subst.
    split; [destruct v as [t |]; [now exists t | contradiction] |].
    repeat split; assumption.
  - unfold BagRandomizer.next.
    cbn [BagRandomizer.currentBag BagRandomizer.nextBag BagRandomizer.seed
         length Nat.eqb BagRandomizer.shift fst snd].
    inversion Hcb as [| ? ? Hv Hrest]; subst.
    split; [destruct v as [t |]; [now exists t | contradiction] |].
    repeat split; assumption.
Qed.

Lemma previewLoop_seedOk (fuel : nat) : forall count allPieces s,
  Spec.seedOk s -> Spec.seedOk (snd (BagRandomizer.previewLoop fuel count allPieces s)).
Proof.
  induction fuel as [| fuel IH]; intros count allPieces s Hs;
    cbn [BagRandomizer.previewLoop]; [exact Hs |].
  destruct (_ <? count); [| exact Hs].
  destruct (fillBag_ok s Hs) as [_ Hs'].
  destruct (BagRandomizer.fillBag BagRandomizer.emptyArray s) as [tempBag s'].
  now apply IH.
Qed.

Lemma preview_ready (count : Z) (st : BagRandomizer.State) :
  Spec.bagReady st -> Spec.bagReady (snd (BagRandomizer.preview count st)).
Proof.
  intros (Hs & Hnb & Hcb). unfold BagRandomizer.preview.
  pose proof (previewLoop_seedOk (Z.to_nat count) count
                (BagRandomizer.currentBag st ++ BagRandomizer.nextBag st)
                (BagRandomizer.seed st) Hs) as H.
  destruct (BagRandomizer.previewLoop _ _ _ _) as [allPieces s']. cbn [fst snd] in *.
  repeat split; assumption.
Qed.

Local Abbreviation sound := Spec.sound.

Lemma sound_same (g g' : Game) :
  board g' = board g -> bag g' = bag g -> sound g -> sound g'.
Proof. unfold Spec.sound. intros -> ->. auto. Qed.

Lemma movePiece_sound (dx dy : Z) (g : Game) : sound g -> sound (snd (movePiece dx dy g)).
Proof.
  unfold movePiece. destruct (currentPiece g) as [p |]; [| auto].
  destruct (Board.isValidPosition _ _ _ _); [| auto].
  destruct (negb (dx =? 0) && locked p); apply sound_same; reflexivity.
Qed.

Lemma applyRotation_sound (p : Piece) (pos : Position) (r : RotationState) (g : Game) :
  sound g -> sound (applyRotation p pos r g).
Proof. unfold applyRotation. destruct (locked p); apply sound_same; reflexivity. Qed.

Lemma rotatePiece_sound (clockwise : bool) (g : Game) :
  sound g -> sound (snd (rotatePiece clockwise g)).
Proof.
  intros Hg. unfold rotatePiece. destruct (currentPiece g) as [p |]; [| exact Hg].
  destruct (Board.isValidPosition _ _ _ _); [now apply applyRotation_sound |].
  induction (PieceData.getWallKickOffsets _ _ _) as [| k rest IH]; cbn [tryKicks];
    [exact Hg |].
  destruct (Board.isValidPosition _ _ _ _); [now apply applyRotation_sound | exact IH].
Qed.

Lemma spawnNextPiece_sound (g : Game) : sound g -> sound (spawnNextPiece g).
Proof.
  intros [Hb Hbag]. unfold spawnNextPiece.
  destruct (bag_next_some (bag g) Hbag) as [_ Hready].
  destruct (BagRandomizer.next (bag g)) as [[t |] bag']; cbn [snd] in Hready.
  - destruct (negb (Board.isValidPosition _ _ _ _)); split; assumption.
  - split; assumption.
Qed.

Lemma dasLoop_sound (fuel : nat) : forall i n g,
  sound g -> sound (dasLoop fuel i n g).
Proof.
  induction fuel as [| fuel IH]; intros i n g Hg; cbn [dasLoop]; [exact Hg |].
  destruct (PrimFloat.ltb i n); [| exact Hg].
  apply IH. unfold dasStep.
  destruct (dasDirection g) as [[|] |]; now apply movePiece_sound.
Qed.

Lemma handleDas_sound (fuel : nat) (deltaTime : float) (g : Game) : sound g -> sound (handleDas fuel deltaTime g).
Proof.
  intros Hg. unfold handleDas. destruct (dasDirection g); [| exact Hg].
  destruct (geb _ _); [| exact Hg].
  match goal with
  | |- sound (set_dasTimer _ ?g2) => apply (sound_same g2); [reflexivity | reflexivity |]
  end.
  now apply dasLoop_sound.
Qed.

Lemma gravityStep_sound (di : float) (g : Game) : sound g -> sound (gravityStep di g).
Proof.
  intros Hg. unfold gravityStep.
  pose proof (movePiece_sound 0 1 (set_dropTimer (dropTimer g - di)%float g) Hg) as H.
  destruct (movePiece 0 1 _) as [moved g2]. cbn [snd] in H.
  destruct moved; [exact H |].
  destruct (currentPiece g2) as [p |]; [| exact H].
  destruct (negb (locked p)); [| exact H].
  revert H. apply sound_same; reflexivity.
Qed.

Lemma gravityLoop_sound (di : float) (fuel : nat) : forall g,
  sound g -> sound (gravityLoop fuel di g).
Proof.
  induction fuel as [| fuel IH]; intros g Hg; cbn [gravityLoop]; [exact Hg |].
  destruct (geb _ _); [| exact Hg]. apply IH. now apply gravityStep_sound.
Qed.

Lemma hardDropLoop_sound (fuel : nat) : forall d g,
  sound g -> sound (snd (hardDropLoop fuel d g)).
Proof.
  induction fuel as [| fuel IH]; intros d g Hg; cbn [hardDropLoop]; [exact Hg |].
  pose proof (movePiece_sound 0 1 g Hg) as H.
  destruct (movePiece 0 1 g) as [moved g1]. cbn [snd] in H.
  destruct moved; [now apply IH | exact H].
Qed.

Lemma lockCurrentPiece_sound (g : Game) : sound g -> sound (lockCurrentPiece g).
Proof.
  intros [Hb Hbag]. unfold lockCurrentPiece.
  destruct (currentPiece g) as [p |]; [| split; assumption].
  cbv beta zeta. unfold Board.isGameOver.
  assert (H1 : sound (clearAndScore (lockAndAnnounce p g))).
  { destruct (lockAndAnnounce_frame p g) as (_ & Hbag1 & _ & Hb1).
    destruct (clearAndScore_frame (lockAndAnnounce p g)) as (_ & Hbag2 & _).
    split; [| congruence].
    unfold clearAndScore.
    pose proof (clearLines_wf (board (lockAndAnnounce p g))) as Hwf.
    rewrite Hb1 in *. specialize (Hwf (lockPiece_wf _ _ _ _ Hb)).
    destruct (Board.clearLines _) as [grid' cl]. cbn [fst] in Hwf.
    destruct (Z.of_nat (length cl) >? 0); [| exact Hwf].
    destruct (handleLineClears_frame (Z.of_nat (length cl))
                (set_board grid' (lockAndAnnounce p g))) as (_ & _ & Hb3 & _).
    cbn [board emit set_events]. rewrite Hb3. exact Hwf. }
  destruct (lines _ >=? 999); [exact H1 |].
  apply (sound_same (spawnNextPiece (clearAndScore (lockAndAnnounce p g))));
    [reflexivity | reflexivity |].
  now apply spawnNextPiece_sound.
Qed.

Lemma performHardDrop_sound (g : Game) : sound g -> sound (performHardDrop g).
Proof.
  intros Hg. unfold performHardDrop. destruct (currentPiece g); [| exact Hg].
  pose proof (hardDropLoop_sound (hardDropFuel g) 0 g Hg) as H.
  destruct (hardDropLoop _ 0 g) as [d g1]. cbn [snd] in H.
  apply lockCurrentPiece_sound. revert H. apply sound_same; reflexivity.
Qed.

Lemma performHold_sound (g : Game) : sound g -> sound (performHold g).
Proof.
  intros Hg. unfold performHold. destruct (currentPiece g); [| exact Hg].
  destruct (negb (canHold g)); [exact Hg |].
  destruct (holdPiece g).
  - revert Hg. apply sound_same; reflexivity.
  - apply (sound_same (spawnNextPiece g)); [reflexivity | reflexivity |].
    now apply spawnNextPiece_sound.
Qed.

Lemma update_sound (fuel : nat) (deltaTime : float) (g : Game) : sound g -> sound (update fuel deltaTime g).
Proof.
  intros Hg. unfold update. destruct (negb _); [exact Hg |].
  destruct (currentPiece g) as [p0 |]; [| exact Hg].
  match goal with
  | |- sound (handleLockDelay _ ?g3) => assert (H3 : sound g3)
  end.
  { apply gravityLoop_sound.
    apply (sound_same (handleDas fuel deltaTime g)); [reflexivity | reflexivity |].
    now apply handleDas_sound. }
  unfold handleLockDelay.
  match goal with
  | |- sound (match currentPiece ?g3 with _ => _ end) => destruct (currentPiece g3) as [p |]
  end; [| exact H3].
  destruct (locked p).
  - destruct (geb _ _).
    + apply lockCurrentPiece_sound. revert H3. apply sound_same; reflexivity.
    + revert H3. apply sound_same; reflexivity.
  - revert H3. apply sound_same; reflexivity.
Qed.

Lemma pressMove_sound (dx : Z) (d : DasDirection) (pressed : bool) (g : Game) :
  sound g -> sound (pressMove dx d pressed g).
Proof.
  intros Hg. unfold pressMove. destruct pressed.
  - apply (sound_same (snd (movePiece dx 0 g))); [reflexivity | reflexivity |].
    now apply movePiece_sound.
  - destruct (dasDirection g) as [[|] |], d; try exact Hg;
      revert Hg; apply sound_same; reflexivity.
Qed.

Lemma handleInput_sound (a : InputAction) (pressed : bool) (g : Game) :
  sound g -> sound (handleInput a pressed g).
Proof.
  intros Hg. unfold handleInput. destruct (negb _).
  { destruct a; try exact Hg.
    destruct (pressed && _); [| exact Hg]. revert Hg. apply sound_same; reflexivity. }
  destruct a, pressed; try exact Hg;
    try (revert Hg; apply sound_same; reflexivity);
    destruct (currentPiece g); try exact Hg;
    try (now apply pressMove_sound);
    try (now apply rotatePiece_sound).
  - pose proof (movePiece_sound 0 1 g Hg) as H.
    destruct (movePiece 0 1 g) as [moved g1]. cbn [snd] in H.
    destruct moved; [| exact H]. revert H. apply sound_same; reflexivity.
  - now apply performHardDrop_sound.
  - destruct (canHold g); cbn [andb]; [now apply performHold_sound | exact Hg].
Qed.

Lemma reset_sound (now : Z) (g : Game) : validClock now -> sound (reset now g).
Proof.
  intros Hnow. split; [apply createEmptyGrid_wf | now apply create_ready].
Qed.

(** Every reachable controller has a board of [TOTAL_HEIGHT] rows of
    [BOARD_WIDTH] cells, so that every read of the grid is inside it and
    [clearLines] works as [clearLines_effect] says, and a ready bag, so that
    [spawnNextPiece] always draws a piece type. *)
Lemma reachable_sound (g : Game) : reachable g -> sound g.
Proof.
  induction 1 as [now Hnow | g c Hg IH Hc].
  - split; [apply createEmptyGrid_wf | now apply create_ready].
  - destruct c; cbn [call validCall] in *.
    + unfold start. apply spawnNextPiece_sound.
      apply (sound_same (reset now g)); [reflexivity | reflexivity |].
      now apply reset_sound.
    + now apply reset_sound.
    + now apply update_sound.
    + now apply handleInput_sound.
    + unfold getNextPieces.
      pose proof (preview_ready count (bag g) (proj2 IH)) as H.
      destruct (BagRandomizer.preview count (bag g)) as [ps bag']. cbn [snd] in *.
      split; [exact (proj1 IH) | exact H].
Qed.

End Sound.

(** * Further properties of the code *)

(** ** Shapes, rotation states and kick tables *)

Section Shapes.

(** X1.  [getShape]: every matrix of the table is a square of side 4 (I and
    O) or 3 (the others), holds only 0 and 1, and has exactly four filled
    cells; the O piece has one matrix for its four rotation states; for every
    other type the matrix of the next rotation state clockwise is the matrix
    turned a quarter clockwise. *)
Theorem shapes_are_quarter_turns :
  forall (t : TetrominoType) (r : RotationState),
    Spec.filledCount (PieceData.getShape t r) = 4%nat /\
    Spec.squareOf (Spec.boxSide t) (PieceData.getShape t r) = true /\
    Forall (Forall (fun v => v = 0 \/ v = 1)) (PieceData.getShape t r) /\
    PieceData.getShape tO r = PieceData.getShape tO SPAWN /\
    (t <> tO ->
     PieceData.getShape t (PieceData.getNextRotationCW r)
     = Spec.turnCW (PieceData.getShape t r)).
Proof.
  intros t r.
  split; [destruct t, r; reflexivity |].
  split; [destruct t, r; reflexivity |].
  split.
  { destruct t, r;
      repeat (apply Forall_cons || apply Forall_nil); (now left) || (now right). }
  split; [destruct r; reflexivity |].
  intros Ht. destruct t, r; try reflexivity; now contradiction Ht.
Qed.

(** X2.  [getNextRotationCW] and [getNextRotationCCW] undo each other; four
    turns clockwise come back to the start, one turn counter-clockwise is
    three turns clockwise, and no turn leaves the state where it was. *)
Theorem rotation_states_cycle :
  forall r : RotationState,
    PieceData.getNextRotationCCW (PieceData.getNextRotationCW r) = r /\
    PieceData.getNextRotationCW (PieceData.getNextRotationCCW r) = r /\
    PieceData.getNextRotationCW
      (PieceData.getNextRotationCW
         (PieceData.getNextRotationCW (PieceData.getNextRotationCW r))) = r /\
    PieceData.getNextRotationCCW r
    = PieceData.getNextRotationCW
        (PieceData.getNextRotationCW (PieceData.getNextRotationCW r)) /\
    PieceData.getNextRotationCW r <> r /\
    PieceData.getNextRotationCCW r <> r.
Proof.
  intros r. destruct r; cbv; repeat split; discriminate.
Qed.

Lemma kicks_reversed (t : TetrominoType) (from to : RotationState) :
  PieceData.getWallKickOffsets t to from
  = map Spec.opposite (PieceData.getWallKickOffsets t from to).
Proof. destruct t, from, to; reflexivity. Qed.

(** X3.  [getWallKickOffsets]: the O piece has no kick; every other type has
    four for a quarter turn either way, and none for a pair of states that
    is not a quarter turn (the key is missing from the table); the kicks of
    the turn back are the opposites of the kicks of the turn, in the same
    order. *)
Theorem wall_kick_tables :
  forall (t : TetrominoType) (from to : RotationState),
    PieceData.getWallKickOffsets tO from to = [] /\
    (t <> tO ->
     to = PieceData.getNextRotationCW from \/ to = PieceData.getNextRotationCCW from ->
     length (PieceData.getWallKickOffsets t from to) = 4%nat) /\
    (to = from \/ to = PieceData.getNextRotationCW (PieceData.getNextRotationCW from) ->
     PieceData.getWallKickOffsets t from to = []) /\
    PieceData.getWallKickOffsets t to from
    = map Spec.opposite (PieceData.getWallKickOffsets t from to).
Proof.
  intros t from to.
  split; [reflexivity |].
  split.
  { intros Ht [H | H]; subst to; destruct t, from; try reflexivity;
      now contradiction Ht. }
  split.
  { intros [H | H]; subst to; destruct t, from; reflexivity. }
  apply kicks_reversed.
Qed.

End Shapes.

(** ** Locking a piece into the grid *)

Section LockPiece.

Lemma nthZ_setZ {A : Type} (l : list A) (i j : Z) (v d : A) :
  0 <= i < Z.of_nat (length l) ->
  nthZ (setZ l i v) j d = if j =? i then v else nthZ l j d.
Proof.
  intros Hi. unfold nthZ, setZ.
  destruct (Z.ltb_spec i 0) as [Hneg | _]; [lia |].
  destruct (Z.eqb_spec j i) as [-> | Hne].
  - destruct (Z.ltb_spec i 0) as [Hneg | _]; [lia |].
    apply nth_set_nth_eq. lia.
  - destruct (Z.ltb_spec j 0) as [_ | Hj]; [reflexivity |].
    apply nth_set_nth_neq. lia.
Qed.

Lemma wf_grid_row (g : Board.Grid) (y : Z) :
  Board.wf_grid g -> 0 <= y < TOTAL_HEIGHT ->
  Z.of_nat (length (nthZ g y [])) = BOARD_WIDTH.
Proof.
  intros [Hlen Hrows] Hy. unfold nthZ.
  destruct (Z.ltb_spec y 0) as [Hneg | _]; [lia |].
  rewrite Forall_forall in Hrows.
  rewrite (Hrows (nth (Z.to_nat y) g [])).
  - reflexivity.
  - apply nth_In. rewrite Hlen. unfold TOTAL_HEIGHT, BOARD_HEIGHT, HIDDEN_ROWS in *. lia.
Qed.

Lemma lockCell_cellAt (t : TetrominoType) (p : Position) (row col v : Z) (g : Board.Grid)
    (y x : Z) :
  Board.wf_grid g -> Spec.inField y x ->
  Board.cellAt (Board.lockCell t p row col v g) y x
  = if negb (v =? 0) && (y =? py p + row) && (x =? px p + col)
    then Some t else Board.cellAt g y x.
Proof.
  intros Hwf [Hy Hx]. unfold Board.lockCell.
  destruct (Z.eqb_spec v 0) as [Hv | Hv]; [reflexivity |]. cbn [negb andb].
  destruct ((py p + row >=? 0) && (py p + row <? TOTAL_HEIGHT)
            && (px p + col >=? 0) && (px p + col <? BOARD_WIDTH)) eqn:Hin.
  - apply andb_prop in Hin. destruct Hin as [Hin H4].
    apply andb_prop in Hin. destruct Hin as [Hin H3].
    apply andb_prop in Hin. destruct Hin as [H1 H2].
    assert (Hrow : 0 <= py p + row < TOTAL_HEIGHT) by lia.
    assert (Hcol : 0 <= px p + col < BOARD_WIDTH) by lia.
    unfold Board.cellAt. rewrite nthZ_setZ.
    + destruct (Z.eqb_spec y (py p + row)) as [-> | Hne]; [| reflexivity].
      cbn [andb]. apply nthZ_setZ.
      rewrite (wf_grid_row g _ Hwf Hrow). exact Hcol.
    + destruct Hwf as [Hlen _]. rewrite Hlen. lia.
  - destruct (Z.eqb_spec y (py p + row)) as [Hy' | Hy']; [| reflexivity].
    destruct (Z.eqb_spec x (px p + col)) as [Hx' | Hx']; [| reflexivity].
    exfalso. subst y x. unfold Spec.inField in *.
    assert (Hall : (py p + row >=? 0) && (py p + row <? TOTAL_HEIGHT)
                   && (px p + col >=? 0) && (px p + col <? BOARD_WIDTH) = true).
    { repeat (apply andb_true_intro; split); lia. }
    congruence.
Qed.

Lemma nthZ_cons {A : Type} (v : A) (rest : list A) (k : Z) (d : A) :
  0 <= k -> nthZ (v :: rest) k d = if k =? 0 then v else nthZ rest (k - 1) d.
Proof.
  intros Hk. unfold nthZ.
  destruct (Z.ltb_spec k 0) as [Hneg | _]; [lia |].
  destruct (Z.eqb_spec k 0) as [-> | Hne]; [reflexivity |].
  destruct (Z.ltb_spec (k - 1) 0) as [Hneg | _]; [lia |].
  replace (Z.to_nat k) with (S (Z.to_nat (k - 1))) by lia. reflexivity.
Qed.

Lemma nthZ_nil {A : Type} (k : Z) (d : A) : nthZ [] k d = d.
Proof. unfold nthZ. destruct (k <? 0); [reflexivity |]. now destruct (Z.to_nat k). Qed.

Lemma lockRow_cellAt (t : TetrominoType) (p : Position) (row : Z) (cells : list Z)
    (y x : Z) : forall (col : Z) (g : Board.Grid),
  Board.wf_grid g -> Spec.inField y x ->
  Board.cellAt (Board.lockRow t p row col cells g) y x
  = if (y =? py p + row) && (0 <=? x - px p - col)
       && negb (nthZ cells (x - px p - col) 0 =? 0)
    then Some t else Board.cellAt g y x.
Proof.
  induction cells as [| v rest IH]; intros col g Hwf Hin; cbn [Board.lockRow].
  - rewrite nthZ_nil. cbn. now rewrite !andb_false_r.
  - rewrite IH by (auto using lockCell_wf).
    rewrite lockCell_cellAt by assumption.
    destruct (Z.eqb_spec y (py p + row)) as [Hy | Hy];
      [| now rewrite !andb_false_r].
    cbn [andb]. rewrite andb_true_r.
    destruct (Z.leb_spec 0 (x - px p - col)) as [Hc | Hc].
    + rewrite nthZ_cons by assumption.
      destruct (Z.eqb_spec (x - px p - col) 0) as [H0 | H0].
      * destruct (Z.leb_spec 0 (x - px p - (col + 1))) as [Hc' | _]; [lia |].
        cbn [andb].
        destruct (Z.eqb_spec x (px p + col)) as [_ | Hne]; [| lia].
        now destruct (v =? 0).
      * destruct (Z.leb_spec 0 (x - px p - (col + 1))) as [_ | Hc']; [| lia].
        cbn [andb].
        replace (x - px p - (col + 1)) with (x - px p - col - 1) by lia.
        destruct (negb (nthZ rest (x - px p - col - 1) 0 =? 0)); [reflexivity |].
        destruct (Z.eqb_spec x (px p + col)) as [Heq | _]; [lia |].
        now rewrite andb_false_r.
    + destruct (Z.leb_spec 0 (x - px p - (col + 1))) as [Hc' | _]; [lia |].
      cbn [andb].
      destruct (Z.eqb_spec x (px p + col)) as [Heq | _]; [lia |].
      now rewrite andb_false_r.
Qed.

Lemma lockRows_cellAt (t : TetrominoType) (p : Position) (shape : list (list Z))
    (y x : Z) : forall (row : Z) (g : Board.Grid),
  Board.wf_grid g -> Spec.inField y x ->
  Board.cellAt (Board.lockRows t p row shape g) y x
  = if (0 <=? y - py p - row) && (0 <=? x - px p)
       && negb (nthZ (nthZ shape (y - py p - row) []) (x - px p) 0 =? 0)
    then Some t else Board.cellAt g y x.
Proof.
  induction shape as [| cells rest IH]; intros row g Hwf Hin; cbn [Board.lockRows].
  - rewrite !nthZ_nil. cbn. now rewrite !andb_false_r.
  - rewrite IH by (auto using lockRow_wf).
    rewrite lockRow_cellAt by assumption.
    replace (x - px p - 0) with (x - px p) by lia.
    destruct (Z.leb_spec 0 (y - py p - row)) as [Hr | Hr].
    + rewrite (nthZ_cons cells rest) by assumption.
      destruct (Z.eqb_spec (y - py p - row) 0) as [H0 | H0].
      * destruct (Z.leb_spec 0 (y - py p - (row + 1))) as [Hr' | _]; [lia |].
        cbn [andb].
        destruct (Z.eqb_spec y (py p + row)) as [_ | Hne]; [| lia].
        reflexivity.
      * destruct (Z.leb_spec 0 (y - py p - (row + 1))) as [_ | Hr']; [| lia].
        cbn [andb].
        replace (y - py p - (row + 1)) with (y - py p - row - 1) by lia.
        destruct ((0 <=? x - px p)
                  && negb (nthZ (nthZ rest (y - py p - row - 1) []) (x - px p) 0 =? 0));
          [reflexivity |].
        destruct (Z.eqb_spec y (py p + row)) as [Heq | _]; [lia |].
        reflexivity.
    + destruct (Z.leb_spec 0 (y - py p - (row + 1))) as [Hr' | _]; [lia |].
      cbn [andb].
      destruct (Z.eqb_spec y (py p + row)) as [Heq | _]; [lia |].
      reflexivity.
Qed.

Lemma lockPiece_cellAt (g : Board.Grid) (t : TetrominoType) (p : Position)
    (r : RotationState) (y x : Z) :
  Board.wf_grid g -> Spec.inField y x ->
  Board.cellAt (Board.lockPiece g t p r) y x
  = if Spec.filledb (PieceData.getShape t r) (y - py p) (x - px p)
    then Some t else Board.cellAt g y x.
Proof.
  intros Hwf Hin. unfold Board.lockPiece, Spec.filledb.
  rewrite lockRows_cellAt by assumption.
  now replace (y - py p - 0) with (y - py p) by lia.
Qed.

End LockPiece.

Section LockAndCollide.

Lemma nthZ_nth_error {A : Type} (l : list A) (k : Z) (d : A) :
  0 <= k ->
  nthZ l k d = match nth_error l (Z.to_nat k) with Some v => v | None => d end.
Proof.
  intros Hk. unfold nthZ. destruct (Z.ltb_spec k 0) as [Hneg | _]; [lia |].
  destruct (nth_error l (Z.to_nat k)) eqn:He.
  - now apply nth_error_nth.
  - apply nth_overflow. now apply nth_error_None.
Qed.

Lemma filledAt_filledb (shape : PieceData.Shape) (row col : Z) :
  Spec.filledAt shape row col <-> Spec.filledb shape row col = true.
Proof.
  unfold Spec.filledAt, Spec.filledb. split.
  - intros (Hr & Hc & cells & v & Hcells & Hv & Hne).
    rewrite (nthZ_nth_error shape) by assumption. rewrite Hcells.
    rewrite (nthZ_nth_error cells) by assumption. rewrite Hv.
    destruct (Z.leb_spec 0 row); [| lia]. destruct (Z.leb_spec 0 col); [| lia].
    destruct (Z.eqb_spec v 0); [contradiction | reflexivity].
  - intros H. apply andb_prop in H. destruct H as [H Hne].
    apply andb_prop in H. destruct H as [Hr Hc].
    apply Z.leb_le in Hr, Hc. split; [exact Hr |]. split; [exact Hc |].
    rewrite (nthZ_nth_error shape) in Hne by assumption.
    destruct (nth_error shape (Z.to_nat row)) as [cells |] eqn:Hcells.
    + rewrite (nthZ_nth_error cells) in Hne by assumption.
      destruct (nth_error cells (Z.to_nat col)) as [v |] eqn:Hv; [| discriminate].
      exists cells, v. split; [reflexivity |]. split; [exact Hv |].
      destruct (Z.eqb_spec v 0); [discriminate | assumption].
    + rewrite nthZ_nil in Hne. discriminate.
Qed.

(** Where the filled cells of a valid placement lie. *)
Lemma valid_cell_inside (g : Board.Grid) (t : TetrominoType) (p : Position)
    (r : RotationState) (row col : Z) :
  Board.isValidPosition g t p r = true ->
  Spec.filledAt (PieceData.getShape t r) row col ->
  0 <= px p + col < BOARD_WIDTH /\ py p + row < TOTAL_HEIGHT /\
  (0 <= py p + row -> Board.occupied g (py p + row) (px p + col) = false).
Proof.
  intros Hvalid Hf.
  assert (Hno : ~ Spec.rejects g p row col).
  { intros Hrej.
    assert (Hfalse : Board.isValidPosition g t p r = false).
    { apply rowsValid_false_filled. now exists row, col. }
    congruence. }
  unfold Spec.rejects, Spec.columnOutside, Spec.belowBottom, Spec.hitsOccupied in Hno.
  assert (Hx : 0 <= px p + col < BOARD_WIDTH) by lia.
  assert (Hy : py p + row < TOTAL_HEIGHT) by lia.
  split; [exact Hx |]. split; [exact Hy |].
  intros Hy0. destruct (Board.occupied g (py p + row) (px p + col)) eqn:Hocc;
    [| reflexivity].
  exfalso. apply Hno. right. right. split; [exact Hx |]. split; [lia | reflexivity].
Qed.

End LockAndCollide.

(** X4.  [lockPiece] keeps the grid at 22 rows of 10 cells and writes the
    type of the piece into exactly the cells of the grid that a filled cell
    of the shape falls on; every other cell is as before, and a filled cell
    that falls outside the grid writes nothing. *)
Theorem lockPiece_writes_filled_cells :
  forall (g : Board.Grid) (t : TetrominoType) (p : Position) (r : RotationState),
    Board.wf_grid g ->
    Board.wf_grid (Board.lockPiece g t p r) /\
    forall y x : Z,
      Spec.inField y x ->
      Board.cellAt (Board.lockPiece g t p r) y x
      = if Spec.filledb (PieceData.getShape t r) (y - py p) (x - px p)
        then Some t else Board.cellAt g y x.
Proof.
  intros g t p r Hwf. split; [now apply lockPiece_wf |].
  intros y x Hin. now apply lockPiece_cellAt.
Qed.

Lemma lockPiece_writes_filled_cells_witness :
  Board.cellAt (Board.lockPiece Board.createEmptyGrid tO (mkPosition 4 18) SPAWN) 18 5
  = Some tO /\
  Board.cellAt (Board.lockPiece Board.createEmptyGrid tO (mkPosition 4 18) SPAWN) 20 5
  = None.
Proof.
  pose proof (lockPiece_writes_filled_cells Board.createEmptyGrid tO (mkPosition 4 18)
                SPAWN createEmptyGrid_wf) as [_ H].
  split.
  - rewrite (H 18 5); [reflexivity |].
    unfold Spec.inField, TOTAL_HEIGHT, BOARD_HEIGHT, HIDDEN_ROWS, BOARD_WIDTH. lia.
  - rewrite (H 20 5); [reflexivity |].
    unfold Spec.inField, TOTAL_HEIGHT, BOARD_HEIGHT, HIDDEN_ROWS, BOARD_WIDTH. lia.
Defined.

(** X5.  Locking only adds obstacles: a placement that is valid after
    [lockPiece] was valid before it; a piece locked at a valid position
    lands on empty cells only; and once a piece with no row above the grid is
    locked at a valid position, [isValidPosition] rejects that position. *)
Theorem lockPiece_only_adds_obstacles :
  forall (g : Board.Grid) (t : TetrominoType) (p : Position) (r : RotationState),
    Board.wf_grid g ->
    (forall t' p' r',
       Board.isValidPosition (Board.lockPiece g t p r) t' p' r' = true ->
       Board.isValidPosition g t' p' r' = true) /\
    (Board.isValidPosition g t p r = true ->
     forall y x, Spec.inField y x ->
       Spec.filledb (PieceData.getShape t r) (y - py p) (x - px p) = true ->
       Board.cellAt g y x = None) /\
    (0 <= py p -> Board.isValidPosition g t p r = true ->
     Board.isValidPosition (Board.lockPiece g t p r) t p r = false).
Proof.
  intros g t p r Hwf. split; [| split].
  - intros t' p' r' Hafter.
    destruct (Board.isValidPosition g t' p' r') eqn:Hbefore; [reflexivity |].
    apply rowsValid_false_filled in Hbefore.
    destruct Hbefore as (row & col & Hf & Hrej).
    assert (Hfalse : Board.isValidPosition (Board.lockPiece g t p r) t' p' r' = false).
    { apply rowsValid_false_filled. exists row, col. split; [exact Hf |].
      destruct Hrej as [Hout | [Hlow | (Hx & Hy & Hocc)]];
        [now left | now (right; left) |].
      right. right. split; [exact Hx |]. split; [exact Hy |].
      unfold Board.occupied in *.
      rewrite lockPiece_cellAt by (auto; split; assumption).
      now destruct (Spec.filledb _ _ _). }
    congruence.
  - intros Hvalid y x [Hy Hx] Hfill.
    apply filledAt_filledb in Hfill.
    destruct (valid_cell_inside g t p r _ _ Hvalid Hfill) as (_ & _ & Hocc).
    replace (py p + (y - py p)) with y in Hocc by lia.
    replace (px p + (x - px p)) with x in Hocc by lia.
    specialize (Hocc ltac:(lia)). unfold Board.occupied in Hocc.
    now destruct (Board.cellAt g y x).
  - intros Hpy Hvalid.
    destruct (shape_has_filled_cell t r) as (row & col & Hf).
    destruct (valid_cell_inside g t p r _ _ Hvalid Hf) as (Hx & Hy & _).
    apply rowsValid_false_filled. exists row, col. split; [exact Hf |].
    assert (Hrow : 0 <= row) by (destruct Hf as (H & _); exact H).
    right. right. split; [exact Hx |]. split; [lia |].
    unfold Board.occupied.
    rewrite lockPiece_cellAt by first [assumption | split; [lia | assumption]].
    replace (py p + row - py p) with row by lia.
    replace (px p + col - px p) with col by lia.
    apply filledAt_filledb in Hf. now rewrite Hf.
Qed.

Lemma lockPiece_only_adds_obstacles_witness :
  Board.isValidPosition
    (Board.lockPiece Board.createEmptyGrid tO (mkPosition 4 18) SPAWN)
    tO (mkPosition 4 18) SPAWN = false.
Proof.
  refine (proj2 (proj2 (lockPiece_only_adds_obstacles Board.createEmptyGrid tO
                          (mkPosition 4 18) SPAWN createEmptyGrid_wf)) _ _).
  - cbn. lia.
  - reflexivity.
Defined.

(** ** Clearing lines: the grid *)

Section ClearedGrid.

Lemma pushedUp_length (l : list (list Board.Cell)) : forall idx c,
  length (Spec.pushedUp l idx c) = length (filter Spec.rowFull l).
Proof.
  induction l as [| x l IH]; intros idx c; cbn [Spec.pushedUp filter]; [reflexivity |].
  destruct (Spec.rowFull x); cbn [length]; now rewrite IH.
Qed.

Lemma filter_rev_length {A : Type} (f : A -> bool) (l : list A) :
  length (filter f (rev l)) = length (filter f l).
Proof.
  induction l as [| x l IH]; [reflexivity |].
  cbn [rev filter]. rewrite filter_app, length_app, IH. cbn [filter].
  destruct (f x); cbn [length]; lia.
Qed.

Lemma filter_none {A : Type} (f : A -> bool) (l : list A) :
  filter f l = [] <-> Forall (fun x => f x = false) l.
Proof.
  induction l as [| x l IH]; cbn [filter].
  - split; [constructor | reflexivity].
  - destruct (f x) eqn:Hx.
    + split; [discriminate |]. intros H. inversion H; congruence.
    + rewrite IH. split; [now constructor |]. intros H. now inversion H.
Qed.

Lemma cleared_rows_not_full (g : Board.Grid) (k : nat) :
  Forall (fun cells => Spec.rowFull cells = false)
         (repeat Board.emptyRow k ++ filter (fun cells => negb (Spec.rowFull cells)) g).
Proof.
  apply Forall_app. split.
  - apply Forall_forall. intros x Hx. apply repeat_spec in Hx. subst x. reflexivity.
  - apply Forall_forall. intros x Hx. apply filter_In in Hx. destruct Hx as [_ Hx].
    now destruct (Spec.rowFull x).
Qed.

End ClearedGrid.

(** X6.  [clearLines] on a grid of 22 rows ends its loop with the row index
    at -1; the grid it leaves has 22 rows again: the rows that were not
    full, in their order, under one new empty row for each full row; and
    the returned list has one entry for each full row. *)
Theorem clearLines_removes_full_rows :
  forall g : Board.Grid,
    length g = Z.to_nat TOTAL_HEIGHT ->
    Board.crow (Board.clearLinesState g) = -1 /\
    fst (Board.clearLines g)
    = repeat Board.emptyRow (length (filter Spec.rowFull g))
      ++ filter (fun cells => negb (Spec.rowFull cells)) g /\
    length (fst (Board.clearLines g)) = Z.to_nat TOTAL_HEIGHT /\
    length (snd (Board.clearLines g)) = length (filter Spec.rowFull g).
Proof.
  intros g Hlen. destruct (clearLines_effect g Hlen) as [Hrow Heq].
  split; [exact Hrow |]. rewrite Heq. cbn [fst snd].
  split; [reflexivity |]. split.
  - rewrite length_app, repeat_length, filter_length. exact Hlen.
  - now rewrite length_rev, pushedUp_length, filter_rev_length.
Qed.

Lemma clearLines_removes_full_rows_witness :
  fst (Board.clearLines Examples.rows19and21)
  = repeat Board.emptyRow (length (filter Spec.rowFull Examples.rows19and21))
    ++ filter (fun cells => negb (Spec.rowFull cells)) Examples.rows19and21 /\
  length (filter Spec.rowFull Examples.rows19and21) = 2%nat.
Proof.
  split.
  - exact (proj1 (proj2 (clearLines_removes_full_rows Examples.rows19and21 eq_refl))).
  - reflexivity.
Defined.

(** X7.  After [clearLines] no row of the grid is full, and a second call
    returns the empty list and leaves the grid as it is; the returned list
    is empty exactly when no row was full, and then the grid is the one that
    was given. *)
Theorem clearLines_leaves_no_full_row :
  forall g : Board.Grid,
    length g = Z.to_nat TOTAL_HEIGHT ->
    Forall (fun cells => Spec.rowFull cells = false) (fst (Board.clearLines g)) /\
    Board.clearLines (fst (Board.clearLines g)) = (fst (Board.clearLines g), []) /\
    (snd (Board.clearLines g) = []
     <-> Forall (fun cells => Spec.rowFull cells = false) g) /\
    (snd (Board.clearLines g) = [] -> fst (Board.clearLines g) = g).
Proof.
  intros g Hlen.
  assert (Hnone : Forall (fun cells => Spec.rowFull cells = false)
                         (fst (Board.clearLines g))).
  { destruct (clearLines_effect g Hlen) as [_ ->]. cbn [fst].
    apply cleared_rows_not_full. }
  assert (Hlen' : length (fst (Board.clearLines g)) = Z.to_nat TOTAL_HEIGHT).
  { destruct (clearLines_effect g Hlen) as [_ ->]. cbn [fst].
    rewrite length_app, repeat_length, filter_length. exact Hlen. }
  assert (Hiff : snd (Board.clearLines g) = []
                 <-> Forall (fun cells => Spec.rowFull cells = false) g).
  { rewrite <- filter_none. rewrite <- !length_zero_iff_nil.
    destruct (clearLines_effect g Hlen) as [_ ->]. cbn [snd].
    now rewrite length_rev, pushedUp_length, filter_rev_length. }
  split; [exact Hnone |]. split; [| split; [exact Hiff |]].
  - now apply clearLines_nothing_full.
  - intros Hempty. apply Hiff in Hempty.
    now rewrite (clearLines_nothing_full g Hlen Hempty).
Qed.

Lemma clearLines_leaves_no_full_row_witness :
  Board.clearLines (fst (Board.clearLines Examples.rows20and21))
  = (fst (Board.clearLines Examples.rows20and21), []).
Proof.
  exact (proj1 (proj2 (clearLines_leaves_no_full_row Examples.rows20and21 eq_refl))).
Defined.

(** ** The ghost position *)

Section Ghost.

Lemma ghostLoop_path (g : Board.Grid) (t : TetrominoType) (x : Z) (r : RotationState)
    (fuel : nat) : forall ghostY,
  ghostY <= Board.ghostLoop fuel g t x ghostY r /\
  forall y, ghostY < y <= Board.ghostLoop fuel g t x ghostY r ->
            Board.isValidPosition g t (mkPosition x y) r = true.
Proof.
  induction fuel as [| fuel IH]; intros ghostY; cbn [Board.ghostLoop].
  - split; [lia |]. intros y Hy. lia.
  - destruct (Board.isValidPosition g t (mkPosition x (ghostY + 1)) r) eqn:Hvalid.
    + destruct (IH (ghostY + 1)) as [Hle Hpath]. split; [lia |].
      intros y Hy. destruct (Z.eq_dec y (ghostY + 1)) as [-> | Hne]; [exact Hvalid |].
      apply Hpath. lia.
    + split; [lia |]. intros y Hy. lia.
Qed.

(** The row a fall from [ghostY] ends in is fixed by the board: two rows
    that are both reached over valid positions and both rest on an invalid
    one are the same row. *)
Lemma resting_row_unique (g : Board.Grid) (t : TetrominoType) (x : Z) (r : RotationState)
    (ghostY y1 y2 : Z) :
  ghostY <= y1 -> ghostY <= y2 ->
  (forall y, ghostY < y <= y1 -> Board.isValidPosition g t (mkPosition x y) r = true) ->
  (forall y, ghostY < y <= y2 -> Board.isValidPosition g t (mkPosition x y) r = true) ->
  Board.isValidPosition g t (mkPosition x (y1 + 1)) r = false ->
  Board.isValidPosition g t (mkPosition x (y2 + 1)) r = false ->
  y1 = y2.
Proof.
  intros H1 H2 P1 P2 R1 R2.
  destruct (Z.lt_trichotomy y1 y2) as [Hlt | [Heq | Hgt]]; [| exact Heq |].
  - rewrite (P2 (y1 + 1)) in R1 by lia. discriminate.
  - rewrite (P1 (y2 + 1)) in R2 by lia. discriminate.
Qed.

End Ghost.

(** X8.  [getGhostPosition] keeps the column and never goes up; every row
    it passes on the way down is a valid position of the piece and the row
    below the one it returns is not; from a valid position it returns a
    valid position; and the ghost position is its own ghost position. *)
Theorem getGhostPosition_is_resting_place :
  forall (g : Board.Grid) (t : TetrominoType) (p : Position) (r : RotationState),
    px (Board.getGhostPosition g t p r) = px p /\
    py p <= py (Board.getGhostPosition g t p r) /\
    (forall y, py p < y <= py (Board.getGhostPosition g t p r) ->
               Board.isValidPosition g t (mkPosition (px p) y) r = true) /\
    Board.isValidPosition g t
      (mkPosition (px p) (py (Board.getGhostPosition g t p r) + 1)) r = false /\
    (Board.isValidPosition g t p r = true ->
     Board.isValidPosition g t (Board.getGhostPosition g t p r) r = true) /\
    Board.getGhostPosition g t (Board.getGhostPosition g t p r) r
    = Board.getGhostPosition g t p r.
Proof.
  intros g t p r.
  destruct (getGhostPosition_rests g t p r) as [Hx Hrest].
  pose proof (ghostLoop_path g t (px p) r (Z.to_nat (TOTAL_HEIGHT - py p)) (py p))
    as [Hle Hpath].
  split; [exact Hx |]. split; [exact Hle |]. split; [exact Hpath |].
  split; [exact Hrest |]. split.
  - intros Hvalid. unfold Board.getGhostPosition in *. cbn [py] in *.
    destruct (Z.eq_dec (Board.ghostLoop (Z.to_nat (TOTAL_HEIGHT - py p)) g t (px p) (py p) r)
                       (py p)) as [Heq | Hne].
    + rewrite Heq. now destruct p.
    + apply Hpath. lia.
  - unfold Board.getGhostPosition in *. cbn [px py] in *. f_equal.
    destruct (Z.to_nat (TOTAL_HEIGHT
               - Board.ghostLoop (Z.to_nat (TOTAL_HEIGHT - py p)) g t (px p) (py p) r));
      cbn [Board.ghostLoop]; [reflexivity |].
    now rewrite Hrest.
Qed.

(** ** The bag: previews and droughts *)

Section Buffered.

Import BagRandomizer.

(** As long as the two bags last, the draws are their contents in order. *)
Lemma draws_buffered (n : nat) : forall (cb nb : list Slot) (s : Num),
  (n <= length cb + length nb)%nat ->
  fst (draws n (mkState cb nb s)) = firstn n (cb ++ nb).
Proof.
  induction n as [| n IH]; intros cb nb s Hn; [reflexivity |].
  rewrite draws_S. cbn [fst].
  destruct cb as [| v rest].
  - destruct nb as [| v rest]; [cbn [length] in Hn; lia |].
    rewrite next_refill. cbn [fst snd app firstn]. f_equal.
    cbn [length] in Hn. rewrite IH by lia.
    rewrite firstn_app. replace (n - length rest)%nat with 0%nat by lia.
    cbn [firstn]. apply app_nil_r.
  - unfold next. cbn [currentBag nextBag seed length Nat.eqb shift fst snd app firstn].
    f_equal. apply IH. cbn [length] in Hn. lia.
Qed.

Lemma ready_draws (n : nat) : forall st,
  Spec.bagReady st ->
  Forall (fun v => v <> None) (fst (draws n st)) /\ Spec.bagReady (snd (draws n st)).
Proof.
  induction n as [| n IH]; intros st Hst.
  - cbn [draws fst snd]. split; [constructor | exact Hst].
  - rewrite draws_S. cbn [fst snd].
    destruct (bag_next_some st Hst) as [(t & Ht) Hnext].
    destruct (IH _ Hnext) as [Hall Hready].
    split; [| exact Hready]. constructor; [| exact Hall]. rewrite Ht. discriminate.
Qed.

Lemma previewLoop_no_hole (fuel : nat) : forall (count : Z) (allPieces : list Slot) (s : Num),
  Spec.seedOk s -> Forall (fun v => v <> None) allPieces ->
  Forall (fun v => v <> None) (fst (previewLoop fuel count allPieces s)).
Proof.
  induction fuel as [| fuel IH]; intros count allPieces s Hs Hall; cbn [previewLoop].
  - exact Hall.
  - destruct (Z.of_nat (length allPieces) <? count); [| exact Hall].
    destruct (fillBag_ok s Hs) as [Hnew Hs'].
    destruct (fillBag emptyArray s) as [tempBag s']. cbn [fst snd] in *.
    apply IH; [exact Hs' |].
    apply Forall_app. split; [exact Hall | now apply oneOfEach_no_hole].
Qed.

Lemma Forall_firstn {A : Type} (P : A -> Prop) (n : nat) : forall l : list A,
  Forall P l -> Forall P (firstn n l).
Proof.
  induction n as [| n IH]; intros l Hl; [constructor |].
  destruct Hl as [| x l Hx Hl]; [constructor |].
  cbn [firstn]. constructor; [exact Hx | now apply IH].
Qed.

Lemma preview_no_hole (count : Z) (st : State) :
  Spec.bagReady st -> Forall (fun v => v <> None) (fst (preview count st)).
Proof.
  intros (Hs & Hnb & Hcb). unfold preview.
  pose proof (previewLoop_no_hole (Z.to_nat count) count (currentBag st ++ nextBag st)
                (seed st) Hs) as H.
  destruct (previewLoop (Z.to_nat count) count (currentBag st ++ nextBag st) (seed st))
    as [allPieces s']. cbn [fst] in *.
  assert (Hall : Forall (fun v => v <> None) allPieces).
  { apply H. apply Forall_app. split; [exact Hcb | now apply oneOfEach_no_hole]. }
  unfold slice0. destruct (count <? 0); now apply Forall_firstn.
Qed.

(** Seven draws from a randomizer between two bags hold every type. *)
Lemma aligned_block_has (st : State) (t : TetrominoType) :
  Spec.aligned st -> In (Some t) (fst (draws 7 st)).
Proof.
  intros Hst. destruct (aligned_draws_7 st Hst) as [Hone _].
  apply (Permutation_in _ (Permutation_sym Hone)).
  apply in_map. destruct t; cbn; tauto.
Qed.

Lemma window_has_block (st : State) (o : nat) (t : TetrominoType) :
  Spec.aligned st -> (o < 7)%nat ->
  In (Some t) (fst (draws 13 (snd (draws o st)))).
Proof.
  intros Hst Ho. destruct o as [| o].
  - change (snd (draws 0 st)) with st.
    change (draws 13 st) with (draws (7 + 6) st). rewrite draws_app. cbn [fst].
    apply in_or_app. left. now apply aligned_block_has.
  - replace 13%nat with ((7 - S o) + (7 + o))%nat by lia.
    rewrite draws_app. cbn [fst]. apply in_or_app. right.
    assert (Hnext : snd (draws (7 - S o) (snd (draws (S o) st))) = snd (draws 7 st)).
    { replace 7%nat with (S o + (7 - S o))%nat at 2 by lia.
      now rewrite draws_app. }
    rewrite Hnext. rewrite draws_app. cbn [fst]. apply in_or_app. left.
    apply aligned_block_has. now apply aligned_draws_7.
Qed.

Lemma preview_is_draws (n : nat) (st : State) :
  (n <= length (currentBag st) + length (nextBag st))%nat ->
  fst (preview (Z.of_nat n) st) = fst (draws n st).
Proof.
  intros Hn.
  replace (fst (draws n st)) with (firstn n (currentBag st ++ nextBag st))
    by (destruct st as [cb nb s]; symmetry; now apply draws_buffered).
  unfold preview.
  assert (Hloop : previewLoop (Z.to_nat (Z.of_nat n)) (Z.of_nat n)
                    (currentBag st ++ nextBag st) (seed st)
                  = (currentBag st ++ nextBag st, seed st)).
  { destruct (Z.to_nat (Z.of_nat n)); cbn [previewLoop]; [reflexivity |].
    destruct (Z.ltb_spec (Z.of_nat (length (currentBag st ++ nextBag st))) (Z.of_nat n))
      as [Hlt | _]; [| reflexivity].
    rewrite length_app in Hlt. lia. }
  rewrite Hloop. cbn [fst]. unfold slice0.
  destruct (Z.ltb_spec (Z.of_nat n) 0) as [Hneg | _]; [lia |].
  now rewrite Nat2Z.id.
Qed.

End Buffered.

(** X9.  [preview] and [next]: while the two bags last, the draws are the
    contents of the current bag followed by those of the next bag; a
    [preview] of that many pieces returns exactly the coming draws and
    leaves the randomizer as it was; and whatever count [preview] was called
    with, the draws that were in the two bags come out unchanged. *)
Theorem preview_agrees_with_buffered_draws :
  forall (st : BagRandomizer.State) (n : nat) (count : Z),
    (n <= length (BagRandomizer.currentBag st) + length (BagRandomizer.nextBag st))%nat ->
    fst (BagRandomizer.draws n st)
    = firstn n (BagRandomizer.currentBag st ++ BagRandomizer.nextBag st) /\
    fst (BagRandomizer.preview (Z.of_nat n) st) = fst (BagRandomizer.draws n st) /\
    snd (BagRandomizer.preview (Z.of_nat n) st) = st /\
    fst (BagRandomizer.draws n (snd (BagRandomizer.preview count st)))
    = fst (BagRandomizer.draws n st).
Proof.
  intros st n count Hn.
  assert (Hdraws : fst (BagRandomizer.draws n st)
                   = firstn n (BagRandomizer.currentBag st ++ BagRandomizer.nextBag st)).
  { destruct st as [cb nb s]. now apply draws_buffered. }
  split; [exact Hdraws |].
  assert (Hsame : snd (BagRandomizer.preview (Z.of_nat n) st) = st).
  { apply preview_buffered. rewrite length_app. lia. }
  split; [| split; [exact Hsame |]].
  - now apply preview_is_draws.
  - destruct (preview_keeps_bags count st) as [Hcb Hnb].
    destruct (snd (BagRandomizer.preview count st)) as [cb' nb' s'].
    destruct st as [cb nb s].
    cbn [BagRandomizer.currentBag BagRandomizer.nextBag] in *. subst cb' nb'.
    now rewrite !draws_buffered by assumption.
Qed.

Lemma preview_agrees_with_buffered_draws_witness :
  fst (BagRandomizer.preview (Z.of_nat 14) (BagRandomizer.create 54321))
  = fst (BagRandomizer.draws 14 (BagRandomizer.create 54321)) /\
  fst (BagRandomizer.draws 14
         (snd (BagRandomizer.preview 15 (BagRandomizer.create 54321))))
  = fst (BagRandomizer.draws 14 (BagRandomizer.create 54321)).
Proof.
  assert (Hn : (14 <= length (BagRandomizer.currentBag (BagRandomizer.create 54321))
                      + length (BagRandomizer.nextBag (BagRandomizer.create 54321)))%nat)
    by (vm_compute; lia).
  destruct (preview_agrees_with_buffered_draws (BagRandomizer.create 54321) 14 15 Hn)
    as (_ & H1 & _ & H2).
  split; [exact H1 | exact H2].
Defined.

(** X10.  With a seed below 2^1000 whose first generator state is not
    negative (s * 1664525 + 1013904223 >= 0, as for every seed from 0 on),
    every draw is one of the seven types, and any thirteen draws in a row,
    wherever they start, hold every type: no type stays away for more than
    twelve draws. *)
Theorem no_type_waits_more_than_twelve_draws :
  forall (s : Z) (i : nat),
    0 <= s * 1664525 + 1013904223 -> s < 2 ^ 1000 ->
    Forall (fun v => v <> None) (fst (BagRandomizer.draws i (BagRandomizer.create s))) /\
    forall t : TetrominoType,
      In (Some t)
         (fst (BagRandomizer.draws 13
                 (snd (BagRandomizer.draws i (BagRandomizer.create s))))).
Proof.
  intros s i Hs Hz.
  destruct (create_aligned s (seedOk_range s Hs Hz)) as [Hal Hcur]. split.
  - apply ready_draws. destruct Hal as (Hseed & Hnext & _).
    repeat split; auto using oneOfEach_no_hole.
  - intros t.
    pose proof (Nat.div_mod_eq i 7) as Hi.
    pose proof (Nat.mod_upper_bound i 7 ltac:(discriminate)) as Ho.
    rewrite Hi. rewrite draws_app. cbn [snd].
    apply window_has_block; [| exact Ho].
    now apply aligned_draws_blocks.
Qed.

(** Seed 1700000000000, a timestamp: the first product is rounded by the
    doubles. *)
Lemma no_type_waits_more_than_twelve_draws_witness :
  0 <= 1700000000000 * 1664525 + 1013904223 /\
  1700000000000 < 2 ^ 1000 /\
  In (Some tI)
     (fst (BagRandomizer.draws 13
             (snd (BagRandomizer.draws 5 (BagRandomizer.create 1700000000000))))).
Proof.
  assert (H1 : 0 <= 1700000000000 * 1664525 + 1013904223) by discriminate.
  assert (H2 : 1700000000000 < 2 ^ 1000) by (vm_compute; reflexivity).
  split; [exact H1 |]. split; [exact H2 |].
  exact (proj2 (no_type_waits_more_than_twelve_draws 1700000000000 5 H1 H2) tI).
Defined.

(** ** Starting, pausing and the states outside play *)

Section States.

Import Game.

Lemma spawn_valid_on_empty (t : TetrominoType) :
  Board.isValidPosition Board.createEmptyGrid t (PieceData.getSpawnPosition t) SPAWN = true.
Proof. destruct t; vm_compute; reflexivity. Qed.

Lemma spawnNextPiece_valid (g : Game) (t : TetrominoType) (bag' : BagRandomizer.State) :
  BagRandomizer.next (bag g) = (Some t, bag') ->
  Board.isValidPosition (board g) t (PieceData.getSpawnPosition t) SPAWN = true ->
  spawnNextPiece g
  = set_lastWasRotation false
      (set_lockTimer 0%float
         (set_dropTimer 0%float
            (set_currentPiece
               (Some (mkPiece t (PieceData.getSpawnPosition t) SPAWN false 0%float))
               (set_bag bag' g)))).
Proof.
  intros Hnext Hvalid. unfold spawnNextPiece. rewrite Hnext.
  cbn [board set_lastWasRotation set_lockTimer set_dropTimer set_currentPiece set_bag].
  now rewrite Hvalid.
Qed.

Lemma spawnNextPiece_blocked (g : Game) (t : TetrominoType) (bag' : BagRandomizer.State) :
  BagRandomizer.next (bag g) = (Some t, bag') ->
  Board.isValidPosition (board g) t (PieceData.getSpawnPosition t) SPAWN = false ->
  spawnNextPiece g
  = emit ev_game_over
      (set_state GAME_OVER
         (set_lastWasRotation false
            (set_lockTimer 0%float
               (set_dropTimer 0%float
                  (set_currentPiece
                     (Some (mkPiece t (PieceData.getSpawnPosition t) SPAWN false 0%float))
                     (set_bag bag' g)))))).
Proof.
  intros Hnext Hvalid. unfold spawnNextPiece. rewrite Hnext.
  cbn [board set_lastWasRotation set_lockTimer set_dropTimer set_currentPiece set_bag].
  now rewrite Hvalid.
Qed.

Lemma set_state_back (g : Game) :
  state g = PLAYING -> set_state PLAYING (set_state PAUSED g) = g.
Proof. destruct g. cbn. intros ->. reflexivity. Qed.

Lemma update_outside_play (fuel : nat) (deltaTime : float) (g : Game) :
  state g <> PLAYING -> update fuel deltaTime g = g.
Proof.
  intros H. unfold update. destruct (state g); try reflexivity. now contradiction H.
Qed.

Lemma handleInput_outside_play (a : InputAction) (pressed : bool) (g : Game) :
  state g <> PLAYING -> state g <> PAUSED -> handleInput a pressed g = g.
Proof.
  intros H1 H2. unfold handleInput.
  destruct (state g); try (now contradiction H1); try (now contradiction H2);
    cbn; destruct a; try reflexivity; now rewrite andb_false_r.
Qed.

End States.

(** X11.  [start]: whatever the controller was, with a clock that is not
    negative the game is in play on an empty board with the statistics at
    zero and nothing held; the active piece is the first draw of a bag
    seeded with the clock, at its spawn position, which is valid; no event
    is emitted. *)
Theorem start_begins_play :
  forall (now : Z) (g : Game.Game),
    0 <= now ->
    Game.state (Game.start now g) = PLAYING /\
    Game.board (Game.start now g) = Board.createEmptyGrid /\
    Game.stats (Game.start now g) = mkStats 0 0 0 0 false /\
    Game.holdPiece (Game.start now g) = None /\
    Game.canHold (Game.start now g) = true /\
    Game.events (Game.start now g) = Game.events g /\
    Spec.pieceFits (Game.start now g) /\
    exists t,
      fst (BagRandomizer.next (BagRandomizer.create now)) = Some t /\
      Game.currentPiece (Game.start now g)
      = Some (mkPiece t (PieceData.getSpawnPosition t) SPAWN false 0%float).
Proof.
  intros now g Hnow.
  destruct (create_first_draw now Hnow) as (t & Ht).
  unfold Game.start, Spec.pieceFits.
  rewrite (spawnNextPiece_valid _ t (snd (BagRandomizer.next (BagRandomizer.create now)))).
  - cbn [Game.state Game.board Game.stats Game.holdPiece Game.canHold Game.events
         Game.currentPiece Game.set_lastWasRotation Game.set_lockTimer Game.set_dropTimer
         Game.set_currentPiece Game.set_bag Game.set_state Game.reset
         type position rotation].
    repeat (split; [reflexivity |]).
    split; [apply spawn_valid_on_empty |].
    exists t. split; [exact Ht | reflexivity].
  - change (Game.bag (Game.set_state PLAYING (Game.reset now g)))
      with (BagRandomizer.create now).
    rewrite <- Ht. now destruct (BagRandomizer.next (BagRandomizer.create now)).
  - apply spawn_valid_on_empty.
Qed.

Lemma start_begins_play_witness :
  Game.state (Game.start 54321 (Game.create 7)) = PLAYING /\
  Spec.pieceFits (Game.start 54321 (Game.create 7)).
Proof.
  destruct (start_begins_play 54321 (Game.create 7) ltac:(lia))
    as (H1 & _ & _ & _ & _ & _ & H2 & _).
  split; [exact H1 | exact H2].
Defined.

(** X12.  Pause: in play, a press of PAUSE sets the state to paused and
    changes nothing else; while paused [update] does nothing and every
    input but a press of PAUSE is ignored; a second press of PAUSE gives
    back the controller exactly as it was. *)
Theorem pause_freezes_the_game :
  forall g : Game.Game,
    Game.state g = PLAYING ->
    Game.handleInput Game.PAUSE true g = Game.set_state PAUSED g /\
    (forall fuel deltaTime,
       Game.update fuel deltaTime (Game.handleInput Game.PAUSE true g)
       = Game.handleInput Game.PAUSE true g) /\
    (forall a pressed,
       a <> Game.PAUSE \/ pressed = false ->
       Game.handleInput a pressed (Game.handleInput Game.PAUSE true g)
       = Game.handleInput Game.PAUSE true g) /\
    Game.handleInput Game.PAUSE true (Game.handleInput Game.PAUSE true g) = g.
Proof.
  intros g Hg.
  assert (Hp : Game.handleInput Game.PAUSE true g = Game.set_state PAUSED g).
  { unfold Game.handleInput. now rewrite Hg. }
  rewrite Hp. split; [reflexivity |]. split; [| split].
  - intros fuel deltaTime. now apply update_outside_play.
  - intros a pressed Ha. unfold Game.handleInput. cbn [Game.state Game.set_state].
    cbn [Game.GameState_eqb negb].
    destruct a; try reflexivity. destruct pressed; [| reflexivity].
    destruct Ha as [Ha | Ha]; [now contradiction Ha | discriminate].
  - unfold Game.handleInput at 1. cbn [Game.state Game.set_state].
    cbn [Game.GameState_eqb negb andb]. now apply set_state_back.
Qed.

Lemma pause_freezes_the_game_witness :
  Game.handleInput Game.PAUSE true (Game.handleInput Game.PAUSE true Examples.wallGame)
  = Examples.wallGame.
Proof.
  exact (proj2 (proj2 (proj2 (pause_freezes_the_game Examples.wallGame eq_refl)))).
Defined.

(** X13.  Outside play (idle, game over or completed) [update] and every
    [handleInput] leave the controller exactly as it is; only [start] and
    [reset] lead out of these states. *)
Theorem calls_outside_play_do_nothing :
  forall g : Game.Game,
    Game.state g = IDLE \/ Game.state g = GAME_OVER \/ Game.state g = COMPLETED ->
    (forall fuel deltaTime, Game.update fuel deltaTime g = g) /\
    (forall a pressed, Game.handleInput a pressed g = g) /\
    (forall cs : list Game.Call,
       Forall (fun c => Game.resets c = false) cs ->
       Game.state (fold_left (fun g' c => Game.call c g') cs g) = Game.state g).
Proof.
  intros g Hg.
  assert (H1 : Game.state g <> PLAYING) by (destruct Hg as [-> | [-> | ->]]; discriminate).
  assert (H2 : Game.state g <> PAUSED) by (destruct Hg as [-> | [-> | ->]]; discriminate).
  split; [| split].
  - intros fuel deltaTime. now apply update_outside_play.
  - intros a pressed. now apply handleInput_outside_play.
  - intros cs Hcs. revert g Hg H1 H2.
    induction Hcs as [| c cs Hc _ IH]; intros g Hg H1 H2; [reflexivity |].
    cbn [fold_left].
    assert (Hstate : Game.state (Game.call c g) = Game.state g).
    { destruct c; try discriminate Hc; cbn [Game.call].
      - now rewrite update_outside_play.
      - now rewrite handleInput_outside_play.
      - unfold Game.getNextPieces.
        now destruct (BagRandomizer.preview count (Game.bag g)). }
    rewrite IH; rewrite ?Hstate; auto.
Qed.

Lemma calls_outside_play_do_nothing_witness :
  Game.handleInput Game.HARD_DROP true (Game.create 54321) = Game.create 54321.
Proof.
  exact (proj1 (proj2 (calls_outside_play_do_nothing (Game.create 54321)
                         (or_introl eq_refl))) Game.HARD_DROP true).
Defined.

(** ** Hold *)

Section Hold.

Import Game.

Lemma hold_refused (g : Game) : canHold g = false -> handleInput HOLD true g = g.
Proof.
  intros Hc. unfold handleInput.
  destruct (negb (GameState_eqb (state g) PLAYING)); [reflexivity |].
  destruct (currentPiece g); [| reflexivity]. now rewrite Hc.
Qed.

Lemma performHold_canHold (g : Game) (p : Piece) :
  currentPiece g = Some p -> canHold g = true -> canHold (performHold g) = false.
Proof. intros Hp Hc. unfold performHold. now rewrite Hp, Hc. Qed.

Lemma hold_accepted (g : Game) (p : Piece) :
  state g = PLAYING -> currentPiece g = Some p -> canHold g = true ->
  handleInput HOLD true g = performHold g.
Proof. intros Hs Hp Hc. unfold handleInput. now rewrite Hs, Hp, Hc. Qed.

End Hold.

(** X14.  Hold: a second press of HOLD, straight after the first, changes
    nothing, whatever the controller was (the permission to hold is used
    up).  An accepted hold stores the type of the active piece and leaves
    board and statistics alone; with a piece already held, that piece
    becomes the active one at its spawn position, unrotated and not
    soft-locked, and neither the bag nor the state is touched. *)
Theorem hold_is_used_up_by_one_press :
  forall g : Game.Game,
    Game.handleInput Game.HOLD true (Game.handleInput Game.HOLD true g)
    = Game.handleInput Game.HOLD true g /\
    forall p : Piece,
      Game.state g = PLAYING -> Game.currentPiece g = Some p -> Game.canHold g = true ->
      Game.holdPiece (Game.handleInput Game.HOLD true g) = Some (type p) /\
      Game.canHold (Game.handleInput Game.HOLD true g) = false /\
      Game.board (Game.handleInput Game.HOLD true g) = Game.board g /\
      Game.stats (Game.handleInput Game.HOLD true g) = Game.stats g /\
      forall h : TetrominoType,
        Game.holdPiece g = Some h ->
        Game.currentPiece (Game.handleInput Game.HOLD true g)
        = Some (mkPiece h (PieceData.getSpawnPosition h) SPAWN false 0%float) /\
        Game.bag (Game.handleInput Game.HOLD true g) = Game.bag g /\
        Game.state (Game.handleInput Game.HOLD true g) = PLAYING /\
        Game.events (Game.handleInput Game.HOLD true g) = Game.events g.
Proof.
  intros g. split.
  - destruct (Game.canHold g) eqn:Hc;
      [| rewrite (hold_refused g Hc); exact (hold_refused g Hc)].
    destruct (Game.GameState_eqb (Game.state g) PLAYING) eqn:Hs.
    + assert (Hs' : Game.state g = PLAYING) by (now destruct (Game.state g)).
      destruct (Game.currentPiece g) as [p |] eqn:Hp.
      * rewrite (hold_accepted g p Hs' Hp Hc).
        apply hold_refused. now apply (performHold_canHold g p).
      * assert (Hsame : Game.handleInput Game.HOLD true g = g).
        { unfold Game.handleInput. now rewrite Hs', Hp. }
        now rewrite !Hsame.
    + assert (Hsame : Game.handleInput Game.HOLD true g = g).
      { unfold Game.handleInput. now rewrite Hs. }
      now rewrite !Hsame.
  - intros p Hs Hp Hc. rewrite (hold_accepted g p Hs Hp Hc).
    unfold Game.performHold. rewrite Hp, Hc. cbn [negb].
    cbn [Game.holdPiece Game.canHold Game.board Game.stats Game.set_lockTimer
         Game.set_dropTimer Game.set_canHold Game.set_holdPiece].
    split; [reflexivity |]. split; [reflexivity |]. split; [| split].
    + destruct (Game.holdPiece g); [reflexivity |].
      unfold Game.spawnNextPiece.
      destruct (BagRandomizer.next (Game.bag g)) as [[t |] bag']; [| reflexivity].
      now destruct (negb _).
    + destruct (Game.holdPiece g); [reflexivity |]. apply spawnNextPiece_stats.
    + intros h Hh. rewrite Hh.
      cbn [Game.currentPiece Game.bag Game.state Game.events Game.set_lockTimer
           Game.set_dropTimer Game.set_canHold Game.set_holdPiece Game.set_currentPiece].
      auto.
Qed.

(** ** Timing: the drop interval and the auto shift *)

Section Timing.

Import Game.

Lemma getDropInterval_level (g g' : Game) :
  level (stats g) = level (stats g') -> getDropInterval g = getDropInterval g'.
Proof. unfold getDropInterval. now intros ->. Qed.

(** From level 24 on the number of frames is 1, as at level 24. *)
Lemma getDropInterval_capped (g : Game) :
  0 <= level (stats g) ->
  exists l, In l Spec.levelsToOneFrame /\
    l = Z.min (level (stats g)) 24 /\
    getDropInterval g = getDropInterval (set_stats (mkStats 0 l 0 0 false) g).
Proof.
  intros Hl. exists (Z.min (level (stats g)) 24). split; [| split; [reflexivity |]].
  - unfold Spec.levelsToOneFrame.
    replace (Z.min (level (stats g)) 24)
      with (Z.of_nat (Z.to_nat (Z.min (level (stats g)) 24))) by lia.
    apply in_map. apply in_seq. lia.
  - unfold getDropInterval. cbn [stats set_stats level]. do 3 f_equal. lia.
Qed.

Lemma getDropInterval_at (g : Game) (l : Z) :
  getDropInterval (set_stats (mkStats 0 l 0 0 false) g)
  = (ofZ (Z.max 1 (48 - l * 2)) / 60 * 1000)%float.
Proof. reflexivity. Qed.

(** The intervals of the levels 0 to 24, computed: each is between one
    frame and 800 ms, and none is above the one of a lower level. *)
Lemma intervals_computed :
  forallb (fun l =>
    PrimFloat.leb (1 / 60 * 1000)%float (ofZ (Z.max 1 (48 - l * 2)) / 60 * 1000)%float
    && PrimFloat.leb (ofZ (Z.max 1 (48 - l * 2)) / 60 * 1000)%float 800%float
    && forallb (fun l' =>
         negb (l <=? l')
         || PrimFloat.leb (ofZ (Z.max 1 (48 - l' * 2)) / 60 * 1000)%float
                          (ofZ (Z.max 1 (48 - l * 2)) / 60 * 1000)%float)
         Spec.levelsToOneFrame)
    Spec.levelsToOneFrame = true.
Proof. vm_compute. reflexivity. Qed.

Lemma movePiece_dasTimer (dx dy : Z) (g : Game) :
  dasTimer (snd (movePiece dx dy g)) = dasTimer g /\
  dasDirection (snd (movePiece dx dy g)) = dasDirection g.
Proof.
  unfold movePiece. destruct (currentPiece g) as [p |]; [| auto].
  destruct (Board.isValidPosition _ _ _ _); [| auto].
  cbn [snd]. destruct (negb (dx =? 0) && locked p); auto.
Qed.

Lemma dasLoop_dasTimer (fuel : nat) : forall i n g,
  dasTimer (dasLoop fuel i n g) = dasTimer g.
Proof.
  induction fuel as [| fuel IH]; intros i n g; cbn [dasLoop]; [reflexivity |].
  destruct (PrimFloat.ltb i n); [| reflexivity].
  rewrite IH. unfold dasStep.
  destruct (dasDirection g) as [[|] |]; apply movePiece_dasTimer.
Qed.

(** One turn of the loop of the auto shift, by the test of the column next
    to the piece. *)
Lemma dasStep_cases (g : Game) (p : Piece) (d : DasDirection) :
  dasDirection g = Some d -> currentPiece g = Some p ->
  (Spec.freeAt g p d 1 = false /\ dasStep g = g) \/
  (Spec.freeAt g p d 1 = true /\
   currentPiece (dasStep g)
   = Some (set_position
             (mkPosition (Spec.towards d (px (position p)) 1) (py (position p))) p) /\
   lockTimer (dasStep g) = (if locked p then 0%float else lockTimer g) /\
   dasDirection (dasStep g) = Some d /\
   board (dasStep g) = board g /\ stats (dasStep g) = stats g /\
   events (dasStep g) = events g /\ state (dasStep g) = state g).
Proof.
  intros Hd Hp. unfold dasStep, Spec.freeAt, movePiece. rewrite Hd, Hp.
  destruct d; cbn [Spec.towards].
  - replace (px (position p) + -1) with (px (position p) - 1) by lia.
    rewrite Z.add_0_r.
    destruct (Board.isValidPosition _ _ _ _); [right | now left].
    cbn [snd negb Z.eqb andb]. destruct (locked p); repeat split; auto.
  - rewrite Z.add_0_r.
    destruct (Board.isValidPosition _ _ _ _); [right | now left].
    cbn [snd negb Z.eqb andb]. destruct (locked p); repeat split; auto.
Qed.

Lemma towards_next (d : DasDirection) (x j : Z) :
  Spec.towards d (Spec.towards d x 1) j = Spec.towards d x (j + 1).
Proof. destruct d; cbn [Spec.towards]; lia. Qed.

Lemma towards_0 (d : DasDirection) (x : Z) : Spec.towards d x 0 = x.
Proof. destruct d; cbn [Spec.towards]; lia. Qed.

(** The loop of the auto shift pushes the piece one column per turn until
    the next column is not free. *)
Lemma dasLoop_pushes (fuel : nat) : forall (i n : float) (g : Game) (p : Piece) d,
  dasDirection g = Some d -> currentPiece g = Some p ->
  exists (k : nat) (q : Piece),
    (k <= Spec.dasTurns fuel i n)%nat /\
    (forall j, 1 <= j <= Z.of_nat k -> Spec.freeAt g p d j = true) /\
    ((k < Spec.dasTurns fuel i n)%nat -> Spec.freeAt g p d (Z.of_nat k + 1) = false) /\
    currentPiece (dasLoop fuel i n g) = Some q /\
    type q = type p /\ rotation q = rotation p /\ locked q = locked p /\
    position q = mkPosition (Spec.towards d (px (position p)) (Z.of_nat k))
                            (py (position p)) /\
    lockTimer (dasLoop fuel i n g)
    = (if (0 <? Z.of_nat k) && locked p then 0%float else lockTimer g) /\
    board (dasLoop fuel i n g) = board g /\ stats (dasLoop fuel i n g) = stats g /\
    events (dasLoop fuel i n g) = events g /\ state (dasLoop fuel i n g) = state g.
Proof.
  assert (Hstay : forall g p d, currentPiece g = Some p ->
            exists q : Piece,
              (forall j, 1 <= j <= Z.of_nat 0 -> Spec.freeAt g p d j = true) /\
              currentPiece g = Some q /\
              type q = type p /\ rotation q = rotation p /\ locked q = locked p /\
              position q = mkPosition (Spec.towards d (px (position p)) (Z.of_nat 0))
                                      (py (position p)) /\
              lockTimer g = (if (0 <? Z.of_nat 0) && locked p then 0%float
                             else lockTimer g)).
  { intros g p d Hp. exists p. split; [intros j Hj; cbn in Hj; lia |].
    split; [exact Hp |]. repeat split.
    cbn [Z.of_nat]. rewrite towards_0. now destruct (position p). }
  induction fuel as [| fuel IH]; intros i n g p d Hd Hp;
    cbn [dasLoop Spec.dasTurns].
  - destruct (Hstay g p d Hp) as (q & H1 & H2 & H3 & H4 & H5 & H6 & H7).
    exists 0%nat, q. repeat split; auto. intros H; inversion H.
  - destruct (PrimFloat.ltb i n).
    2:{ destruct (Hstay g p d Hp) as (q & H1 & H2 & H3 & H4 & H5 & H6 & H7).
        exists 0%nat, q. repeat split; auto. intros H; inversion H. }
    destruct (dasStep_cases g p d Hd Hp)
      as [[Hblocked Hsame] | (Hfree & Hq1 & Ht1 & Hd1 & Hb1 & Hs1 & He1 & Hst1)].
    + rewrite Hsame.
      destruct (IH (i + 1)%float n g p d Hd Hp)
        as (k & q & Hk & Hfreek & Hstop & Hq & Hrest).
      assert (k = 0%nat).
      { destruct k as [| k]; [reflexivity |].
        rewrite (Hfreek 1 ltac:(lia)) in Hblocked. discriminate. }
      subst k. exists 0%nat, q.
      split; [lia |]. split; [exact Hfreek |].
      split; [intros _; exact Hblocked |]. split; [exact Hq | exact Hrest].
    + set (p1 := set_position
                   (mkPosition (Spec.towards d (px (position p)) 1) (py (position p))) p)
        in *.
      assert (Hfree1 : forall j, Spec.freeAt (dasStep g) p1 d j
                                 = Spec.freeAt g p d (j + 1)).
      { intros j. unfold Spec.freeAt. rewrite Hb1.
        cbn [p1 set_position type position rotation px py].
        now rewrite towards_next. }
      destruct (IH (i + 1)%float n (dasStep g) p1 d Hd1 Hq1)
        as (k & q & Hk & Hfreek & Hstop & Hq & Hty & Hrot & Hl & Hpos & Ht & Hb & Hs
            & He & Hst).
      exists (S k), q.
      split; [lia |]. split.
      { intros j Hj. destruct (Z.eq_dec j 1) as [-> | Hne]; [exact Hfree |].
        replace j with (j - 1 + 1) by lia. rewrite <- Hfree1. apply Hfreek. lia. }
      split.
      { intros Hlt. replace (Z.of_nat (S k) + 1) with (Z.of_nat k + 1 + 1) by lia.
        rewrite <- Hfree1. apply Hstop. lia. }
      split; [exact Hq |].
      cbn [p1 set_position type position rotation locked px py] in *.
      split; [exact Hty |]. split; [exact Hrot |]. split; [exact Hl |].
      split.
      { rewrite Hpos, towards_next. do 2 f_equal. lia. }
      split.
      { rewrite Ht, Ht1.
        replace (0 <? Z.of_nat (S k)) with true by (symmetry; apply Z.ltb_lt; lia).
        destruct (0 <? Z.of_nat k), (locked p); reflexivity. }
      repeat split; congruence.
Qed.

End Timing.

(** X15.  [getDropInterval], as the doubles compute it.  It is
    (frames / 60) * 1000 with frames = max(1, 48 - 2 * level), each
    operation rounded.  It is 800 at level 0; at level 1 it is the double
    6743671317026134 * 2^-43 (766.6666666666667 in JavaScript), above
    2300 / 3 by two thirds of 2^-43; from level 24 on it is one frame,
    (1 / 60) * 1000, the double 4691249611844267 * 2^-48
    (16.666666666666668), above 50 / 3 by a third of 2^-48.  For every level
    from 0 on it lies between one frame and 800, and it is not above the
    interval of any lower level. *)
Theorem drop_interval_shrinks_with_level :
  forall g g' : Game.Game,
    Game.getDropInterval g
    = (ofZ (Z.max 1 (48 - level (Game.stats g) * 2)) / 60 * 1000)%float /\
    (level (Game.stats g) = 0 -> Game.getDropInterval g = 800%float) /\
    (level (Game.stats g) = 1 ->
     Prim2SF (Game.getDropInterval g) = S754_finite false 6743671317026134 (-43)) /\
    3 * 6743671317026134 = 2300 * 2 ^ 43 + 2 /\
    (24 <= level (Game.stats g) ->
     Game.getDropInterval g = (1 / 60 * 1000)%float /\
     Prim2SF (Game.getDropInterval g) = S754_finite false 4691249611844267 (-48)) /\
    3 * 4691249611844267 = 50 * 2 ^ 48 + 1 /\
    (0 <= level (Game.stats g) ->
     PrimFloat.leb (1 / 60 * 1000)%float (Game.getDropInterval g) = true /\
     PrimFloat.leb (Game.getDropInterval g) 800%float = true) /\
    (0 <= level (Game.stats g) <= level (Game.stats g') ->
     PrimFloat.leb (Game.getDropInterval g') (Game.getDropInterval g) = true).
Proof.
  intros g g'.
  pose proof intervals_computed as Hall.
  rewrite forallb_forall in Hall.
  split; [reflexivity |].
  split; [intros Hl; unfold Game.getDropInterval; rewrite Hl; vm_compute; reflexivity |].
  split.
  { intros Hl. unfold Game.getDropInterval. rewrite Hl. vm_compute. reflexivity. }
  split; [reflexivity |].
  split.
  { intros Hl. unfold Game.getDropInterval.
    replace (Z.max 1 (48 - level (Game.stats g) * 2)) with 1 by lia.
    split; vm_compute; reflexivity. }
  split; [reflexivity |].
  split.
  - intros Hl. destruct (getDropInterval_capped g Hl) as (l & Hin & _ & ->).
    rewrite getDropInterval_at. specialize (Hall l Hin).
    apply andb_true_iff in Hall. destruct Hall as [Hall _].
    apply andb_true_iff in Hall. exact Hall.
  - intros [Hl Hle].
    destruct (getDropInterval_capped g Hl) as (l & Hin & Hl1 & ->).
    destruct (getDropInterval_capped g' ltac:(lia)) as (l' & Hin' & Hl1' & ->).
    rewrite !getDropInterval_at. specialize (Hall l Hin).
    apply andb_true_iff in Hall. destruct Hall as [_ Hall].
    rewrite forallb_forall in Hall. specialize (Hall l' Hin').
    apply orb_true_iff in Hall. destruct Hall as [Hall | Hall]; [| exact Hall].
    apply negb_true_iff in Hall. apply Z.leb_gt in Hall. lia.
Qed.

(** X16.  The auto shift of [update]: with a direction held, the shift
    timer grows by the elapsed time; below 170 ms nothing else happens.
    From 170 ms on the loop makes its turns, one for each value 0, 1, 2, ...
    of the counter below floor((timer - 170) / 50); the piece goes one
    column per turn towards the side that is held, over free positions
    only, until the turns are made or the next column is not free; it keeps
    its row, its rotation and its flag; the lock timer goes to 0 when a
    soft-locked piece was pushed; and the shift timer becomes
    170 + ((timer - 170) % 50). *)
Theorem auto_shift_pushes_to_the_held_side :
  forall (fuel : nat) (g : Game.Game) (deltaTime : float)
         (d : Game.DasDirection) (p : Piece),
    Game.dasDirection g = Some d ->
    Game.currentPiece g = Some p ->
    (geb (Game.dasTimer g + deltaTime) DAS_DELAY = false ->
     Game.handleDas fuel deltaTime g
     = Game.set_dasTimer (Game.dasTimer g + deltaTime)%float g) /\
    (geb (Game.dasTimer g + deltaTime) DAS_DELAY = true ->
     let dasSteps :=
       Math_floor ((Game.dasTimer g + deltaTime - DAS_DELAY) / DAS_PERIOD)%float in
     let turns := Spec.dasTurns fuel 0%float dasSteps in
     let g' := Game.handleDas fuel deltaTime g in
     exists (k : nat) (q : Piece),
       (k <= turns)%nat /\
       (forall j, 1 <= j <= Z.of_nat k -> Spec.freeAt g p d j = true) /\
       ((k < turns)%nat -> Spec.freeAt g p d (Z.of_nat k + 1) = false) /\
       Game.currentPiece g' = Some q /\
       type q = type p /\ rotation q = rotation p /\ locked q = locked p /\
       position q = mkPosition (Spec.towards d (px (position p)) (Z.of_nat k))
                               (py (position p)) /\
       Game.lockTimer g'
       = (if (0 <? Z.of_nat k) && locked p then 0%float else Game.lockTimer g) /\
       Game.dasTimer g'
       = (DAS_DELAY + jsRem (Game.dasTimer g + deltaTime - DAS_DELAY) DAS_PERIOD)%float /\
       Game.board g' = Game.board g /\ Game.stats g' = Game.stats g /\
       Game.events g' = Game.events g /\ Game.state g' = Game.state g).
Proof.
  intros fuel g deltaTime d p Hd Hp. unfold Game.handleDas. rewrite Hd.
  cbn [Game.dasTimer Game.set_dasTimer]. split.
  - intros Hlow. now rewrite Hlow.
  - intros Hhigh. rewrite Hhigh. cbv zeta.
    set (g1 := Game.set_dasTimer (Game.dasTimer g + deltaTime)%float g).
    set (n := Math_floor ((Game.dasTimer g + deltaTime - DAS_DELAY) / DAS_PERIOD)%float).
    destruct (dasLoop_pushes fuel 0%float n g1 p d Hd Hp)
      as (k & q & Hk & Hfree & Hstop & Hq & Hty & Hrot & Hl & Hpos & Ht & Hb & Hs
          & He & Hst).
    exists k, q. rewrite dasLoop_dasTimer.
    cbn [Game.currentPiece Game.lockTimer Game.dasTimer Game.board Game.stats
         Game.events Game.state Game.set_dasTimer].
    repeat split; assumption.
Qed.

(** The T piece at the left wall with the right side held for 300 ms: two
    turns, two columns to the right, and the timer at 200 ms. *)
Lemma auto_shift_pushes_to_the_held_side_witness :
  Game.dasTimer
    (Game.handleDas 8 300%float
       (Game.set_dasDirection (Some Game.right) Examples.wallGame))
  = 200%float /\
  Spec.dasTurns 8 0%float (Math_floor ((0 + 300 - DAS_DELAY) / DAS_PERIOD)%float) = 2%nat /\
  exists q,
    Game.currentPiece
      (Game.handleDas 8 300%float
         (Game.set_dasDirection (Some Game.right) Examples.wallGame)) = Some q /\
    position q = mkPosition 1 5.
Proof.
  assert (Hd : Game.dasDirection (Game.set_dasDirection (Some Game.right) Examples.wallGame)
               = Some Game.right) by reflexivity.
  assert (Hp : Game.currentPiece (Game.set_dasDirection (Some Game.right) Examples.wallGame)
               = Some Examples.wallPiece) by reflexivity.
  assert (Hhigh : geb
                    (Game.dasTimer
                       (Game.set_dasDirection (Some Game.right) Examples.wallGame)
                     + 300) DAS_DELAY = true) by (vm_compute; reflexivity).
  assert (Hturns : Spec.dasTurns 8 0%float
                     (Math_floor ((0 + 300 - DAS_DELAY) / DAS_PERIOD)%float) = 2%nat)
    by (vm_compute; reflexivity).
  destruct (auto_shift_pushes_to_the_held_side 8 _ 300%float Game.right
              Examples.wallPiece Hd Hp) as [_ H].
  destruct (H Hhigh) as (k & q & Hk & Hfree & Hstop & Hq & _ & _ & _ & Hpos & _ & Ht & _).
  split; [rewrite Ht; vm_compute; reflexivity |].
  split; [exact Hturns |].
  exists q. split; [exact Hq |].
  assert (Hk2 : k = 2%nat).
  { change (Game.dasTimer (Game.set_dasDirection (Some Game.right) Examples.wallGame))
      with 0%float in Hk, Hstop.
    rewrite Hturns in Hk, Hstop.
    destruct k as [| [| [| k]]]; [| | reflexivity | lia].
    - specialize (Hstop ltac:(lia)). vm_compute in Hstop. discriminate.
    - specialize (Hstop ltac:(lia)). vm_compute in Hstop. discriminate. }
  rewrite Hpos, Hk2. reflexivity.
Defined.

(** ** Dropping the piece *)

Section Drops.

Import Game.

(** The loop of [performHardDrop] walks the piece down the rows the loop of
    [getGhostPosition] walks through. *)
Lemma hardDropLoop_ghostLoop (fuel : nat) : forall (d : Z) (g : Game) (p : Piece),
  currentPiece g = Some p ->
  hardDropLoop fuel d g
  = let y := Board.ghostLoop fuel (board g) (type p) (px (position p))
                             (py (position p)) (rotation p) in
    (d + (y - py (position p)),
     if y =? py (position p) then g
     else set_lastWasRotation false
            (set_currentPiece
               (Some (set_position (mkPosition (px (position p)) y) p)) g)).
Proof.
  induction fuel as [| fuel IH]; intros d g p Hp; cbv zeta.
  - cbn [hardDropLoop Board.ghostLoop]. rewrite Z.eqb_refl. f_equal. lia.
  - cbn [hardDropLoop Board.ghostLoop]. unfold movePiece. rewrite Hp.
    rewrite Z.add_0_r.
    destruct (Board.isValidPosition (board g) (type p)
                (mkPosition (px (position p)) (py (position p) + 1)) (rotation p))
      eqn:Hvalid.
    + cbn [negb Z.eqb andb].
      rewrite (IH (d + 1) _ (set_position (mkPosition (px (position p))
                                             (py (position p) + 1)) p))
        by reflexivity.
      cbv zeta.
      cbn [board type position rotation px py set_position set_lastWasRotation
           set_currentPiece].
      pose proof (ghostLoop_path (board g) (type p) (px (position p)) (rotation p) fuel
                    (py (position p) + 1)) as [Hle _].
      set (y := Board.ghostLoop fuel (board g) (type p) (px (position p))
                                (py (position p) + 1) (rotation p)) in *.
      destruct (Z.eqb_spec y (py (position p))) as [Heq | _]; [lia |].
      f_equal; [lia |].
      destruct (Z.eqb_spec y (py (position p) + 1)) as [Heq | _]; [| reflexivity].
      now rewrite Heq.
    + rewrite Z.eqb_refl. f_equal. lia.
Qed.

(** One turn more than [getGhostPosition] takes changes nothing. *)
Lemma ghostLoop_spare_turn (g : Board.Grid) (t : TetrominoType) (p : Position)
    (r : RotationState) :
  Board.ghostLoop (S (Z.to_nat (TOTAL_HEIGHT - py p))) g t (px p) (py p) r
  = py (Board.getGhostPosition g t p r).
Proof.
  destruct (getGhostPosition_rests g t p r) as [_ Hrest].
  unfold Board.getGhostPosition in *. cbn [py] in *.
  pose proof (ghostLoop_path g t (px p) r (S (Z.to_nat (TOTAL_HEIGHT - py p))) (py p))
    as [Hle1 Hpath1].
  pose proof (ghostLoop_path g t (px p) r (Z.to_nat (TOTAL_HEIGHT - py p)) (py p))
    as [Hle2 Hpath2].
  apply (resting_row_unique g t (px p) r (py p)); auto.
  apply ghostLoop_stops. lia.
Qed.

Lemma spawnNextPiece_board (g : Game) :
  board (spawnNextPiece g) = board g /\ holdPiece (spawnNextPiece g) = holdPiece g.
Proof.
  unfold spawnNextPiece.
  destruct (BagRandomizer.next (bag g)) as [[t |] bag']; [| auto].
  destruct (negb _); auto.
Qed.

Lemma clearAndScore_board (g : Game) :
  board (clearAndScore g) = fst (Board.clearLines (board g)) /\
  holdPiece (clearAndScore g) = holdPiece g.
Proof.
  unfold clearAndScore.
  destruct (Board.clearLines (board g)) as [grid' clearedLines]. cbn [fst].
  destruct (Z.of_nat (length clearedLines) >? 0); [| auto].
  cbn [board holdPiece emit set_events].
  destruct (handleLineClears_frame (Z.of_nat (length clearedLines)) (set_board grid' g))
    as (_ & _ & Hb & _).
  split; [exact Hb |].
  unfold handleLineClears.
  repeat match goal with
         | |- context [if ?c then _ else _] => destruct c
         end; reflexivity.
Qed.

Lemma lockCurrentPiece_board (g : Game) (p : Piece) :
  currentPiece g = Some p ->
  board (lockCurrentPiece g)
  = fst (Board.clearLines
           (Board.lockPiece (board g) (type p) (position p) (rotation p))).
Proof.
  intros Hp. unfold lockCurrentPiece. rewrite Hp. cbn [Board.isGameOver].
  destruct (lockAndAnnounce_frame p g) as (_ & _ & _ & Hb).
  destruct (clearAndScore_board (lockAndAnnounce p g)) as [Hc _].
  rewrite Hb in Hc.
  destruct (lines (stats (clearAndScore (lockAndAnnounce p g))) >=? 999).
  - exact Hc.
  - cbn [board set_canHold].
    destruct (spawnNextPiece_board (clearAndScore (lockAndAnnounce p g))) as [Hs _].
    now rewrite Hs.
Qed.

Lemma soft_drop_press (g : Game) (p : Piece) :
  state g = PLAYING -> currentPiece g = Some p ->
  handleInput SOFT_DROP true g
  = if Board.isValidPosition (board g) (type p)
         (mkPosition (px (position p)) (py (position p) + 1)) (rotation p)
    then add_score SCORE_SOFT_DROP
           (set_lastWasRotation false
              (set_currentPiece
                 (Some (set_position
                          (mkPosition (px (position p)) (py (position p) + 1)) p)) g))
    else g.
Proof.
  intros Hs Hp. unfold handleInput, movePiece. rewrite Hs, Hp.
  cbn [GameState_eqb negb]. rewrite Z.add_0_r.
  now destruct (Board.isValidPosition _ _ _ _).
Qed.

Lemma getGhostPosition_is_resting_place_parts (g : Board.Grid) (t : TetrominoType)
    (p : Position) (r : RotationState) :
  py p <= py (Board.getGhostPosition g t p r) /\
  (forall y, py p < y <= py (Board.getGhostPosition g t p r) ->
             Board.isValidPosition g t (mkPosition (px p) y) r = true) /\
  Board.isValidPosition g t
    (mkPosition (px p) (py (Board.getGhostPosition g t p r) + 1)) r = false.
Proof.
  destruct (getGhostPosition_rests g t p r) as [_ Hrest].
  pose proof (ghostLoop_path g t (px p) r (Z.to_nat (TOTAL_HEIGHT - py p)) (py p))
    as [Hle Hpath].
  split; [exact Hle |]. split; [exact Hpath | exact Hrest].
Qed.

End Drops.

(** X17.  [performHardDrop] locks the piece exactly where
    [getGhostPosition] shows it: the piece is moved to the ghost position,
    the score grows by 2 for each row of the fall, then [lockCurrentPiece]
    runs; the board that results is the old one with the piece written in
    at the ghost position and the full lines cleared. *)
Theorem hard_drop_locks_at_ghost_position :
  forall (g : Game.Game) (p : Piece),
    Game.currentPiece g = Some p ->
    exists (q : Position) (g1 : Game.Game),
      Game.getGhostPosition g = Some q /\
      px q = px (position p) /\ py (position p) <= py q /\
      Game.performHardDrop g = Game.lockCurrentPiece g1 /\
      Game.currentPiece g1 = Some (Game.set_position q p) /\
      Game.board g1 = Game.board g /\
      Game.stats g1
      = mkStats (score (Game.stats g) + SCORE_HARD_DROP * (py q - py (position p)))
                (level (Game.stats g)) (lines (Game.stats g)) (combo (Game.stats g))
                (backToBack (Game.stats g)) /\
      Game.board (Game.performHardDrop g)
      = fst (Board.clearLines
               (Board.lockPiece (Game.board g) (type p) q (rotation p))).
Proof.
  intros g p Hp.
  set (q := Board.getGhostPosition (Game.board g) (type p) (position p) (rotation p)).
  destruct (getGhostPosition_rests (Game.board g) (type p) (position p) (rotation p))
    as [Hx _].
  destruct (getGhostPosition_is_resting_place_parts (Game.board g) (type p) (position p)
              (rotation p)) as (Hle & _).
  fold q in Hx, Hle.
  assert (Hrun : Game.hardDropLoop (Game.hardDropFuel g) 0 g
                 = (py q - py (position p),
                    if py q =? py (position p) then g
                    else Game.set_lastWasRotation false
                           (Game.set_currentPiece (Some (Game.set_position q p)) g))).
  { rewrite (hardDropLoop_ghostLoop _ 0 g p Hp). cbv zeta.
    unfold Game.hardDropFuel. rewrite Hp. rewrite ghostLoop_spare_turn. fold q.
    assert (Hq : mkPosition (px (position p)) (py q) = q)
      by (unfold q, Board.getGhostPosition; reflexivity).
    now rewrite Hq, Z.add_0_l. }
  assert (Hdrop : exists g0,
            Game.hardDropLoop (Game.hardDropFuel g) 0 g = (py q - py (position p), g0) /\
            Game.currentPiece g0 = Some (Game.set_position q p) /\
            Game.board g0 = Game.board g /\ Game.stats g0 = Game.stats g).
  { rewrite Hrun. destruct (Z.eqb_spec (py q) (py (position p))) as [Heq | _].
    - exists g. split; [reflexivity |]. split; [| auto].
      rewrite Hp. f_equal. unfold Game.set_position.
      destruct p as [ty [x y] r l lt]. cbn [position px py type rotation locked
                                            pieceLockTimer] in *.
      destruct q as [qx qy]. cbn [px py] in *. now subst.
    - eexists. split; [reflexivity |]. auto. }
  destruct Hdrop as (g0 & Hloop & Hp0 & Hb0 & Hs0).
  exists q, (Game.add_score ((py q - py (position p)) * SCORE_HARD_DROP) g0).
  assert (Hdo : Game.performHardDrop g
                = Game.lockCurrentPiece
                    (Game.add_score ((py q - py (position p)) * SCORE_HARD_DROP) g0)).
  { unfold Game.performHardDrop. rewrite Hp, Hloop. reflexivity. }
  split; [unfold Game.getGhostPosition; now rewrite Hp |].
  split; [exact Hx |]. split; [exact Hle |]. split; [exact Hdo |].
  split; [exact Hp0 |]. split; [exact Hb0 |]. split.
  - unfold Game.add_score. cbn [Game.stats Game.set_stats]. rewrite Hs0.
    f_equal. lia.
  - rewrite Hdo.
    rewrite (lockCurrentPiece_board _ (Game.set_position q p)) by exact Hp0.
    cbn [Game.board Game.add_score Game.set_stats]. rewrite Hb0. reflexivity.
Qed.

Lemma hard_drop_locks_at_ghost_position_witness :
  exists (q : Position) (g1 : Game.Game),
    Game.getGhostPosition Examples.wallGame = Some q /\
    px q = px (position Examples.wallPiece) /\
    py (position Examples.wallPiece) <= py q /\
    Game.performHardDrop Examples.wallGame = Game.lockCurrentPiece g1 /\
    Game.currentPiece g1 = Some (Game.set_position q Examples.wallPiece) /\
    Game.board g1 = Game.board Examples.wallGame /\
    Game.stats g1
    = mkStats (score (Game.stats Examples.wallGame)
               + SCORE_HARD_DROP * (py q - py (position Examples.wallPiece)))
              (level (Game.stats Examples.wallGame)) (lines (Game.stats Examples.wallGame))
              (combo (Game.stats Examples.wallGame))
              (backToBack (Game.stats Examples.wallGame)) /\
    Game.board (Game.performHardDrop Examples.wallGame)
    = fst (Board.clearLines
             (Board.lockPiece (Game.board Examples.wallGame) (type Examples.wallPiece) q
                (rotation Examples.wallPiece))).
Proof.
  exact (hard_drop_locks_at_ghost_position Examples.wallGame Examples.wallPiece eq_refl).
Defined.

(** X18.  Soft drop scores the rows actually fallen: in play, [k] presses
    of SOFT DROP move the piece down by [k] rows, or by the distance to the
    ghost position when that is less, and add as many points; board, level,
    lines and combo stay as they are.  A press with the piece at the ghost
    position changes nothing at all.  (A hard drop adds twice the
    distance.) *)
Theorem soft_drops_score_the_rows_fallen :
  forall (k : nat) (g : Game.Game) (p : Piece),
    Game.state g = PLAYING ->
    Game.currentPiece g = Some p ->
    let q := Board.getGhostPosition (Game.board g) (type p) (position p) (rotation p) in
    let fallen := Z.min (Z.of_nat k) (py q - py (position p)) in
    let g' := Nat.iter k (Game.handleInput Game.SOFT_DROP true) g in
    Game.currentPiece g'
    = Some (mkPiece (type p)
              (mkPosition (px (position p)) (py (position p) + fallen))
              (rotation p) (locked p) (pieceLockTimer p)) /\
    Game.stats g'
    = mkStats (score (Game.stats g) + SCORE_SOFT_DROP * fallen) (level (Game.stats g))
              (lines (Game.stats g)) (combo (Game.stats g)) (backToBack (Game.stats g)) /\
    Game.board g' = Game.board g /\
    Game.state g' = PLAYING /\
    (position p = q -> Game.handleInput Game.SOFT_DROP true g = g).
Proof.
  intros k g p Hs Hp q.
  destruct (getGhostPosition_is_resting_place_parts (Game.board g) (type p) (position p)
              (rotation p)) as (Hle & Hpath & Hrest).
  fold q in Hle, Hpath, Hrest.
  assert (Hmain : forall k,
            let fallen := Z.min (Z.of_nat k) (py q - py (position p)) in
            let g' := Nat.iter k (Game.handleInput Game.SOFT_DROP true) g in
            Game.currentPiece g'
            = Some (mkPiece (type p)
                      (mkPosition (px (position p)) (py (position p) + fallen))
                      (rotation p) (locked p) (pieceLockTimer p)) /\
            Game.stats g'
            = mkStats (score (Game.stats g) + SCORE_SOFT_DROP * fallen)
                      (level (Game.stats g)) (lines (Game.stats g))
                      (combo (Game.stats g)) (backToBack (Game.stats g)) /\
            Game.board g' = Game.board g /\
            Game.state g' = PLAYING).
  { clear k. induction k as [| k IH]; cbv zeta.
    - cbn [Nat.iter nat_rect Z.of_nat].
      replace (Z.min 0 (py q - py (position p))) with 0 by lia.
      rewrite Z.add_0_r, Z.mul_0_r, Z.add_0_r. rewrite Hp.
      split; [| split; [| split]]; auto.
      + f_equal. destruct p as [ty [x y] r l lt]. reflexivity.
      + now destruct (Game.stats g).
    - cbv zeta in IH. destruct IH as (Hp' & Hst' & Hb' & Hs').
      change (Nat.iter (S k) (Game.handleInput Game.SOFT_DROP true) g)
        with (Game.handleInput Game.SOFT_DROP true
                (Nat.iter k (Game.handleInput Game.SOFT_DROP true) g)).
      set (g' := Nat.iter k (Game.handleInput Game.SOFT_DROP true) g) in *.
      rewrite (soft_drop_press g' _ Hs' Hp'). cbn [type position rotation px py].
      rewrite Hb'.
      destruct (Z.lt_ge_cases (Z.of_nat k) (py q - py (position p))) as [Hlt | Hge].
      + replace (Z.min (Z.of_nat k) (py q - py (position p))) with (Z.of_nat k) in * by lia.
        replace (Z.min (Z.of_nat (S k)) (py q - py (position p)))
          with (Z.of_nat k + 1) by lia.
        rewrite (Hpath (py (position p) + Z.of_nat k + 1)) by lia.
        cbn [Game.currentPiece Game.stats Game.board Game.state Game.add_score
             Game.set_stats Game.set_lastWasRotation Game.set_currentPiece
             Game.set_position type rotation locked pieceLockTimer].
        rewrite Hst'. cbn [score level lines combo backToBack].
        split; [| split; [| split]]; auto.
        * unfold Game.set_position. cbn [type rotation locked pieceLockTimer].
          do 3 f_equal. lia.
        * f_equal. unfold SCORE_SOFT_DROP. lia.
      + replace (Z.min (Z.of_nat k) (py q - py (position p)))
          with (py q - py (position p)) in * by lia.
        replace (Z.min (Z.of_nat (S k)) (py q - py (position p)))
          with (py q - py (position p)) by lia.
        replace (py (position p) + (py q - py (position p)) + 1) with (py q + 1) by lia.
        rewrite Hrest. auto. }
  cbv zeta. destruct (Hmain k) as (H1 & H2 & H3 & H4).
  split; [exact H1 |]. split; [exact H2 |]. split; [exact H3 |]. split; [exact H4 |].
  intros Hq. rewrite (soft_drop_press g p Hs Hp).
  rewrite Hq at 2. replace (px (position p)) with (px q) by (now rewrite <- Hq).
  replace (mkPosition (px q) (py q + 1)) with (mkPosition (px (position p)) (py q + 1))
    by (now rewrite <- Hq).
  now rewrite Hrest.
Qed.

Lemma soft_drops_score_the_rows_fallen_witness :
  Game.stats (Nat.iter 40 (Game.handleInput Game.SOFT_DROP true) Examples.wallGame)
  = mkStats (0 + SCORE_SOFT_DROP * Z.min (Z.of_nat 40) (19 - 5)) 0 0 0 false.
Proof.
  exact (proj1 (proj2 (soft_drops_score_the_rows_fallen 40 Examples.wallGame
                         Examples.wallPiece eq_refl eq_refl))).
Defined.

(** ** Steering the piece *)

Section Steering.

Import Game.

Local Abbreviation calm := Spec.calm.
Local Abbreviation pieceFits := Spec.pieceFits.

Lemma calm_refl (g : Game) : calm g g.
Proof. unfold Spec.calm. repeat split; reflexivity. Qed.

Lemma calm_trans (g1 g2 g3 : Game) : calm g1 g2 -> calm g2 g3 -> calm g1 g3.
Proof.
  unfold Spec.calm. intros (A1 & A2 & A3 & A4 & A5 & A6 & A7) (B1 & B2 & B3 & B4 & B5 & B6 & B7).
  repeat split; congruence.
Qed.

Lemma movePiece_calm (dx dy : Z) (g : Game) : calm g (snd (movePiece dx dy g)).
Proof.
  unfold movePiece. destruct (currentPiece g) as [p |]; [| apply calm_refl].
  destruct (Board.isValidPosition _ _ _ _); [| apply calm_refl].
  cbn [snd]. destruct (negb (dx =? 0) && locked p); unfold Spec.calm; repeat split; reflexivity.
Qed.

Lemma applyRotation_calm (p : Piece) (pos : Position) (r : RotationState) (g : Game) :
  calm g (applyRotation p pos r g).
Proof.
  unfold applyRotation. destruct (locked p); unfold Spec.calm; repeat split; reflexivity.
Qed.

Lemma tryKicks_calm (g : Game) (p : Piece) (r : RotationState) (kicks : list Position) :
  calm g (snd (tryKicks g p r kicks)).
Proof.
  induction kicks as [| k rest IH]; cbn [tryKicks]; [apply calm_refl |].
  destruct (Board.isValidPosition _ _ _ _); [apply applyRotation_calm | exact IH].
Qed.

Lemma rotatePiece_calm (clockwise : bool) (g : Game) : calm g (snd (rotatePiece clockwise g)).
Proof.
  unfold rotatePiece. destruct (currentPiece g) as [p |]; [| apply calm_refl].
  destruct (Board.isValidPosition _ _ _ _); [apply applyRotation_calm | apply tryKicks_calm].
Qed.

Lemma dasLoop_calm (fuel : nat) : forall i n g, calm g (dasLoop fuel i n g).
Proof.
  induction fuel as [| fuel IH]; intros i n g; cbn [dasLoop]; [apply calm_refl |].
  destruct (PrimFloat.ltb i n); [| apply calm_refl].
  eapply calm_trans; [| apply IH]. unfold dasStep.
  destruct (dasDirection g) as [[|] |]; apply movePiece_calm.
Qed.

Lemma handleDas_calm (fuel : nat) (deltaTime : float) (g : Game) : calm g (handleDas fuel deltaTime g).
Proof.
  unfold handleDas. destruct (dasDirection g); [| apply calm_refl].
  assert (H : calm g (set_dasTimer (dasTimer g + deltaTime)%float g))
    by (unfold Spec.calm; repeat split; reflexivity).
  destruct (geb _ _); [| exact H].
  eapply calm_trans; [exact H |].
  eapply calm_trans; [apply dasLoop_calm |].
  unfold Spec.calm; repeat split; reflexivity.
Qed.

Lemma gravityStep_calm (di : float) (g : Game) : calm g (gravityStep di g).
Proof.
  unfold gravityStep.
  assert (H : calm g (set_dropTimer (dropTimer g - di)%float g))
    by (unfold Spec.calm; repeat split; reflexivity).
  pose proof (movePiece_calm 0 1 (set_dropTimer (dropTimer g - di)%float g)) as Hm.
  destruct (movePiece 0 1 (set_dropTimer (dropTimer g - di)%float g)) as [moved g2].
  cbn [snd] in Hm.
  assert (H2 : calm g g2) by exact (calm_trans _ _ _ H Hm).
  destruct moved; [exact H2 |].
  destruct (currentPiece g2) as [p |]; [| exact H2].
  destruct (negb (locked p)); [| exact H2].
  eapply calm_trans; [exact H2 |]. unfold Spec.calm; repeat split; reflexivity.
Qed.

Lemma gravityLoop_calm (di : float) (fuel : nat) : forall g, calm g (gravityLoop fuel di g).
Proof.
  induction fuel as [| fuel IH]; intros g; cbn [gravityLoop]; [apply calm_refl |].
  destruct (geb _ _); [| apply calm_refl].
  eapply calm_trans; [apply gravityStep_calm | apply IH].
Qed.

Lemma hardDropLoop_calm (fuel : nat) : forall d g, calm g (snd (hardDropLoop fuel d g)).
Proof.
  induction fuel as [| fuel IH]; intros d g; cbn [hardDropLoop]; [apply calm_refl |].
  pose proof (movePiece_calm 0 1 g) as Hm.
  destruct (movePiece 0 1 g) as [moved g1]. cbn [snd] in Hm.
  destruct moved; [| exact Hm].
  eapply calm_trans; [exact Hm | apply IH].
Qed.

Lemma pressMove_calm (dx : Z) (d : DasDirection) (pressed : bool) (g : Game) :
  calm g (pressMove dx d pressed g).
Proof.
  unfold pressMove. destruct pressed.
  - eapply calm_trans; [apply (movePiece_calm dx 0) |].
    unfold Spec.calm; repeat split; reflexivity.
  - destruct (dasDirection g) as [[|] |], d;
      unfold Spec.calm; repeat split; reflexivity.
Qed.

(** Validity of the active piece under the steering operations. *)
Lemma movePiece_fits (dx dy : Z) (g : Game) :
  pieceFits g -> pieceFits (snd (movePiece dx dy g)).
Proof.
  intros Hg. unfold movePiece. destruct (currentPiece g) as [p |] eqn:Hp; [| exact Hg].
  destruct (Board.isValidPosition _ _ _ _) eqn:Hvalid; [| exact Hg].
  cbn [snd]. unfold Spec.pieceFits.
  destruct (negb (dx =? 0) && locked p); exact Hvalid.
Qed.

Lemma applyRotation_fits (p : Piece) (pos : Position) (r : RotationState) (g : Game) :
  Board.isValidPosition (board g) (type p) pos r = true ->
  pieceFits (applyRotation p pos r g).
Proof.
  intros Hvalid. unfold applyRotation, Spec.pieceFits.
  destruct (locked p); exact Hvalid.
Qed.

Lemma tryKicks_fits (g : Game) (p : Piece) (r : RotationState) (kicks : list Position) :
  pieceFits g -> pieceFits (snd (tryKicks g p r kicks)).
Proof.
  intros Hg. induction kicks as [| k rest IH]; cbn [tryKicks]; [exact Hg |].
  destruct (Board.isValidPosition _ _ _ _) eqn:Hvalid; [| exact IH].
  now apply applyRotation_fits.
Qed.

Lemma rotatePiece_fits (clockwise : bool) (g : Game) :
  pieceFits g -> pieceFits (snd (rotatePiece clockwise g)).
Proof.
  intros Hg. unfold rotatePiece. destruct (currentPiece g) as [p |] eqn:Hp; [| exact Hg].
  destruct (Board.isValidPosition _ _ _ _) eqn:Hvalid.
  - now apply applyRotation_fits.
  - now apply tryKicks_fits.
Qed.

Lemma dasLoop_fits (fuel : nat) : forall i n g,
  pieceFits g -> pieceFits (dasLoop fuel i n g).
Proof.
  induction fuel as [| fuel IH]; intros i n g Hg; cbn [dasLoop]; [exact Hg |].
  destruct (PrimFloat.ltb i n); [| exact Hg].
  apply IH. unfold dasStep.
  destruct (dasDirection g) as [[|] |]; now apply movePiece_fits.
Qed.

Lemma fits_same (g g' : Game) :
  board g' = board g -> currentPiece g' = currentPiece g -> pieceFits g -> pieceFits g'.
Proof. unfold Spec.pieceFits. now intros -> ->. Qed.

Lemma handleDas_fits (fuel : nat) (deltaTime : float) (g : Game) :
  pieceFits g -> pieceFits (handleDas fuel deltaTime g).
Proof.
  intros Hg. unfold handleDas. destruct (dasDirection g); [| exact Hg].
  destruct (geb _ _); [| exact Hg].
  match goal with
  | |- pieceFits (set_dasTimer _ ?g2) =>
      apply (fits_same g2); [reflexivity | reflexivity |]
  end.
  apply dasLoop_fits. exact Hg.
Qed.

Lemma gravityStep_fits (di : float) (g : Game) : pieceFits g -> pieceFits (gravityStep di g).
Proof.
  intros Hg. unfold gravityStep.
  pose proof (movePiece_fits 0 1 (set_dropTimer (dropTimer g - di)%float g) Hg) as Hm.
  destruct (movePiece 0 1 (set_dropTimer (dropTimer g - di)%float g)) as [moved g2].
  cbn [snd] in Hm. destruct moved; [exact Hm |].
  destruct (currentPiece g2) as [p |] eqn:Hp; [| exact Hm].
  destruct (negb (locked p)); [| exact Hm].
  unfold Spec.pieceFits in *. rewrite Hp in Hm. exact Hm.
Qed.

Lemma gravityLoop_fits (di : float) (fuel : nat) : forall g,
  pieceFits g -> pieceFits (gravityLoop fuel di g).
Proof.
  induction fuel as [| fuel IH]; intros g Hg; cbn [gravityLoop]; [exact Hg |].
  destruct (geb _ _); [| exact Hg]. apply IH. now apply gravityStep_fits.
Qed.

Lemma pressMove_fits (dx : Z) (d : DasDirection) (pressed : bool) (g : Game) :
  pieceFits g -> pieceFits (pressMove dx d pressed g).
Proof.
  intros Hg. unfold pressMove. destruct pressed.
  - eapply fits_same; [| | apply (movePiece_fits dx 0); exact Hg]; reflexivity.
  - destruct (dasDirection g) as [[|] |], d; exact Hg.
Qed.

(** A rotation that went through names the offset it used. *)
Lemma tryKicks_success (g : Game) (p : Piece) (r : RotationState) (kicks : list Position) :
  fst (tryKicks g p r kicks) = true ->
  exists k, In k kicks /\ Spec.kickValid g p r k = true /\
            snd (tryKicks g p r kicks) = applyRotation p (Spec.kicked p k) r g.
Proof.
  induction kicks as [| k rest IH]; cbn [tryKicks]; [discriminate |].
  destruct (Board.isValidPosition _ _ _ _) eqn:Hvalid.
  - intros _. exists k. split; [now left |]. split; [exact Hvalid | reflexivity].
  - intros H. destruct (IH H) as (k' & Hin & Hv & Heq).
    exists k'. split; [now right |]. split; assumption.
Qed.

Lemma tryKicks_some_valid (g : Game) (p : Piece) (r : RotationState)
    (kicks : list Position) (k : Position) :
  In k kicks -> Spec.kickValid g p r k = true -> fst (tryKicks g p r kicks) = true.
Proof.
  induction kicks as [| k' rest IH]; cbn [tryKicks]; [contradiction |].
  intros [-> | Hin] Hv.
  - unfold Spec.kickValid, Spec.kicked in Hv. now rewrite Hv.
  - destruct (Board.isValidPosition _ _ _ _); [reflexivity | now apply IH].
Qed.

Lemma rotation_back (clockwise : bool) (r : RotationState) :
  Spec.targetRotation (negb clockwise) (Spec.targetRotation clockwise r) = r.
Proof. destruct clockwise, r; reflexivity. Qed.

End Steering.

(** X19.  A rotation that succeeded can be taken back: with the active
    piece on a valid position, after a successful [rotatePiece] the turn the
    other way succeeds as well (the kicks of the turn back are the opposites
    of the kicks of the turn, so the old place is among the candidates); and
    when the first turn needed no kick, the turn back restores the piece
    exactly. *)
Theorem rotation_can_be_taken_back :
  forall (g : Game.Game) (p : Piece) (clockwise : bool),
    Game.currentPiece g = Some p ->
    Spec.pieceFits g ->
    fst (Game.rotatePiece clockwise g) = true ->
    fst (Game.rotatePiece (negb clockwise) (snd (Game.rotatePiece clockwise g))) = true /\
    (Board.isValidPosition (Game.board g) (type p) (position p)
       (Spec.targetRotation clockwise (rotation p)) = true ->
     Game.currentPiece
       (snd (Game.rotatePiece (negb clockwise) (snd (Game.rotatePiece clockwise g))))
     = Some p).
Proof.
  intros g p clockwise Hp Hfits Hok.
  unfold Spec.pieceFits in Hfits. rewrite Hp in Hfits.
  assert (Hturn : forall (pos : Position) (g1 : Game.Game),
            Game.currentPiece g1
            = Some (mkPiece (type p) pos (Spec.targetRotation clockwise (rotation p))
                            (locked p) (pieceLockTimer p)) ->
            Game.board g1 = Game.board g ->
            Game.rotatePiece (negb clockwise) g1
            = if Board.isValidPosition (Game.board g) (type p) pos (rotation p)
              then (true, Game.applyRotation
                            (mkPiece (type p) pos
                               (Spec.targetRotation clockwise (rotation p))
                               (locked p) (pieceLockTimer p)) pos (rotation p) g1)
              else Game.tryKicks g1
                     (mkPiece (type p) pos (Spec.targetRotation clockwise (rotation p))
                              (locked p) (pieceLockTimer p))
                     (rotation p)
                     (PieceData.getWallKickOffsets (type p)
                        (Spec.targetRotation clockwise (rotation p)) (rotation p))).
  { intros pos g1 Hp1 Hb1. unfold Game.rotatePiece. rewrite Hp1, Hb1.
    cbn [type position rotation].
    change (if negb clockwise
            then PieceData.getNextRotationCW (Spec.targetRotation clockwise (rotation p))
            else PieceData.getNextRotationCCW (Spec.targetRotation clockwise (rotation p)))
      with (Spec.targetRotation (negb clockwise)
              (Spec.targetRotation clockwise (rotation p))).
    now rewrite rotation_back. }
  assert (Hfirst : Game.rotatePiece clockwise g
                   = if Board.isValidPosition (Game.board g) (type p) (position p)
                          (Spec.targetRotation clockwise (rotation p))
                     then (true, Game.applyRotation p (position p)
                                   (Spec.targetRotation clockwise (rotation p)) g)
                     else Game.tryKicks g p (Spec.targetRotation clockwise (rotation p))
                            (PieceData.getWallKickOffsets (type p) (rotation p)
                               (Spec.targetRotation clockwise (rotation p)))).
  { unfold Game.rotatePiece. rewrite Hp. reflexivity. }
  rewrite Hfirst in Hok |- *. clear Hfirst.
  destruct (Board.isValidPosition (Game.board g) (type p) (position p)
              (Spec.targetRotation clockwise (rotation p))) eqn:Hbasic.
  - cbn [snd].
    rewrite (Hturn (position p)
               (Game.applyRotation p (position p)
                  (Spec.targetRotation clockwise (rotation p)) g)).
    + rewrite Hfits. cbn [fst snd]. split; [reflexivity |]. intros _.
      rewrite applyRotation_piece. cbn [type locked pieceLockTimer]. now destruct p.
    + rewrite applyRotation_piece. reflexivity.
    + apply applyRotation_calm.
  - destruct (tryKicks_success _ _ _ _ Hok) as (k & Hin & Hv & Heq).
    rewrite Heq.
    rewrite (Hturn (Spec.kicked p k)
               (Game.applyRotation p (Spec.kicked p k)
                  (Spec.targetRotation clockwise (rotation p)) g)).
    + split; [| discriminate].
      destruct (Board.isValidPosition (Game.board g) (type p) (Spec.kicked p k)
                  (rotation p)); [reflexivity |].
      apply (tryKicks_some_valid _ _ _ _ (Spec.opposite k)).
      * rewrite kicks_reversed. now apply in_map.
      * unfold Spec.kickValid.
        destruct (applyRotation_calm p (Spec.kicked p k)
                    (Spec.targetRotation clockwise (rotation p)) g) as (Hb & _).
        rewrite Hb. cbn [type].
        replace (Spec.kicked _ (Spec.opposite k)) with (position p); [exact Hfits |].
        unfold Spec.kicked, Spec.opposite. cbn [position px py].
        destruct (position p) as [x y]. cbn [px py]. f_equal; lia.
    + rewrite applyRotation_piece. reflexivity.
    + apply applyRotation_calm.
Qed.

Lemma rotation_can_be_taken_back_witness :
  fst (Game.rotatePiece (negb true) (snd (Game.rotatePiece true Examples.wallGame)))
  = true.
Proof.
  refine (proj1 (rotation_can_be_taken_back Examples.wallGame Examples.wallPiece true
                   eq_refl _ _)).
  - vm_compute. reflexivity.
  - vm_compute. reflexivity.
Defined.

(** ** The active piece stays on free cells *)

Section Fits.

Import Game.

Local Abbreviation pieceFits := Spec.pieceFits.
Local Abbreviation inPlay := Spec.inPlay.

(** What [spawnNextPiece] does with a ready bag. *)
Lemma spawnNextPiece_outcome (g : Game) :
  Spec.bagReady (bag g) ->
  exists t,
    fst (BagRandomizer.next (bag g)) = Some t /\
    currentPiece (spawnNextPiece g)
    = Some (mkPiece t (PieceData.getSpawnPosition t) SPAWN false 0%float) /\
    ((Board.isValidPosition (board g) t (PieceData.getSpawnPosition t) SPAWN = true /\
      state (spawnNextPiece g) = state g /\ events (spawnNextPiece g) = events g) \/
     (Board.isValidPosition (board g) t (PieceData.getSpawnPosition t) SPAWN = false /\
      state (spawnNextPiece g) = GAME_OVER /\
      events (spawnNextPiece g) = events g ++ [ev_game_over])).
Proof.
  intros Hready. destruct (bag_next_some _ Hready) as [(t & Ht) _].
  exists t. split; [exact Ht |].
  assert (Hnext : BagRandomizer.next (bag g) = (Some t, snd (BagRandomizer.next (bag g))))
    by (rewrite <- Ht; now destruct (BagRandomizer.next (bag g))).
  destruct (Board.isValidPosition (board g) t (PieceData.getSpawnPosition t) SPAWN)
    eqn:Hvalid.
  - rewrite (spawnNextPiece_valid g t _ Hnext Hvalid).
    split; [reflexivity |]. left. auto.
  - rewrite (spawnNextPiece_blocked g t _ Hnext Hvalid).
    split; [reflexivity |]. right. auto.
Qed.

Lemma spawnNextPiece_fits (g : Game) :
  Spec.bagReady (bag g) -> inPlay (spawnNextPiece g) -> pieceFits (spawnNextPiece g).
Proof.
  intros Hready Hplay.
  destruct (spawnNextPiece_outcome g Hready) as (t & _ & Hp & [(Hv & _) | (_ & Hs & _)]).
  - unfold Spec.pieceFits. rewrite Hp. cbn [type position rotation].
    destruct (spawnNextPiece_board g) as [-> _]. exact Hv.
  - destruct Hplay as [H | H]; congruence.
Qed.

Lemma lockCurrentPiece_fits (g : Game) :
  Spec.sound g -> inPlay (lockCurrentPiece g) -> pieceFits (lockCurrentPiece g).
Proof.
  intros [_ Hready]. unfold lockCurrentPiece.
  destruct (currentPiece g) as [p |] eqn:Hp.
  - cbn [Board.isGameOver].
    destruct (lockAndAnnounce_frame p g) as (_ & Hbag1 & _ & _).
    destruct (clearAndScore_frame (lockAndAnnounce p g)) as (_ & Hbag2 & _).
    destruct (lines (stats (clearAndScore (lockAndAnnounce p g))) >=? 999).
    + intros [H | H]; discriminate H.
    + intros Hplay.
      apply (fits_same (spawnNextPiece (clearAndScore (lockAndAnnounce p g))));
        [reflexivity | reflexivity |].
      apply spawnNextPiece_fits; [| exact Hplay]. now rewrite Hbag2, Hbag1.
  - intros _. unfold Spec.pieceFits. now rewrite Hp.
Qed.

Lemma handleLockDelay_fits (deltaTime : float) (g : Game) :
  Spec.sound g -> pieceFits g ->
  inPlay (handleLockDelay deltaTime g) -> pieceFits (handleLockDelay deltaTime g).
Proof.
  intros Hsound Hfits. unfold handleLockDelay.
  destruct (currentPiece g) as [p |] eqn:Hp; [| now intros _].
  destruct (locked p); [| now intros _].
  destruct (geb _ _); [| now intros _].
  apply lockCurrentPiece_fits. exact Hsound.
Qed.

Lemma update_fits (fuel : nat) (deltaTime : float) (g : Game) :
  Spec.sound g -> (inPlay g -> pieceFits g) ->
  inPlay (update fuel deltaTime g) -> pieceFits (update fuel deltaTime g).
Proof.
  intros Hsound Hfits. unfold update.
  destruct (GameState_eqb (state g) PLAYING) eqn:Hs; cbn [negb]; [| exact Hfits].
  assert (Hplaying : state g = PLAYING) by (now destruct (state g)).
  destruct (currentPiece g) as [p |] eqn:Hp; [| exact Hfits].
  specialize (Hfits (or_introl Hplaying)).
  apply handleLockDelay_fits.
  - apply gravityLoop_sound.
    apply (sound_same (handleDas fuel deltaTime g)); [reflexivity | reflexivity |].
    now apply handleDas_sound.
  - apply gravityLoop_fits.
    apply (fits_same (handleDas fuel deltaTime g)); [reflexivity | reflexivity |].
    now apply handleDas_fits.
Qed.

Lemma performHardDrop_fits (g : Game) :
  Spec.sound g -> (inPlay g -> pieceFits g) ->
  inPlay (performHardDrop g) -> pieceFits (performHardDrop g).
Proof.
  intros Hsound Hfits. unfold performHardDrop.
  destruct (currentPiece g) as [p |]; [| exact Hfits].
  pose proof (hardDropLoop_sound (hardDropFuel g) 0 g Hsound) as H.
  destruct (hardDropLoop (hardDropFuel g) 0 g) as [d g1]. cbn [snd] in H.
  apply lockCurrentPiece_fits.
  apply (sound_same g1); [reflexivity | reflexivity | exact H].
Qed.

Lemma performHold_fits (g : Game) :
  Spec.sound g -> (inPlay g -> pieceFits g) ->
  (forall h, holdPiece g = Some h ->
     Board.isValidPosition (board g) h (PieceData.getSpawnPosition h) SPAWN = true) ->
  inPlay (performHold g) -> pieceFits (performHold g).
Proof.
  intros [_ Hready] Hfits Hheld. unfold performHold.
  destruct (currentPiece g) as [p |]; [| exact Hfits].
  destruct (canHold g); cbn [negb]; [| exact Hfits].
  destruct (holdPiece g) as [h |].
  - intros _. unfold Spec.pieceFits. cbn. now apply Hheld.
  - intros Hplay.
    apply (fits_same (spawnNextPiece g)); [reflexivity | reflexivity |].
    apply spawnNextPiece_fits; [exact Hready | exact Hplay].
Qed.

Lemma start_fits (now : Z) (g : Game) : validClock now -> pieceFits (start now g).
Proof.
  intros Hnow. unfold start.
  destruct (spawnNextPiece_outcome (set_state PLAYING (reset now g)))
    as (t & _ & Hp & _).
  { apply create_ready. exact Hnow. }
  unfold Spec.pieceFits. rewrite Hp. cbn [type position rotation].
  destruct (spawnNextPiece_board (set_state PLAYING (reset now g))) as [-> _].
  apply spawn_valid_on_empty.
Qed.

End Fits.

(** X20.  The active piece never overlaps the stack or leaves the field
    while the game is in play or paused: from a controller with a 22 x 10
    board and a ready bag, every call keeps this, with one exception, which
    the hypothesis names: a press of HOLD that swaps in the held piece puts
    it at its spawn position without testing that position. *)
Theorem active_piece_stays_on_free_cells :
  forall (g : Game.Game) (c : Game.Call),
    Spec.sound g ->
    Game.validCall c ->
    (Spec.inPlay g -> Spec.pieceFits g) ->
    (forall h,
       c = Game.CallHandleInput Game.HOLD true -> Game.holdPiece g = Some h ->
       Board.isValidPosition (Game.board g) h (PieceData.getSpawnPosition h) SPAWN = true) ->
    Spec.inPlay (Game.call c g) -> Spec.pieceFits (Game.call c g).
Proof.
  intros g c Hsound Hvalid Hfits Hheld.
  destruct c as [now | now | fuel deltaTime | a pressed | count]; cbn [Game.call].
  - intros _. now apply start_fits.
  - intros _. exact I.
  - now apply update_fits.
  - unfold Game.handleInput.
    destruct (Game.GameState_eqb (Game.state g) PLAYING) eqn:Hs; cbn [negb].
    + assert (Hplaying : Game.state g = PLAYING) by (now destruct (Game.state g)).
      pose proof (Hfits (or_introl Hplaying)) as Hnow.
      assert (Hpause : Spec.inPlay (Game.set_state PAUSED g) ->
                       Spec.pieceFits (Game.set_state PAUSED g)) by (intros _; exact Hnow).
      destruct (Game.currentPiece g) as [p |] eqn:Hp.
      * destruct a; destruct pressed; try exact Hfits; try exact Hpause; intros Hplay.
        -- now apply pressMove_fits.
        -- now apply pressMove_fits.
        -- now apply pressMove_fits.
        -- now apply pressMove_fits.
        -- pose proof (movePiece_fits 0 1 g Hnow) as Hm.
           destruct (Game.movePiece 0 1 g) as [moved g1]. cbn [snd] in Hm.
           destruct moved; exact Hm.
        -- now apply performHardDrop_fits.
        -- now apply rotatePiece_fits.
        -- now apply rotatePiece_fits.
        -- destruct (Game.canHold g); cbn [andb] in *; [| exact Hnow].
           apply performHold_fits; auto.
      * destruct a; destruct pressed; try exact Hfits; exact Hpause.
    + destruct a; try exact Hfits.
      destruct (pressed && Game.GameState_eqb (Game.state g) PAUSED) eqn:Hp;
        [| exact Hfits].
      intros _. apply andb_prop in Hp. destruct Hp as [_ Hp].
      apply Hfits. right. now destruct (Game.state g).
  - unfold Game.getNextPieces.
    destruct (BagRandomizer.preview count (Game.bag g)) as [ps bag']. exact Hfits.
Qed.

Lemma active_piece_stays_on_free_cells_witness :
  Spec.pieceFits (Game.call (Game.CallHandleInput Game.HARD_DROP true) Examples.wallGame).
Proof.
  apply active_piece_stays_on_free_cells.
  - split; [exact createEmptyGrid_wf | exact (create_ready 54321 validClock_54321)].
  - exact I.
  - intros _. vm_compute. reflexivity.
  - intros h H. discriminate H.
  - left. vm_compute. reflexivity.
Defined.

(** ** Game over: the state and the event *)

Section GameOver.

Import Game.

Local Abbreviation signalled := Spec.signalled.
Local Abbreviation quietly := Spec.quietly.

Lemma signalled_quiet (g g' : Game) :
  state g' <> GAME_OVER -> quietly g g' -> signalled g g'.
Proof. intros Hs Hq. right. now split. Qed.

Lemma signalled_calm (g g' : Game) :
  state g <> GAME_OVER -> Spec.calm g g' -> signalled g g'.
Proof.
  intros Hs (_ & _ & Hstate & _ & _ & _ & Hev). apply signalled_quiet.
  - now rewrite Hstate.
  - now apply quietly_same.
Qed.

Lemma signalled_after (g g1 g2 : Game) :
  quietly g g1 -> signalled g1 g2 -> signalled g g2.
Proof.
  intros (evs & Hev & Hall) [(Hs & pre & Hpre & Hq) | (Hs & Hq)].
  - left. split; [exact Hs |]. exists (evs ++ pre). split.
    + rewrite Hpre, Hev. now rewrite <- !app_assoc.
    + apply Forall_app. now split.
  - right. split; [exact Hs |].
    apply (quietly_trans g g1 g2); [| exact Hq]. now exists evs.
Qed.

Lemma signalled_same (g g1 g2 : Game) :
  state g2 = state g1 -> events g2 = events g1 -> signalled g g1 -> signalled g g2.
Proof.
  intros Hs He [(H1 & pre & Hpre & Hq) | (H1 & evs & Hev & Hq)].
  - left. split; [congruence |]. exists pre. split; [congruence | exact Hq].
  - right. split; [congruence |]. exists evs. split; [congruence | exact Hq].
Qed.

Lemma calm_signalled (g g1 g2 : Game) :
  Spec.calm g g1 -> signalled g1 g2 -> signalled g g2.
Proof.
  intros (_ & _ & _ & _ & _ & _ & Hev). apply signalled_after. now apply quietly_same.
Qed.

Lemma spawnNextPiece_signalled (g : Game) :
  state g <> GAME_OVER -> signalled g (spawnNextPiece g).
Proof.
  intros Hs. unfold spawnNextPiece.
  destruct (BagRandomizer.next (bag g)) as [[t |] bag'].
  - destruct (negb _).
    + left. split; [reflexivity |]. exists []. split; [reflexivity | constructor].
    + apply signalled_quiet; [exact Hs |]. now apply quietly_same.
  - apply signalled_quiet; [exact Hs |]. now apply quietly_same.
Qed.

Lemma lockCurrentPiece_signalled (g : Game) :
  state g <> GAME_OVER -> signalled g (lockCurrentPiece g).
Proof.
  intros Hs. unfold lockCurrentPiece.
  destruct (currentPiece g) as [p |];
    [| apply signalled_quiet; [exact Hs | apply quietly_refl]].
  cbn [Board.isGameOver].
  destruct (lockAndAnnounce_frame p g) as (_ & _ & Hs1 & _).
  destruct (clearAndScore_frame (lockAndAnnounce p g)) as (_ & _ & Hs2).
  assert (Hq : quietly g (clearAndScore (lockAndAnnounce p g))).
  { apply (quietly_trans g (lockAndAnnounce p g)).
    - apply lockAndAnnounce_quietly.
    - apply clearAndScore_quietly. }
  destruct (lines (stats (clearAndScore (lockAndAnnounce p g))) >=? 999).
  - apply signalled_quiet; [discriminate |].
    apply (quietly_after g (clearAndScore (lockAndAnnounce p g))); [reflexivity | exact Hq].
  - apply (signalled_same g (spawnNextPiece (clearAndScore (lockAndAnnounce p g))));
      [reflexivity | reflexivity |].
    apply (signalled_after g (clearAndScore (lockAndAnnounce p g))); [exact Hq |].
    apply spawnNextPiece_signalled. now rewrite Hs2, Hs1.
Qed.

Lemma handleLockDelay_signalled (deltaTime : float) (g : Game) :
  state g <> GAME_OVER -> signalled g (handleLockDelay deltaTime g).
Proof.
  intros Hs. unfold handleLockDelay.
  assert (Hsame : forall g', state g' = state g -> events g' = events g -> signalled g g').
  { intros g' H1 H2. apply signalled_quiet; [now rewrite H1 | now apply quietly_same]. }
  destruct (currentPiece g) as [p |]; [| now apply Hsame].
  destruct (locked p); [| now apply Hsame].
  destruct (geb _ _); [| now apply Hsame].
  apply (signalled_after g (set_lockTimer (lockTimer g + deltaTime)%float g)).
  - now apply quietly_same.
  - now apply lockCurrentPiece_signalled.
Qed.

Lemma update_signalled (fuel : nat) (deltaTime : float) (g : Game) :
  state g <> GAME_OVER -> signalled g (update fuel deltaTime g).
Proof.
  intros Hs. unfold update.
  destruct (negb _); [apply signalled_quiet; [exact Hs | apply quietly_refl] |].
  destruct (currentPiece g); [| apply signalled_quiet; [exact Hs | apply quietly_refl]].
  set (g2 := set_dropTimer (dropTimer (handleDas fuel deltaTime g) + deltaTime)%float
                           (handleDas fuel deltaTime g)).
  assert (Hcalm : Spec.calm g (gravityLoop fuel
                                           (getDropInterval g2) g2)).
  { apply (calm_trans g g2); [| apply gravityLoop_calm].
    apply (calm_trans g (handleDas fuel deltaTime g)); [apply handleDas_calm |].
    unfold Spec.calm; repeat split; reflexivity. }
  apply (calm_signalled g _ _ Hcalm).
  apply handleLockDelay_signalled.
  destruct Hcalm as (_ & _ & -> & _). exact Hs.
Qed.

Lemma performHardDrop_signalled (g : Game) :
  state g <> GAME_OVER -> signalled g (performHardDrop g).
Proof.
  intros Hs. unfold performHardDrop.
  destruct (currentPiece g); [| apply signalled_quiet; [exact Hs | apply quietly_refl]].
  pose proof (hardDropLoop_calm (hardDropFuel g) 0 g) as Hcalm.
  destruct (hardDropLoop (hardDropFuel g) 0 g) as [d g1]. cbn [snd] in Hcalm.
  apply (calm_signalled g g1 _ Hcalm).
  apply (signalled_after g1 (add_score (d * SCORE_HARD_DROP) g1)).
  - now apply quietly_same.
  - apply lockCurrentPiece_signalled. cbn [state add_score set_stats].
    destruct Hcalm as (_ & _ & -> & _). exact Hs.
Qed.

Lemma performHold_signalled (g : Game) :
  state g <> GAME_OVER -> signalled g (performHold g).
Proof.
  intros Hs. unfold performHold.
  destruct (currentPiece g); [| apply signalled_quiet; [exact Hs | apply quietly_refl]].
  destruct (negb (canHold g)); [apply signalled_quiet; [exact Hs | apply quietly_refl] |].
  destruct (holdPiece g).
  - apply signalled_quiet; [exact Hs | now apply quietly_same].
  - apply (signalled_same g (spawnNextPiece g)); [reflexivity | reflexivity |].
    now apply spawnNextPiece_signalled.
Qed.

Lemma handleInput_signalled (a : InputAction) (pressed : bool) (g : Game) :
  state g <> GAME_OVER -> signalled g (handleInput a pressed g).
Proof.
  intros Hs.
  assert (Hrefl : signalled g g) by (apply signalled_quiet; [exact Hs | apply quietly_refl]).
  assert (Hset : forall st, st <> GAME_OVER -> signalled g (set_state st g)).
  { intros st Hst. apply signalled_quiet; [exact Hst | now apply quietly_same]. }
  unfold handleInput. destruct (negb _).
  - destruct a; try exact Hrefl.
    destruct (pressed && _); [apply Hset; discriminate | exact Hrefl].
  - destruct (currentPiece g);
      [| destruct a, pressed; try exact Hrefl; apply Hset; discriminate].
    destruct a, pressed; try exact Hrefl; try (apply Hset; discriminate).
    + apply signalled_calm; [exact Hs | apply pressMove_calm].
    + apply signalled_calm; [exact Hs | apply pressMove_calm].
    + apply signalled_calm; [exact Hs | apply pressMove_calm].
    + apply signalled_calm; [exact Hs | apply pressMove_calm].
    + pose proof (movePiece_calm 0 1 g) as Hcalm.
      destruct (movePiece 0 1 g) as [moved g1]. cbn [snd] in Hcalm.
      destruct moved; [| now apply signalled_calm].
      apply (calm_signalled g g1 _ Hcalm).
      apply signalled_quiet; [| now apply quietly_same].
      cbn [state add_score set_stats]. destruct Hcalm as (_ & _ & -> & _). exact Hs.
    + now apply performHardDrop_signalled.
    + apply signalled_calm; [exact Hs | apply rotatePiece_calm].
    + apply signalled_calm; [exact Hs | apply rotatePiece_calm].
    + destruct (canHold g); cbn [andb]; [now apply performHold_signalled | exact Hrefl].
Qed.

Lemma call_signalled (c : Call) (g : Game) :
  state g <> GAME_OVER -> signalled g (call c g).
Proof.
  intros Hs. destruct c as [now | now | fuel deltaTime | a pressed | count]; cbn [call].
  - unfold start.
    apply (signalled_after g (set_state PLAYING (reset now g)));
      [now apply quietly_same |].
    apply spawnNextPiece_signalled. discriminate.
  - apply signalled_quiet; [discriminate | now apply quietly_same].
  - now apply update_signalled.
  - now apply handleInput_signalled.
  - unfold getNextPieces. destruct (BagRandomizer.preview count (bag g)) as [ps bag'].
    apply signalled_quiet; [exact Hs | now apply quietly_same].
Qed.

End GameOver.

(** X21.  Game over is reported twice over: a call on a controller that is
    not in the game-over state leaves it in that state exactly when it emits
    the [game_over] event, which is then the last event of the call; every
    other event of any call reports no end. *)
Theorem game_over_comes_with_its_event :
  forall (g : Game.Game) (c : Game.Call),
    Game.state g <> GAME_OVER ->
    (Game.state (Game.call c g) = GAME_OVER <->
     exists pre,
       Game.events (Game.call c g) = Game.events g ++ pre ++ [Game.ev_game_over]) /\
    (Game.state (Game.call c g) = GAME_OVER ->
     exists pre,
       Game.events (Game.call c g) = Game.events g ++ pre ++ [Game.ev_game_over] /\
       Forall (fun e => Spec.terminalEvent e = false) pre) /\
    (Game.state (Game.call c g) <> GAME_OVER -> Spec.quietly g (Game.call c g)).
Proof.
  intros g c Hs. pose proof (call_signalled c g Hs) as Hsig.
  split; [split |]; [| | split].
  - intros Hover. destruct Hsig as [(_ & pre & Hpre & _) | (Hno & _)];
      [now exists pre | contradiction].
  - intros (pre & Hpre).
    destruct Hsig as [(Hover & _) | (_ & evs & Hev & Hq)]; [exact Hover |].
    exfalso. rewrite Hev in Hpre. apply app_inv_head in Hpre. subst evs.
    apply Forall_app in Hq. destruct Hq as [_ Hq]. inversion Hq; discriminate.
  - intros Hover. destruct Hsig as [(_ & H) | (Hno & _)]; [exact H | contradiction].
  - intros Hno. destruct Hsig as [(Hover & _) | (_ & Hq)]; [contradiction | exact Hq].
Qed.

Lemma game_over_comes_with_its_event_witness :
  Game.state (Game.call (Game.CallHandleInput Game.HARD_DROP true) Examples.toppedOut)
  = GAME_OVER /\
  exists pre,
    Game.events (Game.call (Game.CallHandleInput Game.HARD_DROP true) Examples.toppedOut)
    = Game.events Examples.toppedOut ++ pre ++ [Game.ev_game_over].
Proof.
  assert (Hs : Game.state Examples.toppedOut <> GAME_OVER) by discriminate.
  assert (Hover : Game.state (Game.call (Game.CallHandleInput Game.HARD_DROP true)
                                Examples.toppedOut) = GAME_OVER)
    by (vm_compute; reflexivity).
  split; [exact Hover |].
  exact (proj1 (proj1 (game_over_comes_with_its_event Examples.toppedOut
                         (Game.CallHandleInput Game.HARD_DROP true) Hs)) Hover).
Defined.

(** ** The score *)

Section Score.

Import Game.

Local Abbreviation gain := Spec.gain.
Local Abbreviation fair := Spec.fair.

Lemma gain_refl (s : GameStats) : gain s s.
Proof. intros H. split; [exact H | lia]. Qed.

Lemma gain_trans (s1 s2 s3 : GameStats) : gain s1 s2 -> gain s2 s3 -> gain s1 s3.
Proof.
  intros H12 H23 H1. destruct (H12 H1) as [H2 Hle12]. destruct (H23 H2) as [H3 Hle23].
  split; [exact H3 | lia].
Qed.

Lemma gain_same (s s' : GameStats) : s' = s -> gain s s'.
Proof. intros ->. apply gain_refl. Qed.

Lemma handleLineClears_score (n : Z) (g : Game) :
  exists baseScore,
    0 <= baseScore /\
    score (stats (handleLineClears n g))
    = score (stats g)
      + (baseScore * (level (stats g) + 1)
         + 50 * (combo (stats g) + 1) * (level (stats g) + 1)) /\
    combo (stats (handleLineClears n g)) = combo (stats g) + 1.
Proof.
  unfold handleLineClears.
  set (up := Z.min ((lines (stats g) + n) / 10) 29 >? level (stats g)).
  destruct (combo (stats g) + 1 >? 1), up, (n =? 1), (n =? 2), (n =? 3), (n =? 4),
    (backToBack (stats g)); cbv beta iota zeta;
    cbn [stats set_stats emit set_events score combo];
    eexists; (split; [| split; reflexivity]); vm_compute; discriminate.
Qed.

Lemma handleLineClears_gain (n : Z) (g : Game) :
  gain (stats g) (stats (handleLineClears n g)).
Proof.
  intros (Hscore & Hlevel & Hcombo).
  destruct (handleLineClears_score n g) as (baseScore & Hbase & Hs & Hc).
  pose proof (handleLineClears_level n g) as Hl.
  assert (H1 : 0 <= baseScore * (level (stats g) + 1)) by (apply Z.mul_nonneg_nonneg; lia).
  assert (H2 : 0 <= 50 * (combo (stats g) + 1) * (level (stats g) + 1))
    by (apply Z.mul_nonneg_nonneg; lia).
  unfold Spec.fair. rewrite Hs, Hc, Hl. lia.
Qed.

Lemma clearAndScore_gain (g : Game) : gain (stats g) (stats (clearAndScore g)).
Proof.
  unfold clearAndScore. destruct (Board.clearLines (board g)) as [grid' cl].
  destruct (Z.of_nat (length cl) >? 0).
  - apply (handleLineClears_gain _ (set_board grid' g)).
  - intros (Hscore & Hlevel & Hcombo). unfold Spec.fair.
    cbn [stats set_stats set_board set_combo score level combo]. lia.
Qed.

Lemma lockCurrentPiece_gain (g : Game) : gain (stats g) (stats (lockCurrentPiece g)).
Proof.
  destruct (currentPiece g) as [p |] eqn:Hp.
  - rewrite (lockCurrentPiece_stats g p Hp).
    rewrite <- (lockAndAnnounce_stats p g) at 1. apply clearAndScore_gain.
  - unfold lockCurrentPiece. rewrite Hp. apply gain_refl.
Qed.

Lemma add_score_gain (d : Z) (g : Game) :
  0 <= d -> gain (stats g) (stats (add_score d g)).
Proof.
  intros Hd (Hscore & Hlevel & Hcombo). unfold Spec.fair.
  cbn [stats add_score set_stats score level combo]. lia.
Qed.

Lemma hardDropLoop_distance (fuel : nat) : forall d g,
  0 <= d -> 0 <= fst (hardDropLoop fuel d g).
Proof.
  induction fuel as [| fuel IH]; intros d g Hd; cbn [hardDropLoop]; [exact Hd |].
  destruct (movePiece 0 1 g) as [moved g1].
  destruct moved; [apply IH; lia | exact Hd].
Qed.

Lemma performHardDrop_gain (g : Game) : gain (stats g) (stats (performHardDrop g)).
Proof.
  unfold performHardDrop. destruct (currentPiece g); [| apply gain_refl].
  pose proof (hardDropLoop_stats (hardDropFuel g) 0 g) as Hs.
  pose proof (hardDropLoop_distance (hardDropFuel g) 0 g ltac:(lia)) as Hd.
  destruct (hardDropLoop (hardDropFuel g) 0 g) as [d g1]. cbn [fst snd] in *.
  rewrite <- Hs.
  apply (gain_trans _ (stats (add_score (d * SCORE_HARD_DROP) g1))).
  - apply add_score_gain. unfold SCORE_HARD_DROP. lia.
  - apply lockCurrentPiece_gain.
Qed.

Lemma handleLockDelay_gain (deltaTime : float) (g : Game) :
  gain (stats g) (stats (handleLockDelay deltaTime g)).
Proof.
  unfold handleLockDelay. destruct (currentPiece g) as [p |]; [| apply gain_refl].
  destruct (locked p); [| apply gain_refl].
  destruct (geb _ _); [| apply gain_refl].
  apply (lockCurrentPiece_gain (set_lockTimer (lockTimer g + deltaTime)%float g)).
Qed.

Lemma update_gain (fuel : nat) (deltaTime : float) (g : Game) : gain (stats g) (stats (update fuel deltaTime g)).
Proof.
  unfold update. destruct (negb _); [apply gain_refl |].
  destruct (currentPiece g); [| apply gain_refl].
  set (g2 := set_dropTimer (dropTimer (handleDas fuel deltaTime g) + deltaTime)%float
                           (handleDas fuel deltaTime g)).
  assert (Hs : stats (gravityLoop fuel
                                  (getDropInterval g2) g2) = stats g).
  { rewrite gravityLoop_stats. unfold g2. cbn [stats set_dropTimer].
    apply handleDas_stats. }
  rewrite <- Hs at 1. apply handleLockDelay_gain.
Qed.

Lemma handleInput_gain (a : InputAction) (pressed : bool) (g : Game) :
  gain (stats g) (stats (handleInput a pressed g)).
Proof.
  unfold handleInput. destruct (negb _).
  - destruct a; try apply gain_refl. destruct (pressed && _); apply gain_refl.
  - destruct (currentPiece g); [| destruct a, pressed; apply gain_refl].
    destruct a, pressed; try apply gain_refl.
    + apply gain_same, pressMove_stats.
    + apply gain_same, pressMove_stats.
    + apply gain_same, pressMove_stats.
    + apply gain_same, pressMove_stats.
    + pose proof (movePiece_stats 0 1 g) as Hs.
      destruct (movePiece 0 1 g) as [moved g1]. cbn [snd] in Hs.
      destruct moved; [| now apply gain_same].
      rewrite <- Hs. apply add_score_gain. unfold SCORE_SOFT_DROP. lia.
    + apply performHardDrop_gain.
    + apply gain_same, rotatePiece_stats.
    + apply gain_same, rotatePiece_stats.
    + destruct (canHold g); cbn [andb]; [| apply gain_refl].
      apply gain_same, performHold_stats.
Qed.

Lemma call_gain (c : Call) (g : Game) :
  resets c = false -> gain (stats g) (stats (call c g)).
Proof.
  destruct c as [now | now | fuel deltaTime | a pressed | count]; cbn [resets call];
    try discriminate; intros _.
  - apply update_gain.
  - apply handleInput_gain.
  - unfold getNextPieces. destruct (BagRandomizer.preview count (bag g)).
    apply gain_refl.
Qed.

Lemma reachable_fair (g : Game) : reachable g -> fair (stats g).
Proof.
  induction 1 as [now Hnow | g c Hg IH Hc].
  - unfold Spec.fair. cbn. lia.
  - destruct (resets c) eqn:Hr.
    + destruct c; try discriminate Hr; cbn [call].
      * unfold start. rewrite spawnNextPiece_stats. unfold Spec.fair. cbn. lia.
      * unfold Spec.fair. cbn. lia.
    + now apply (call_gain c g Hr).
Qed.

End Score.

(** X22.  In every controller a program can reach, the score, the level and
    the combo count are not negative, and no call other than [start] and
    [reset] lowers the score. *)
Theorem score_never_goes_down :
  forall g : Game.Game,
    Game.reachable g ->
    0 <= score (Game.stats g) /\
    0 <= level (Game.stats g) /\
    0 <= combo (Game.stats g) /\
    forall c : Game.Call,
      Game.resets c = false ->
      score (Game.stats g) <= score (Game.stats (Game.call c g)).
Proof.
  intros g Hg. pose proof (reachable_fair g Hg) as Hfair.
  destruct Hfair as (H1 & H2 & H3).
  split; [exact H1 |]. split; [exact H2 |]. split; [exact H3 |].
  intros c Hc. now apply (call_gain c g Hc).
Qed.

Lemma score_never_goes_down_witness :
  score (Game.stats Examples.firstDrop)
  <= score (Game.stats (Game.call (Game.CallHandleInput Game.SOFT_DROP true)
                          Examples.firstDrop)).
Proof.
  refine (proj2 (proj2 (proj2 (score_never_goes_down Examples.firstDrop _)))
            (Game.CallHandleInput Game.SOFT_DROP true) eq_refl).
  unfold Examples.firstDrop.
  apply Game.reachable_call; [| exact I].
  apply Game.reachable_call; [| exact validClock_54321].
  apply Game.reachable_create. exact validClock_54321.
Defined.

(** ** How many lines a lock can clear *)

Section FourLines.

Import Game.

Local Abbreviation tidy := (Forall (fun cells => Spec.rowFull cells = false)).

Lemma clearLines_count (g : Board.Grid) :
  length g = Z.to_nat TOTAL_HEIGHT ->
  length (snd (Board.clearLines g)) = length (filter Spec.rowFull g).
Proof.
  intros Hlen. destruct (clearLines_effect g Hlen) as [_ ->]. cbn [snd].
  now rewrite length_rev, pushedUp_length, filter_rev_length.
Qed.

Lemma clearLines_tidy (g : Board.Grid) :
  length g = Z.to_nat TOTAL_HEIGHT -> tidy (fst (Board.clearLines g)).
Proof.
  intros Hlen. destruct (clearLines_effect g Hlen) as [_ ->]. cbn [fst].
  apply cleared_rows_not_full.
Qed.

Lemma forallb_false_nth {A : Type} (f : A -> bool) (d : A) (l : list A) :
  forallb f l = false -> exists i, (i < length l)%nat /\ f (nth i l d) = false.
Proof.
  induction l as [| x l IH]; cbn [forallb]; [discriminate |].
  destruct (f x) eqn:Hx; cbn [andb].
  - intros H. destruct (IH H) as (i & Hi & Hf). exists (S i). cbn [length nth].
    split; [lia | exact Hf].
  - intros _. exists 0%nat. cbn [length nth]. split; [lia | exact Hx].
Qed.

Lemma forallb_true_nth {A : Type} (f : A -> bool) (d : A) (l : list A) (i : nat) :
  forallb f l = true -> (i < length l)%nat -> f (nth i l d) = true.
Proof.
  intros H Hi. rewrite forallb_forall in H. apply H. now apply nth_In.
Qed.

Lemma cellFull_none (c : Board.Cell) : Board.cellFull c = false -> c = None.
Proof. destruct c as [t |]; [destruct t; discriminate | reflexivity]. Qed.

Lemma cellAt_nth (g : Board.Grid) (i x : nat) :
  Board.cellAt g (Z.of_nat i) (Z.of_nat x) = nth x (nth i g []) None.
Proof.
  unfold Board.cellAt, nthZ.
  destruct (Z.ltb_spec (Z.of_nat i) 0) as [H | _]; [lia |].
  destruct (Z.ltb_spec (Z.of_nat x) 0) as [H | _]; [lia |].
  now rewrite !Nat2Z.id.
Qed.

Lemma nthZ_beyond {A : Type} (l : list A) (k : Z) (d : A) :
  Z.of_nat (length l) <= k -> nthZ l k d = d.
Proof.
  intros H. unfold nthZ. destruct (k <? 0); [reflexivity |].
  apply nth_overflow. lia.
Qed.

Lemma shape_rows (t : TetrominoType) (r : RotationState) :
  (length (PieceData.getShape t r) <= 4)%nat.
Proof. destruct t, r; cbn; lia. Qed.

(** A row that [lockPiece] completes is one of the four rows of the matrix
    of the piece. *)
Lemma completed_row_in_matrix (g : Board.Grid) (t : TetrominoType) (p : Position)
    (r : RotationState) (i : nat) :
  Board.wf_grid g -> tidy g -> (i < length g)%nat ->
  Spec.rowFull (nth i (Board.lockPiece g t p r) []) = true ->
  py p <= Z.of_nat i < py p + 4.
Proof.
  intros Hwf Htidy Hi Hfull.
  pose proof Hwf as [Hlen Hrows].
  assert (Hin : In (nth i g []) g) by (now apply nth_In).
  assert (Hrow : length (nth i g []) = Z.to_nat BOARD_WIDTH).
  { rewrite Forall_forall in Hrows. now apply Hrows. }
  assert (Hgap : Spec.rowFull (nth i g []) = false).
  { rewrite Forall_forall in Htidy. now apply Htidy. }
  unfold Spec.rowFull in Hgap. rewrite Hrow in Hgap.
  change (Z.of_nat (Z.to_nat BOARD_WIDTH) =? BOARD_WIDTH) with true in Hgap.
  cbn [andb] in Hgap.
  destruct (forallb_false_nth _ None _ Hgap) as (x & Hx & Hnone).
  assert (Hx' : (x < Z.to_nat BOARD_WIDTH)%nat) by (rewrite <- Hrow; exact Hx).
  clear Hx. apply cellFull_none in Hnone.
  unfold Spec.rowFull in Hfull. apply andb_prop in Hfull. destruct Hfull as [Hlen' Hall].
  apply Z.eqb_eq in Hlen'.
  assert (Hsome : Board.cellFull (nth x (nth i (Board.lockPiece g t p r) []) None) = true).
  { apply forallb_true_nth; [exact Hall |]. unfold BOARD_WIDTH in *. lia. }
  rewrite <- cellAt_nth in Hsome, Hnone.
  rewrite lockPiece_cellAt in Hsome; [| exact Hwf |].
  - destruct (Spec.filledb (PieceData.getShape t r) (Z.of_nat i - py p)
                (Z.of_nat x - px p)) eqn:Hfill;
      [| rewrite Hnone in Hsome; discriminate].
    unfold Spec.filledb in Hfill.
    apply andb_prop in Hfill. destruct Hfill as [Hfill Hne].
    apply andb_prop in Hfill. destruct Hfill as [Hr _]. apply Z.leb_le in Hr.
    destruct (Z.lt_ge_cases (Z.of_nat i - py p)
                (Z.of_nat (length (PieceData.getShape t r)))) as [Hlt | Hge].
    + pose proof (shape_rows t r). lia.
    + rewrite (nthZ_beyond (PieceData.getShape t r)) in Hne by exact Hge.
      rewrite nthZ_nil in Hne. discriminate.
  - unfold Spec.inField. rewrite Hlen in Hi.
    unfold TOTAL_HEIGHT, BOARD_HEIGHT, HIDDEN_ROWS, BOARD_WIDTH in *. lia.
Qed.

(** Hits that all lie in a window of four indices are at most four. *)
Lemma filter_window {A : Type} (f : A -> bool) (d : A) (lo : Z) (l : list A) : forall k : Z,
  (forall i, (i < length l)%nat -> f (nth i l d) = true ->
             lo <= k + Z.of_nat i < lo + 4) ->
  Z.of_nat (length (filter f l))
  <= Z.max 0 (Z.min (lo + 4) (k + Z.of_nat (length l)) - Z.max lo k).
Proof.
  induction l as [| x l IH]; intros k H; cbn [filter length]; [lia |].
  assert (Hrest : forall i, (i < length l)%nat -> f (nth i l d) = true ->
                            lo <= (k + 1) + Z.of_nat i < lo + 4).
  { intros i Hi Hf. specialize (H (S i)). cbn [length nth] in H.
    specialize (H ltac:(lia) Hf). lia. }
  specialize (IH (k + 1) Hrest).
  destruct (f x) eqn:Hx.
  - specialize (H 0%nat). cbn [length nth] in H. specialize (H ltac:(lia) Hx).
    cbn [length]. lia.
  - lia.
Qed.

Lemma lock_completes_at_most_four (g : Board.Grid) (t : TetrominoType) (p : Position)
    (r : RotationState) :
  Board.wf_grid g -> tidy g ->
  (length (filter Spec.rowFull (Board.lockPiece g t p r)) <= 4)%nat.
Proof.
  intros Hwf Htidy.
  pose proof (lockPiece_wf g t p r Hwf) as [Hlen' _].
  pose proof Hwf as [Hlen _].
  pose proof (filter_window Spec.rowFull [] (py p) (Board.lockPiece g t p r) 0) as H.
  assert (Hwin : forall i, (i < length (Board.lockPiece g t p r))%nat ->
                   Spec.rowFull (nth i (Board.lockPiece g t p r) []) = true ->
                   py p <= 0 + Z.of_nat i < py p + 4).
  { intros i Hi Hfull. rewrite Z.add_0_l.
    apply (completed_row_in_matrix g t p r i Hwf Htidy); [| exact Hfull].
    now rewrite Hlen, <- Hlen'. }
  specialize (H Hwin). lia.
Qed.

Lemma createEmptyGrid_tidy : tidy Board.createEmptyGrid.
Proof.
  apply Forall_forall. intros cells Hin. apply repeat_spec in Hin. now subst.
Qed.

Lemma lockCurrentPiece_tidy (g : Game) :
  Spec.sound g -> tidy (board g) -> tidy (board (lockCurrentPiece g)).
Proof.
  intros [Hwf _] Htidy. destruct (currentPiece g) as [p |] eqn:Hp.
  - rewrite (lockCurrentPiece_board g p Hp). apply clearLines_tidy.
    now destruct (lockPiece_wf (board g) (type p) (position p) (rotation p) Hwf).
  - unfold lockCurrentPiece. now rewrite Hp.
Qed.

Lemma calm_tidy (g g' : Game) :
  Spec.calm g g' -> Spec.sound g -> tidy (board g) ->
  Spec.sound g' /\ tidy (board g').
Proof.
  intros (Hb & Hbag & _) Hsound Htidy. split.
  - now apply (sound_same g g').
  - now rewrite Hb.
Qed.

Lemma call_tidy (c : Call) (g : Game) :
  Spec.sound g -> tidy (board g) -> tidy (board (call c g)).
Proof.
  intros Hsound Htidy.
  destruct c as [now | now | fuel deltaTime | a pressed | count]; cbn [call].
  - unfold start. destruct (spawnNextPiece_board (set_state PLAYING (reset now g)))
      as [-> _]. apply createEmptyGrid_tidy.
  - apply createEmptyGrid_tidy.
  - unfold update. destruct (negb _); [exact Htidy |].
    destruct (currentPiece g); [| exact Htidy].
    set (g2 := set_dropTimer (dropTimer (handleDas fuel deltaTime g) + deltaTime)%float
                             (handleDas fuel deltaTime g)).
    assert (Hcalm : Spec.calm g (gravityLoop fuel
                                             (getDropInterval g2) g2)).
    { apply (calm_trans g g2); [| apply gravityLoop_calm].
      apply (calm_trans g (handleDas fuel deltaTime g)); [apply handleDas_calm |].
      unfold Spec.calm; repeat split; reflexivity. }
    destruct (calm_tidy _ _ Hcalm Hsound Htidy) as [Hs3 Ht3].
    set (g3 := gravityLoop fuel (getDropInterval g2) g2)
      in *.
    unfold handleLockDelay. destruct (currentPiece g3) as [q |]; [| exact Ht3].
    destruct (locked q); [| exact Ht3].
    destruct (geb _ _); [| exact Ht3].
    apply lockCurrentPiece_tidy; [| exact Ht3].
    now apply (sound_same g3).
  - unfold handleInput. destruct (negb _).
    + destruct a; try exact Htidy. destruct (pressed && _); exact Htidy.
    + destruct (currentPiece g); [| destruct a, pressed; exact Htidy].
      destruct a, pressed; try exact Htidy.
      * now destruct (calm_tidy _ _ (pressMove_calm (-1) left true g) Hsound Htidy).
      * now destruct (calm_tidy _ _ (pressMove_calm (-1) left false g) Hsound Htidy).
      * now destruct (calm_tidy _ _ (pressMove_calm 1 right true g) Hsound Htidy).
      * now destruct (calm_tidy _ _ (pressMove_calm 1 right false g) Hsound Htidy).
      * pose proof (movePiece_calm 0 1 g) as Hcalm.
        destruct (movePiece 0 1 g) as [moved g1]. cbn [snd] in Hcalm.
        destruct (calm_tidy _ _ Hcalm Hsound Htidy) as [_ Ht1].
        destruct moved; exact Ht1.
      * unfold performHardDrop. destruct (currentPiece g); [| exact Htidy].
        pose proof (hardDropLoop_calm (hardDropFuel g) 0 g) as Hcalm.
        destruct (hardDropLoop (hardDropFuel g) 0 g) as [d g1]. cbn [snd] in Hcalm.
        destruct (calm_tidy _ _ Hcalm Hsound Htidy) as [Hs1 Ht1].
        apply lockCurrentPiece_tidy; [| exact Ht1].
        now apply (sound_same g1).
      * now destruct (calm_tidy _ _ (rotatePiece_calm true g) Hsound Htidy).
      * now destruct (calm_tidy _ _ (rotatePiece_calm false g) Hsound Htidy).
      * destruct (canHold g); cbn [andb]; [| exact Htidy].
        unfold performHold. destruct (currentPiece g); [| exact Htidy].
        destruct (negb (canHold g)); [exact Htidy |].
        destruct (holdPiece g); [exact Htidy |].
        cbn [board set_lockTimer set_dropTimer set_canHold set_holdPiece].
        now destruct (spawnNextPiece_board g) as [-> _].
  - unfold getNextPieces. destruct (BagRandomizer.preview count (bag g)). exact Htidy.
Qed.

Lemma reachable_tidy (g : Game) : reachable g -> tidy (board g).
Proof.
  induction 1 as [now Hnow | g c Hg IH Hc].
  - apply createEmptyGrid_tidy.
  - apply call_tidy; [now apply reachable_sound | exact IH].
Qed.

End FourLines.

(** X23.  A lock clears at most four lines.  On a board of 22 x 10 without
    a full row, [lockPiece] can complete only rows that the matrix of the
    piece covers, so [clearLines] then returns at most four indices; the
    boards of the controllers a program can reach have no full row, so every
    lock there clears between 0 and 4 lines and the scoring of
    [handleLineClears] never meets a count outside 1 to 4. *)
Theorem lock_clears_at_most_four_lines :
  (forall (b : Board.Grid) (t : TetrominoType) (p : Position) (r : RotationState),
     Board.wf_grid b ->
     Forall (fun cells => Spec.rowFull cells = false) b ->
     (length (snd (Board.clearLines (Board.lockPiece b t p r))) <= 4)%nat) /\
  (forall g : Game.Game,
     Game.reachable g ->
     Forall (fun cells => Spec.rowFull cells = false) (Game.board g) /\
     0 <= Spec.linesClearedByLock g <= 4).
Proof.
  assert (Hfour : forall b t p r,
            Board.wf_grid b -> Forall (fun cells => Spec.rowFull cells = false) b ->
            (length (snd (Board.clearLines (Board.lockPiece b t p r))) <= 4)%nat).
  { intros b t p r Hwf Htidy.
    rewrite clearLines_count.
    - now apply lock_completes_at_most_four.
    - now destruct (lockPiece_wf b t p r Hwf). }
  split; [exact Hfour |].
  intros g Hg. pose proof (reachable_tidy g Hg) as Htidy.
  destruct (reachable_sound g Hg) as [Hwf _].
  split; [exact Htidy |].
  unfold Spec.linesClearedByLock. destruct (Game.currentPiece g) as [p |]; [| lia].
  pose proof (Hfour (Game.board g) (type p) (position p) (rotation p) Hwf Htidy). lia.
Qed.

(** ** The T-Spin test *)

Section TSpin.

Import Game.

Lemma handleLineClears_stats_only (n : Z) (g g' : Game) :
  stats g' = stats g -> stats (handleLineClears n g') = stats (handleLineClears n g).
Proof.
  intros H. unfold handleLineClears. rewrite H.
  destruct (combo (stats g) + 1 >? 1), (n =? 1), (n =? 2), (n =? 3), (n =? 4),
    (backToBack (stats g)),
    (Z.min ((lines (stats g) + n) / 10) 29 >? level (stats g)); reflexivity.
Qed.

Lemma clearAndScore_stats_only (g g' : Game) :
  board g' = board g -> stats g' = stats g ->
  stats (clearAndScore g') = stats (clearAndScore g).
Proof.
  intros Hb Hs. unfold clearAndScore. rewrite Hb.
  destruct (Board.clearLines (board g)) as [grid' cl].
  destruct (Z.of_nat (length cl) >? 0).
  - cbn [stats emit set_events]. now apply handleLineClears_stats_only.
  - cbn [stats set_stats set_board]. now rewrite Hs.
Qed.

Lemma lockAndAnnounce_events (p : Piece) (g : Game) :
  events (lockAndAnnounce p g)
  = events g
    ++ (if TetrominoType_eqb (type p) tT
           && PieceData.isTSpin
                (Board.lockPiece (board g) (type p) (position p) (rotation p))
                (position p) (rotation p) (lastWasRotation g)
        then [ev_tspin] else [])
    ++ [ev_piece_lock p].
Proof.
  unfold lockAndAnnounce.
  cbn [board lastWasRotation set_board].
  destruct (TetrominoType_eqb (type p) tT); cbn [andb].
  - destruct (PieceData.isTSpin _ _ _ _); cbn [events emit set_events set_board];
      now rewrite <- ?app_assoc.
  - reflexivity.
Qed.

End TSpin.

(** X24.  The T-Spin test decides one thing only, whether [lockCurrentPiece]
    emits the [tspin] event before [piece_lock]: the event is emitted
    exactly for a T piece whose test answers true, which takes a rotation as
    the last successful action; the statistics and the board after the lock
    are the same whatever the rotation mark was, so a T-Spin earns no
    points. *)
Theorem tspin_is_an_event_and_nothing_else :
  forall (g : Game.Game) (p : Piece) (mark : bool),
    Game.currentPiece g = Some p ->
    Game.stats (Game.lockCurrentPiece (Game.set_lastWasRotation mark g))
    = Game.stats (Game.lockCurrentPiece g) /\
    Game.board (Game.lockCurrentPiece (Game.set_lastWasRotation mark g))
    = Game.board (Game.lockCurrentPiece g) /\
    Game.events (Game.lockAndAnnounce p g)
    = Game.events g
      ++ (if TetrominoType_eqb (type p) tT
             && PieceData.isTSpin
                  (Board.lockPiece (Game.board g) (type p) (position p) (rotation p))
                  (position p) (rotation p) (Game.lastWasRotation g)
          then [Game.ev_tspin] else [])
      ++ [Game.ev_piece_lock p] /\
    (Game.lastWasRotation g = false ->
     Game.events (Game.lockAndAnnounce p g) = Game.events g ++ [Game.ev_piece_lock p]) /\
    (type p <> tT ->
     Game.events (Game.lockAndAnnounce p g) = Game.events g ++ [Game.ev_piece_lock p]).
Proof.
  intros g p mark Hp.
  assert (Hp' : Game.currentPiece (Game.set_lastWasRotation mark g) = Some p) by exact Hp.
  split; [| split; [| split; [| split]]].
  - rewrite (lockCurrentPiece_stats _ p Hp'), (lockCurrentPiece_stats _ p Hp).
    apply clearAndScore_stats_only.
    + destruct (lockAndAnnounce_frame p g) as (_ & _ & _ & ->).
      now destruct (lockAndAnnounce_frame p (Game.set_lastWasRotation mark g))
        as (_ & _ & _ & ->).
    + now rewrite !lockAndAnnounce_stats.
  - now rewrite (lockCurrentPiece_board _ p Hp'), (lockCurrentPiece_board _ p Hp).
  - apply lockAndAnnounce_events.
  - intros Hmark. rewrite lockAndAnnounce_events, Hmark.
    unfold PieceData.isTSpin. cbn [negb]. now rewrite andb_false_r.
  - intros Ht. rewrite lockAndAnnounce_events.
    destruct (type p); try reflexivity. now contradiction Ht.
Qed.

Lemma tspin_is_an_event_and_nothing_else_witness :
  Game.stats (Game.lockCurrentPiece (Game.set_lastWasRotation true Examples.wallGame))
  = Game.stats (Game.lockCurrentPiece Examples.wallGame).
Proof.
  exact (proj1 (tspin_is_an_event_and_nothing_else Examples.wallGame Examples.wallPiece
                  true eq_refl)).
Defined.

(** ** Reachable controllers *)

(** X25.  Every controller a program can reach (created, then driven by
    any calls, with a clock from 0 to below 2^1000) has a board of 22 rows of
    10 cells, draws a piece type next, and answers [getNextPieces] for a
    count from 0 on with exactly that many entries, each a piece type. *)
Theorem reachable_controller_is_well_formed :
  forall g : Game.Game,
    Game.reachable g ->
    Board.wf_grid (Game.board g) /\
    (exists t, fst (BagRandomizer.next (Game.bag g)) = Some t) /\
    forall count : Z,
      0 <= count ->
      length (fst (Game.getNextPieces count g)) = Z.to_nat count /\
      Forall (fun v => v <> None) (fst (Game.getNextPieces count g)).
Proof.
  intros g Hg. destruct (reachable_sound g Hg) as [Hwf Hready].
  split; [exact Hwf |]. split; [now destruct (bag_next_some _ Hready) |].
  intros count Hcount. unfold Game.getNextPieces.
  pose proof (preview_length count (Game.bag g) Hcount) as Hlen.
  pose proof (preview_no_hole count (Game.bag g) Hready) as Hall.
  destruct (BagRandomizer.preview count (Game.bag g)) as [ps bag']. cbn [fst] in *.
  now split.
Qed.

Lemma reachable_controller_is_well_formed_witness :
  Board.wf_grid (Game.board Examples.firstDrop) /\
  length (fst (Game.getNextPieces 3 Examples.firstDrop)) = Z.to_nat 3.
Proof.
  assert (Hg : Game.reachable Examples.firstDrop).
  { unfold Examples.firstDrop.
    apply Game.reachable_call; [| exact I].
    apply Game.reachable_call; [| exact validClock_54321].
    apply Game.reachable_create. exact validClock_54321. }
  destruct (reachable_controller_is_well_formed Examples.firstDrop Hg) as (Hwf & _ & H).
  split; [exact Hwf |]. exact (proj1 (H 3 ltac:(lia))).
Defined.

(** X26.  [getNextPieces] as the renderer calls it: in a controller a
    program can reach the next bag is always whole, so a preview of up to
    seven pieces (the renderer asks for five) is served from the two bags:
    it returns the coming draws and leaves the controller, the generator
    state included, exactly as it was. *)
Theorem short_previews_leave_the_controller_alone :
  forall (g : Game.Game) (n : nat),
    Game.reachable g ->
    (n <= 7)%nat ->
    snd (Game.getNextPieces (Z.of_nat n) g) = g /\
    fst (Game.getNextPieces (Z.of_nat n) g) = fst (BagRandomizer.draws n (Game.bag g)) /\
    length (BagRandomizer.nextBag (Game.bag g)) = 7%nat.
Proof.
  intros g n Hg Hn. destruct (reachable_sound g Hg) as [_ (_ & Hnext & _)].
  pose proof (oneOfEach_length _ Hnext) as Hlen.
  assert (Hbuf : (n <= length (BagRandomizer.currentBag (Game.bag g))
                      + length (BagRandomizer.nextBag (Game.bag g)))%nat) by lia.
  pose proof (preview_is_draws n (Game.bag g) Hbuf) as Hdraws.
  assert (Hsame : snd (BagRandomizer.preview (Z.of_nat n) (Game.bag g)) = Game.bag g).
  { apply preview_buffered. rewrite length_app. lia. }
  unfold Game.getNextPieces.
  destruct (BagRandomizer.preview (Z.of_nat n) (Game.bag g)) as [ps bag'].
  cbn [fst snd] in *. subst bag'.
  split; [now destruct g |]. split; [exact Hdraws | exact Hlen].
Qed.

Lemma short_previews_leave_the_controller_alone_witness :
  snd (Game.getNextPieces (Z.of_nat 5) Examples.firstDrop) = Examples.firstDrop.
Proof.
  assert (Hg : Game.reachable Examples.firstDrop).
  { unfold Examples.firstDrop.
    apply Game.reachable_call; [| exact I].
    apply Game.reachable_call; [| exact validClock_54321].
    apply Game.reachable_create. exact validClock_54321. }
  exact (proj1 (short_previews_leave_the_controller_alone Examples.firstDrop 5 Hg
                  ltac:(lia))).
Defined.

(** ** What a lock does to the counters *)

Section Counters.

Import Game.

Lemma clearAndScore_counters (g : Game) :
  let cleared := Z.of_nat (length (snd (Board.clearLines (board g)))) in
  lines (stats (clearAndScore g)) = lines (stats g) + cleared /\
  combo (stats (clearAndScore g)) = (if cleared >? 0 then combo (stats g) + 1 else 0) /\
  (cleared = 0 ->
   score (stats (clearAndScore g)) = score (stats g) /\
   level (stats (clearAndScore g)) = level (stats g) /\
   backToBack (stats (clearAndScore g)) = backToBack (stats g) /\
   events (clearAndScore g) = events g).
Proof.
  cbv zeta. unfold clearAndScore.
  destruct (Board.clearLines (board g)) as [grid' cl]. cbn [snd].
  destruct (Z.gtb_spec (Z.of_nat (length cl)) 0) as [Hpos | Hzero].
  - cbn [stats emit set_events].
    destruct (handleLineClears_score (Z.of_nat (length cl)) (set_board grid' g))
      as (_ & _ & _ & Hc).
    rewrite handleLineClears_lines, Hc. cbn [stats set_board].
    split; [reflexivity |]. split; [reflexivity |]. intros H. lia.
  - cbn [stats set_stats set_board set_combo lines combo score level backToBack events].
    split; [lia |]. split; [reflexivity |]. auto.
Qed.

End Counters.

(** X27.  The counters after a lock: the line count grows by exactly the
    number of lines the lock clears; the combo count grows by one when
    lines are cleared and falls to 0 when none is; a lock that clears
    nothing changes neither score nor level nor the back-to-back mark; and
    unless the game is completed by it, the lock gives back the permission
    to hold. *)
Theorem lock_counts_the_cleared_lines :
  forall (g : Game.Game) (p : Piece),
    Game.currentPiece g = Some p ->
    lines (Game.stats (Game.lockCurrentPiece g))
    = lines (Game.stats g) + Spec.linesClearedByLock g /\
    combo (Game.stats (Game.lockCurrentPiece g))
    = (if Spec.linesClearedByLock g >? 0 then combo (Game.stats g) + 1 else 0) /\
    (Spec.linesClearedByLock g = 0 ->
     score (Game.stats (Game.lockCurrentPiece g)) = score (Game.stats g) /\
     level (Game.stats (Game.lockCurrentPiece g)) = level (Game.stats g) /\
     backToBack (Game.stats (Game.lockCurrentPiece g)) = backToBack (Game.stats g)) /\
    (Game.state (Game.lockCurrentPiece g) <> COMPLETED ->
     Game.canHold (Game.lockCurrentPiece g) = true).
Proof.
  intros g p Hp.
  assert (Hcleared : Spec.linesClearedByLock g
                     = Z.of_nat (length (snd (Board.clearLines
                                                (Game.board (Game.lockAndAnnounce p g)))))).
  { unfold Spec.linesClearedByLock. rewrite Hp.
    now destruct (lockAndAnnounce_frame p g) as (_ & _ & _ & ->). }
  pose proof (clearAndScore_counters (Game.lockAndAnnounce p g)) as Hc.
  cbv zeta in Hc. rewrite <- Hcleared in Hc. rewrite lockAndAnnounce_stats in Hc.
  destruct Hc as (Hl & Hcombo & Hnone).
  rewrite (lockCurrentPiece_stats g p Hp).
  split; [exact Hl |]. split; [exact Hcombo |]. split.
  - intros Hz. destruct (Hnone Hz) as (H1 & H2 & H3 & _). auto.
  - unfold Game.lockCurrentPiece. rewrite Hp. cbn [Board.isGameOver].
    destruct (lines (Game.stats (Game.clearAndScore (Game.lockAndAnnounce p g))) >=? 999).
    + intros H. now contradiction H.
    + reflexivity.
Qed.

Lemma lock_counts_the_cleared_lines_witness :
  lines (Game.stats (Game.lockCurrentPiece Examples.lastLine))
  = lines (Game.stats Examples.lastLine) + Spec.linesClearedByLock Examples.lastLine.
Proof.
  exact (proj1 (lock_counts_the_cleared_lines Examples.lastLine Examples.lastLinePiece
                  eq_refl)).
Defined.

(** ** The soft-locked flag and the lock delay *)

Section LockDelay.

Import Game.

(** Locking emits [piece_lock] for the piece, after [tspin] at most, and
    leaves the board with the piece written in and the full rows cleared. *)
Lemma lockCurrentPiece_lockedIn (g : Game) (p : Piece) :
  currentPiece g = Some p -> Spec.lockedIn g p (lockCurrentPiece g).
Proof.
  intros Hp. split; [now apply lockCurrentPiece_board |].
  destruct (clearAndScore_quietly (lockAndAnnounce p g)) as (evs & He & _).
  rewrite lockAndAnnounce_events in He.
  set (before := if TetrominoType_eqb (type p) tT
                    && PieceData.isTSpin
                         (Board.lockPiece (board g) (type p) (position p) (rotation p))
                         (position p) (rotation p) (lastWasRotation g)
                 then [ev_tspin] else []) in *.
  assert (Hbefore : before = [] \/ before = [ev_tspin])
    by (unfold before; destruct (_ && _); auto).
  set (g1 := clearAndScore (lockAndAnnounce p g)) in *.
  assert (Hlater : exists extra, events (lockCurrentPiece g) = events g1 ++ extra).
  { unfold lockCurrentPiece. rewrite Hp. fold g1.
    destruct (Board.isGameOver (board g1)); [now exists [ev_game_over] |].
    destruct (lines (stats g1) >=? 999); [exists []; now rewrite app_nil_r |].
    cbn [events set_canHold]. unfold spawnNextPiece.
    destruct (BagRandomizer.next (bag g1)) as [[t |] bag'];
      [| exists []; now rewrite app_nil_r].
    destruct (negb (Board.isValidPosition _ _ _ _));
      [now exists [ev_game_over] | exists []; now rewrite app_nil_r]. }
  destruct Hlater as (extra & Hextra).
  exists before, (evs ++ extra). split; [| exact Hbefore].
  rewrite Hextra, He. rewrite <- !app_assoc. reflexivity.
Qed.

End LockDelay.

(** C10.  While a soft-locked piece is the active piece, nothing but its
    locking, a hard drop or a hold takes the flag away.  A move in any
    direction, a rotation with or without a wall kick and every input other
    than a hard drop or a hold leave a piece of the same type with the flag
    set; a vertical move leaves the lock timer as it is.  [update], whatever
    direction is held, brings the piece to the side and down with the flag
    set, the lock timer being as before or 0 when the auto shift pushed the
    piece to another column; then, when the lock timer with the elapsed
    time added is below [LOCK_DELAY], the piece stays the active piece with
    its flag set and the board is as before; and when it has reached
    [LOCK_DELAY], the piece is locked where it stands, whether or not the
    cells below it are free: it is written into the board, the full rows
    are cleared, and [piece_lock] is emitted for it.  This holds for every
    number of turns given to the loops of [update], and once both loops
    have ended the result is the same for every larger number: it is the
    state in which the code returns. *)
Theorem softLocked_never_cleared :
  forall (g : Game.Game) (p : Piece),
    Game.state g = PLAYING ->
    Game.currentPiece g = Some p ->
    locked p = true ->
    (forall dx dy, exists q,
        Game.currentPiece (snd (Game.movePiece dx dy g)) = Some q /\
        Spec.stillLocked p q) /\
    (forall clockwise, exists q,
        Game.currentPiece (snd (Game.rotatePiece clockwise g)) = Some q /\
        Spec.stillLocked p q) /\
    (forall a pressed, a <> Game.HARD_DROP -> a <> Game.HOLD -> exists q,
        Game.currentPiece (Game.handleInput a pressed g) = Some q /\
        Spec.stillLocked p q) /\
    (forall dy, Game.lockTimer (snd (Game.movePiece 0 dy g)) = Game.lockTimer g) /\
    (forall fuel deltaTime, exists g3 q,
        Spec.afterGravity g p g3 /\
        Game.currentPiece g3 = Some q /\
        Spec.stillLocked p q /\
        Game.update fuel deltaTime g = Game.handleLockDelay deltaTime g3 /\
        (geb (Game.lockTimer g3 + deltaTime) LOCK_DELAY = false ->
         Game.currentPiece (Game.update fuel deltaTime g) = Some q /\
         Game.lockTimer (Game.update fuel deltaTime g)
         = (Game.lockTimer g3 + deltaTime)%float /\
         Game.board (Game.update fuel deltaTime g) = Game.board g /\
         Game.events (Game.update fuel deltaTime g) = Game.events g) /\
        (geb (Game.lockTimer g3 + deltaTime) LOCK_DELAY = true ->
         Spec.lockedIn g q (Game.update fuel deltaTime g))) /\
    (forall fuel fuel' deltaTime,
        Game.updateEnds fuel deltaTime g = true -> (fuel <= fuel')%nat ->
        Game.update fuel' deltaTime g = Game.update fuel deltaTime g).
Proof.
  intros g p Hst Hp Hl. split; [| split; [| split; [| split; [| split]]]].
  6:{ intros fuel fuel' dt. apply update_enough. }
  - intros dx dy. now apply movePiece_keeps_flag.
  - intros cw. now apply rotatePiece_keeps_flag.
  - intros a pr Ha Hb. now apply handleInput_keeps_flag.
  - intros dy. apply movePiece_down_lockTimer.
  - intros fuel dt.
    destruct (update_flag fuel dt g p Hst Hp Hl) as (g3 & Hgrav & Hupd).
    pose proof Hgrav as (q & Hq & [Hty Hlq] & _ & _ & _ & _ & _ & _ & Hb & Hev).
    exists g3, q.
    split; [exact Hgrav |]. split; [exact Hq |]. split; [now split |].
    split; [exact Hupd |].
    rewrite Hupd. unfold Game.handleLockDelay. rewrite Hq, Hlq.
    cbn [Game.lockTimer Game.set_lockTimer]. split.
    + intros Hlow. rewrite Hlow.
      cbn [Game.currentPiece Game.lockTimer Game.board Game.events Game.set_lockTimer].
      repeat split; assumption.
    + intros Hhigh. rewrite Hhigh.
      set (g4 := Game.set_lockTimer (Game.lockTimer g3 + dt)%float g3).
      assert (Hq4 : Game.currentPiece g4 = Some q) by exact Hq.
      destruct (lockCurrentPiece_lockedIn g4 q Hq4) as (Hboard & before & later & He & Hbefore).
      split.
      * rewrite Hboard. cbn [g4 Game.board Game.set_lockTimer]. now rewrite Hb.
      * exists before, later. split; [| exact Hbefore].
        rewrite He. cbn [g4 Game.events Game.set_lockTimer]. now rewrite Hev.
Qed.

(** The O piece that was soft-locked on a block and stepped off it, 480 ms
    ago: the position one row down is free, and after 20 ms more the piece
    is locked where it is. *)
Lemma softLocked_never_cleared_witness :
  Game.state Examples.offLedge = PLAYING /\
  Game.currentPiece Examples.offLedge = Some Examples.offLedgePiece /\
  Game.lockTimer Examples.offLedge = 480%float /\
  Board.isValidPosition (Game.board Examples.offLedge) tO (mkPosition 5 6) SPAWN = true /\
  Game.updateEnds 8 20%float Examples.offLedge = true /\
  exists q,
    Spec.stillLocked Examples.offLedgePiece q /\
    Spec.lockedIn Examples.offLedge q (Game.update 8 20%float Examples.offLedge).
Proof.
  assert (Hstate : Game.state Examples.offLedge = PLAYING) by (vm_compute; reflexivity).
  assert (Hpiece : Game.currentPiece Examples.offLedge = Some Examples.offLedgePiece)
    by (vm_compute; reflexivity).
  assert (Hdas : Game.dasDirection Examples.offLedge = None) by (vm_compute; reflexivity).
  assert (Htimer : geb (Game.lockTimer Examples.offLedge + 20) LOCK_DELAY = true)
    by (vm_compute; reflexivity).
  split; [exact Hstate |]. split; [exact Hpiece |].
  split; [vm_compute; reflexivity |]. split; [vm_compute; reflexivity |].
  split; [vm_compute; reflexivity |].
  destruct (softLocked_never_cleared Examples.offLedge Examples.offLedgePiece
              Hstate Hpiece eq_refl) as (_ & _ & _ & _ & Hupd & _).
  destruct (Hupd 8%nat 20%float) as (g3 & q & Hgrav & Hq & Hstill & _ & _ & Hlock).
  exists q. split; [exact Hstill |]. apply Hlock.
  destruct Hgrav as (q' & Hq' & _ & _ & Hx & _ & Ht & _).
  rewrite Hdas in Hx. cbn [Spec.shifted] in Hx. rewrite Hx, Z.eqb_refl in Ht.
  rewrite Ht. exact Htimer.
Defined.

(** ** A drop timer too large for the gravity loop *)

(** X28.  In play with an active piece, when the drop timer with the
    elapsed time added is at least the drop interval and so large that
    subtracting the interval gives the same double, the gravity loop of
    [update] does not end: whatever number of turns it is given, its test
    is still true.  So it is for an elapsed time of 1e20 ms at level 0,
    where 1e20 - 800 is 1e20. *)
Theorem gravity_loop_stuck_on_large_timer :
  forall (g : Game.Game) (deltaTime : float),
    Game.state g = PLAYING ->
    Game.currentPiece g <> None ->
    Game.dasDirection g = None ->
    geb (Game.dropTimer g + deltaTime) (Game.getDropInterval g) = true ->
    (Game.dropTimer g + deltaTime - Game.getDropInterval g)%float
    = (Game.dropTimer g + deltaTime)%float ->
    forall fuel, Game.updateEnds fuel deltaTime g = false.
Proof.
  intros g dt Hst Hp Hdas Hge Hsame fuel. unfold Game.updateEnds.
  rewrite Hst. cbn [Game.GameState_eqb negb].
  destruct (Game.currentPiece g) as [p |]; [| now contradiction Hp].
  unfold Game.handleDasEnds, Game.handleDas. rewrite Hdas. cbn [andb].
  apply gravityLoop_stuck; assumption.
Qed.

Lemma gravity_loop_stuck_on_large_timer_witness :
  (1e20 - 800)%float = 1e20%float /\
  Game.updateEnds 1000 1e20%float Examples.wallGame = false.
Proof.
  split; [vm_compute; reflexivity |].
  apply (gravity_loop_stuck_on_large_timer Examples.wallGame 1e20%float).
  - reflexivity.
  - discriminate.
  - reflexivity.
  - vm_compute. reflexivity.
  - vm_compute. reflexivity.
Defined.
